(** * Win-rate pipeline of LudiiMCTSVariations: log parser, name matcher,
      dataset builder, feature encoders and prediction entry point

    Shallow embedding of [src/python_script/train_krr_winrate.py] and
    [src/python_script/tune_krr_winrate.py].

    Conventions of the embedding
    - Python [str] is [string]; a character is a code point below 256.
    - Python [dict] is an association list kept in insertion order
      ([dict_set] updates in place or appends), because the fuzzy name
      scan iterates the mapping in that order.
    - A Python [float] is an exact rational ([Q]), an infinity or NaN.
      Rounding to binary64 is not modelled; leaving the range of the
      floats is: a literal too large reads as an infinity, a quotient of
      integers too large raises [OverflowError].
    - A Python [int] is unbounded ([N]); [int(s)] raises past the
      interpreter's limit on the digits of a literal (4300 by default,
      CPython 3.11 and the security releases of 3.7 to 3.10).
    - A cell of the [game] column of the property table is text, a number
      or NaN, as [pandas.read_csv] gives it; a cell of a property column is
      a number (an infinity included) or NaN.
    - An entry of the results directory may be one that [open] cannot
      read (a subdirectory, say).
    - A call that may raise returns [res]: [Ok v] or [Raise e]. *)

From Stdlib Require Import Bool Arith NArith ZArith QArith Qminmax Qabs Lia.
From Stdlib Require Import Ascii String List.
From Stdlib Require Import Sorting.Sorted Sorting.Permutation Sorting.Mergesort.
From Stdlib Require Import Structures.Orders Structures.OrderedTypeEx.
From Stdlib Require Import Classes.RelationClasses.
Import ListNotations.

Local Open Scope string_scope.
Local Open Scope list_scope.

(* ================================================================== *)
(** * Python string primitives *)
(* ================================================================== *)

Definition code (c : ascii) : N := N_of_ascii c.

(** [str.isspace] on one character, also the class [\s] of [re]. *)
Definition is_space (c : ascii) : bool :=
  let n := code c in
  ((9 <=? n) && (n <=? 13) || (28 <=? n) && (n <=? 32)
   || (n =? 133) || (n =? 160))%N.

Definition is_digit (c : ascii) : bool :=
  let n := code c in ((48 <=? n) && (n <=? 57))%N.

Definition is_lower_letter (c : ascii) : bool :=
  let n := code c in ((97 <=? n) && (n <=? 122))%N.

(** The letters [str.lower] changes: A to Z and, below code point 256,
    the capital letters of Latin-1 (192 to 222 without the sign 215). *)
Definition is_upper_letter (c : ascii) : bool :=
  let n := code c in
  ((65 <=? n) && (n <=? 90)
   || (192 <=? n) && (n <=? 222) && negb (n =? 215))%N.

Definition lower_char (c : ascii) : ascii :=
  if is_upper_letter c then ascii_of_N (code c + 32) else c.

(** [s.lower()] *)
Fixpoint lower (s : string) : string :=
  match s with
  | EmptyString => EmptyString
  | String c s' => String (lower_char c) (lower s')
  end.

Fixpoint str_rev_onto (s acc : string) : string :=
  match s with
  | EmptyString => acc
  | String c s' => str_rev_onto s' (String c acc)
  end.

Definition str_rev (s : string) : string := str_rev_onto s EmptyString.

Fixpoint lstrip (s : string) : string :=
  match s with
  | EmptyString => EmptyString
  | String c s' => if is_space c then lstrip s' else s
  end.

Definition rstrip (s : string) : string := str_rev (lstrip (str_rev s)).

(** [s.strip()] *)
Definition strip (s : string) : string := rstrip (lstrip s).

(** [not s]: the empty string is falsy. *)
Definition is_empty (s : string) : bool :=
  match s with EmptyString => true | _ => false end.

Definition nonempty (s : string) : bool := negb (is_empty s).

(** [s.startswith(p)] *)
Definition startswith (s p : string) : bool := String.prefix p s.

(** [s.endswith(p)] *)
Definition endswith (s p : string) : bool :=
  String.prefix (str_rev p) (str_rev s).

(** [s.find(p) >= 0]: [p] occurs in [s]. *)
Fixpoint contains (s p : string) : bool :=
  String.prefix p s ||
  match s with
  | EmptyString => false
  | String _ s' => contains s' p
  end.

(** [s.split(sep)] for a one-character separator; never the empty list. *)
Fixpoint split (sep : ascii) (s : string) : list string :=
  match s with
  | EmptyString => [EmptyString]
  | String c s' =>
      if Ascii.eqb c sep then EmptyString :: split sep s'
      else match split sep s' with
           | [] => [String c EmptyString]
           | p :: ps => String c p :: ps
           end
  end.

(** [s.split(sep, 1)] when [sep in s]: the text before and after the
    first separator; [None] when the separator does not occur. *)
Fixpoint split_once (sep : ascii) (s : string) : option (string * string) :=
  match s with
  | EmptyString => None
  | String c s' =>
      if Ascii.eqb c sep then Some (EmptyString, s')
      else match split_once sep s' with
           | Some (a, b) => Some (String c a, b)
           | None => None
           end
  end.

(** [s.rsplit(sep, 1)] when [sep in s]: the text before and after the
    last separator. *)
Fixpoint rsplit_once (sep : ascii) (s : string) : option (string * string) :=
  match s with
  | EmptyString => None
  | String c s' =>
      match rsplit_once sep s' with
      | Some (a, b) => Some (String c a, b)
      | None => if Ascii.eqb c sep then Some (EmptyString, s') else None
      end
  end.

(** [sep.join(parts)] *)
Fixpoint join (sep : string) (parts : list string) : string :=
  match parts with
  | [] => EmptyString
  | [p] => p
  | p :: ps => (p ++ sep ++ join sep ps)%string
  end.

(** The number a run of decimal digits denotes. *)
Definition digit_val (c : ascii) : N := (code c - 48)%N.

Fixpoint digits_value_acc (s : string) (acc : N) : N :=
  match s with
  | EmptyString => acc
  | String c s' => digits_value_acc s' (10 * acc + digit_val c)%N
  end.

Definition digits_value (s : string) : N := digits_value_acc s 0%N.

(** Results of calls that may raise. *)
Inductive exn : Type :=
| ValueError_float        (* float() on a malformed literal *)
| ValueError_int          (* int() on a literal with too many digits *)
| OverflowError           (* int / int with a quotient too large for a float *)
| OSError                 (* open() on an entry that cannot be read *)
| FileNotFoundError_model (* 'Model or feature names not found. Run tuner first.' *)
| FileNotFoundError_props (* pd.read_csv(GAME_PROPS) on an absent file *)
| ValueError_game         (* 'Game "..." not found in game properties' *)
| IndexError              (* .iloc[0] on an empty selection *)
| KeyError                (* df[name] on an absent column *)
| ValueError_astype.      (* astype(float) on text *)

Inductive res (A : Type) : Type :=
| Ok (a : A)
| Raise (e : exn).
Arguments Ok {A} a.
Arguments Raise {A} e.

Definition bind {A B : Type} (m : res A) (f : A -> res B) : res B :=
  match m with
  | Ok a => f a
  | Raise e => Raise e
  end.

Notation "x <- m ;; k" := (bind m (fun x => k))
  (at level 61, m at next level, right associativity).

(** [sys.get_int_max_str_digits()], as the interpreter starts. *)
Definition int_max_str_digits : N := 4300.

(** [int(s)] on a run of decimal digits: [ValueError] when the run is
    longer than the limit (every digit counts, leading zeros too). *)
Definition int_of_digits (s : string) : res N :=
  if (N.of_nat (String.length s) <=? int_max_str_digits)%N
  then Ok (digits_value s)
  else Raise ValueError_int.

Fixpoint count_char (c : ascii) (s : string) : nat :=
  match s with
  | EmptyString => 0
  | String d s' => (if Ascii.eqb d c then 1 else 0) + count_char c s'
  end.

Fixpoint filter_str (p : ascii -> bool) (s : string) : string :=
  match s with
  | EmptyString => EmptyString
  | String c s' => if p c then String c (filter_str p s') else filter_str p s'
  end.

(** Every character of [s] satisfies [p]. *)
Fixpoint all_chars (p : ascii -> bool) (s : string) : bool :=
  match s with
  | EmptyString => true
  | String c s' => p c && all_chars p s'
  end.

(** A Python [float]: a rational, an infinity or NaN. *)
Inductive pyfloat : Type :=
| FNum (q : Q)
| FInf (negative : bool)
| FNaN.

(** The least magnitude that has no finite float: the midpoint between
    the largest float and [2^1024], which rounds up. *)
Definition float_overflow_bound : Q := inject_Z (2 ^ 1024 - 2 ^ 970).

(** The float a literal of value [q] reads as. *)
Definition float_of_value (q : Q) : pyfloat :=
  if Qle_bool float_overflow_bound (Qabs q)
  then FInf (negb (Qle_bool 0 q))
  else FNum q.

Definition pow10 (n : nat) : positive := Nat.iter n (Pos.mul 10) 1%positive.

(** A run of digits and points that is a decimal literal: at most one
    point and at least one digit. *)
Definition decimal_ok (s : string) : bool :=
  (count_char "."%char s <=? 1)%nat
  && negb (is_empty (filter_str is_digit s)).

Definition decimal_value (s : string) : Q :=
  let frac :=
    match split_once "."%char s with
    | Some (_, f) => String.length f
    | None => 0%nat
    end in
  Z.of_N (digits_value (filter_str is_digit s)) # pow10 frac.

(** [float(s)] on text matched by [[0-9.]+]: [ValueError] unless the text
    is a decimal literal.  ([float_of_text] below reads any text and
    agrees with it on such text.) *)
Definition float_of_decimal (s : string) : res pyfloat :=
  if decimal_ok s then Ok (float_of_value (decimal_value s))
  else Raise ValueError_float.

(** ** [float(s)] on any text *)

(** The white space [float] drops around a literal: the ASCII white space
    and the white space above code point 127. *)
Definition is_float_space (c : ascii) : bool :=
  let n := code c in
  ((9 <=? n) && (n <=? 13) || (n =? 32) || (n =? 133) || (n =? 160))%N.

Fixpoint drop_while (p : ascii -> bool) (s : string) : string :=
  match s with
  | EmptyString => EmptyString
  | String c s' => if p c then drop_while p s' else s
  end.

Definition strip_with (p : ascii -> bool) (s : string) : string :=
  str_rev (drop_while p (str_rev (drop_while p s))).

(** An underscore is allowed between two digits only; [prev] is the
    character before [s]. *)
Fixpoint underscores_ok (prev : ascii) (s : string) : bool :=
  match s with
  | EmptyString => negb (Ascii.eqb prev "_"%char)
  | String c s' =>
      (if Ascii.eqb c "_"%char then is_digit prev
       else negb (Ascii.eqb prev "_"%char) || is_digit c)
      && underscores_ok c s'
  end.

Definition is_underscore (c : ascii) : bool := Ascii.eqb c "_"%char.

(** An optional sign: whether it is a minus, and the text after it. *)
Definition take_sign (s : string) : bool * string :=
  match s with
  | String c s' =>
      if Ascii.eqb c "-"%char then (true, s')
      else if Ascii.eqb c "+"%char then (false, s')
      else (false, s)
  | EmptyString => (false, s)
  end.

(** The text before the first [e] or [E], and the text after it. *)
Fixpoint split_exponent (s : string) : string * option string :=
  match s with
  | EmptyString => (EmptyString, None)
  | String c s' =>
      if Ascii.eqb c "e"%char || Ascii.eqb c "E"%char
      then (EmptyString, Some s')
      else let (m, e) := split_exponent s' in (String c m, e)
  end.

Definition digit_or_point (c : ascii) : bool :=
  is_digit c || Ascii.eqb c "."%char.

Definition signed (negative : bool) (q : Q) : Q :=
  if negative then - q else q.

(** [float(s)] on a [str]: white space around the literal is dropped;
    the literal is [inf], [infinity] or [nan] in any letter case, or a
    decimal number with an optional exponent, each with an optional
    sign; otherwise [ValueError]. *)
Definition float_of_text (s : string) : res pyfloat :=
  let t := strip_with is_float_space s in
  if underscores_ok Ascii.zero t then
    let (negative, body) :=
      take_sign (filter_str (fun c => negb (is_underscore c)) t) in
    let word := lower body in
    if String.eqb word "inf" || String.eqb word "infinity"
    then Ok (FInf negative)
    else if String.eqb word "nan" then Ok FNaN
    else
      let (mantissa, exponent) := split_exponent body in
      if all_chars digit_or_point mantissa && decimal_ok mantissa then
        let m := signed negative (decimal_value mantissa) in
        match exponent with
        | None => Ok (float_of_value m)
        | Some e =>
            let (below, e_digits) := take_sign e in
            if all_chars is_digit e_digits && negb (is_empty e_digits) then
              let n := Z.of_N (digits_value e_digits) in
              Ok (float_of_value
                    (m * inject_Z 10 ^ (if below then - n else n)))
            else Raise ValueError_float
        end
      else Raise ValueError_float
  else Raise ValueError_float.

(* ================================================================== *)
(** * The fragment of [re] used by the scripts *)
(* ================================================================== *)

(** Patterns: literals, greedy repetitions of a character class, capturing
    groups, concatenation and the anchors [^] and [$]. *)
Inductive re : Type :=
| Lit (s : string)
| Star (p : ascii -> bool)
| Plus (p : ascii -> bool)
| Grp (n : nat) (r : re)
| Cat (r1 r2 : re)
| Bol
| Eol.

Definition captures : Type := list (nat * string).

(** [m.group(n)] *)
Fixpoint group (n : nat) (cs : captures) : string :=
  match cs with
  | [] => EmptyString
  | (i, s) :: cs' => if Nat.eqb i n then s else group n cs'
  end.

Definition newline : ascii := ascii_of_N 10.
Definition carriage_return : ascii := ascii_of_N 13.

(** [.] without DOTALL; [\d] is [is_digit] and [[0-9.]] is
    [digit_or_point]. *)
Definition dot (c : ascii) : bool := negb (Ascii.eqb c newline).

Definition char_eq (ignorecase : bool) (a c : ascii) : bool :=
  if ignorecase then Ascii.eqb (lower_char a) (lower_char c)
  else Ascii.eqb a c.

Fixpoint lit_match (ignorecase : bool) (l s : string) : option string :=
  match l with
  | EmptyString => Some s
  | String a l' =>
      match s with
      | String c s' =>
          if char_eq ignorecase a c then lit_match ignorecase l' s' else None
      | EmptyString => None
      end
  end.

Section Matcher.
Context {A : Type}.

(** Greedy repetition: take as many characters as possible and give
    them back one by one while the rest of the pattern fails. *)
Fixpoint star_match (p : ascii -> bool) (pos : nat) (s : string)
         (k : nat -> string -> option A) : option A :=
  match s with
  | String c s' =>
      if p c then
        match star_match p (S pos) s' k with
        | Some a => Some a
        | None => k pos s
        end
      else k pos s
  | EmptyString => k pos s
  end.

(** [rmatch ic r pos s cs k]: match [r] at offset [pos], where [s] is the
    text from [pos] on, then continue with [k]. *)
Fixpoint rmatch (ignorecase : bool) (r : re) (pos : nat) (s : string)
         (cs : captures)
         (k : nat -> string -> captures -> option A) : option A :=
  match r with
  | Lit l =>
      match lit_match ignorecase l s with
      | Some s' => k (pos + String.length l)%nat s' cs
      | None => None
      end
  | Star p => star_match p pos s (fun pos' s' => k pos' s' cs)
  | Plus p =>
      match s with
      | String c s' =>
          if p c then star_match p (S pos) s' (fun pos' s' => k pos' s' cs)
          else None
      | EmptyString => None
      end
  | Grp n r' =>
      rmatch ignorecase r' pos s cs
        (fun pos' s' cs' =>
           k pos' s' ((n, String.substring 0 (pos' - pos) s) :: cs'))
  | Cat r1 r2 =>
      rmatch ignorecase r1 pos s cs
        (fun pos' s' cs' => rmatch ignorecase r2 pos' s' cs' k)
  | Bol => if Nat.eqb pos 0 then k pos s cs else None
  | Eol =>
      if is_empty s || String.eqb s (String newline EmptyString)
      then k pos s cs else None
  end.
End Matcher.

Fixpoint seq (rs : list re) : re :=
  match rs with
  | [] => Lit EmptyString
  | [r] => r
  | r :: rs' => Cat r (seq rs')
  end.

(** [pattern.match(s)]: a match that starts at offset 0. *)
Definition re_match (ignorecase : bool) (r : re) (s : string)
  : option captures :=
  rmatch ignorecase r 0 s [] (fun _ _ cs => Some cs).

(** [pattern.search(s)]: the leftmost match. *)
Fixpoint search_from (ignorecase : bool) (r : re) (pos : nat) (s : string)
  : option captures :=
  match rmatch ignorecase r pos s [] (fun _ _ cs => Some cs) with
  | Some cs => Some cs
  | None =>
      match s with
      | String _ s' => search_from ignorecase r (S pos) s'
      | EmptyString => None
      end
  end.

Definition re_search (ignorecase : bool) (r : re) (s : string)
  : option captures :=
  search_from ignorecase r 0 s.

(** Number of characters of the match of [r] that starts at the head of
    [s], if there is one. *)
Definition match_length (r : re) (s : string) : option nat :=
  rmatch false r 0 s [] (fun pos' _ _ => Some pos').

(** [re.split(pattern, s)] for a pattern that matches no empty text:
    [skip] counts the characters of the current match still to drop and
    [cur] holds the current piece, reversed. *)
Fixpoint re_split_go (r : re) (skip : nat) (cur : string) (s : string)
  : list string :=
  match s with
  | EmptyString => [str_rev cur]
  | String c s' =>
      match skip with
      | S n => re_split_go r n cur s'
      | O =>
          match match_length r s with
          | Some (S n) => str_rev cur :: re_split_go r n EmptyString s'
          | _ => re_split_go r 0 (String c cur) s'
          end
      end
  end.

Definition re_split (r : re) (s : string) : list string :=
  re_split_go r 0 EmptyString s.

(* ================================================================== *)
(** * train_krr_winrate.py: the log parser *)
(* ================================================================== *)

(** [COMPLETED_RE], [GAME_RE] and [VARIANT_RE]. *)
Definition COMPLETED_RE : re :=
  seq [ Lit "completed="; Grp 1 (Plus is_digit); Lit "/";
        Grp 2 (Plus is_digit); Lit ","; Star is_space;
        Lit "wins="; Grp 3 (Plus is_digit); Lit ","; Star is_space;
        Lit "losses="; Grp 4 (Plus is_digit); Lit ","; Star is_space;
        Lit "draws="; Grp 5 (Plus is_digit); Lit ","; Star is_space;
        Lit "failures="; Grp 6 (Plus is_digit); Lit ","; Star is_space;
        Lit "avgMoves="; Grp 7 (Plus digit_or_point) ].

Definition GAME_RE : re :=
  seq [ Bol; Lit "Game:"; Star is_space; Grp 1 (Plus dot); Eol ].

Definition VARIANT_RE : re :=
  seq [ Bol; Lit "Variant:"; Star is_space; Grp 1 (Plus dot); Eol ].

(** The dictionary [data] of [parse_out_file]; [None] is Python's [None]. *)
Record parsed : Type := mkParsed {
  p_game : option string;
  p_variant : option string;
  p_wins : option N;
  p_games : option N;
  p_avgMoves : option pyfloat
}.

Definition empty_parsed : parsed := mkParsed None None None None None.

(** The lines a text file yields when iterated.  Every line is stripped
    before use, so the line terminators are left out, and the empty piece
    after a final terminator is skipped by the loop body like any blank
    line. *)
Definition is_line_break (c : ascii) : bool :=
  Ascii.eqb c newline || Ascii.eqb c carriage_return.

Fixpoint file_lines (s : string) : list string :=
  match s with
  | EmptyString => [EmptyString]
  | String c s' =>
      if is_line_break c then EmptyString :: file_lines s'
      else match file_lines s' with
           | [] => [String c EmptyString]
           | l :: ls => String c l :: ls
           end
  end.

(** One iteration of the loop of [parse_out_file]. *)
Definition parse_line (data : parsed) (raw : string) : res parsed :=
  let line := strip raw in
  if is_empty line then Ok data
  else
    match re_match true GAME_RE line with
    | Some gm =>
        Ok (mkParsed (Some (strip (group 1 gm))) (p_variant data)
                     (p_wins data) (p_games data) (p_avgMoves data))
    | None =>
        match re_match true VARIANT_RE line with
        | Some vm =>
            Ok (mkParsed (p_game data) (Some (strip (group 1 vm)))
                         (p_wins data) (p_games data) (p_avgMoves data))
        | None =>
            match re_search false COMPLETED_RE line with
            | Some cm =>
                completed <- int_of_digits (group 1 cm) ;;
                total_expected <- int_of_digits (group 2 cm) ;;
                wins <- int_of_digits (group 3 cm) ;;
                avg_moves <- float_of_decimal (group 7 cm) ;;
                Ok (mkParsed (p_game data) (p_variant data)
                             (Some wins) (Some completed) (Some avg_moves))
            | None => Ok data
            end
        end
    end.

Fixpoint parse_lines (data : parsed) (lines : list string) : res parsed :=
  match lines with
  | [] => Ok data
  | l :: ls => d <- parse_line data l ;; parse_lines d ls
  end.

(** [parse_out_file(path)], on the text of the file. *)
Definition parse_out_file (text : string) : res parsed :=
  parse_lines empty_parsed (file_lines text).

(* ================================================================== *)
(** * Name normalisation and the name matcher *)
(* ================================================================== *)

Definition is_lower_alnum (c : ascii) : bool :=
  is_lower_letter c || is_digit c.

(** A value of the [game] column as [pandas.read_csv] gives it: text, a
    number or an infinity (a column whose every entry reads as a number)
    or NaN (a blank entry).  A name the scripts hold as a [str] is
    [NText]. *)
Inductive name_cell : Type :=
| NText (s : string)
| NNumber (q : Q)
| NInfinity (negative : bool)
| NMissing.

(** [normalize_name(s)]: [''] unless [s] is a [str], else
    [re.sub(r'[^a-z0-9]', '', s.lower())]. *)
Definition normalize_name (s : name_cell) : string :=
  match s with
  | NText t => filter_str is_lower_alnum (lower t)
  | _ => EmptyString
  end.

(** [bool(g)]: an empty text and a zero are falsy, NaN is truthy. *)
Definition truthy (g : name_cell) : bool :=
  match g with
  | NText t => negb (is_empty t)
  | NNumber q => negb (Qeq_bool q 0)
  | NInfinity _ => true
  | NMissing => true
  end.

(** [a == b] on two cells: NaN is equal to nothing, itself included. *)
Definition name_eqb (a b : name_cell) : bool :=
  match a, b with
  | NText s, NText t => String.eqb s t
  | NNumber p, NNumber q => Qeq_bool p q
  | NInfinity a, NInfinity b => Bool.eqb a b
  | _, _ => false
  end.

(** The cells [==] holds equal: the same text, or numbers of the same
    value. *)
Definition same_name (a b : name_cell) : Prop :=
  match a, b with
  | NText s, NText t => s = t
  | NNumber p, NNumber q => p == q
  | NInfinity a, NInfinity b => a = b
  | _, _ => False
  end.

(** Insertion-ordered dictionaries with string keys. *)
Definition dict (V : Type) : Type := list (string * V).

Fixpoint dict_get {V : Type} (d : dict V) (k : string) : option V :=
  match d with
  | [] => None
  | (k', v) :: d' => if String.eqb k' k then Some v else dict_get d' k
  end.

(** [d[k] = v]: an existing key keeps its position. *)
Fixpoint dict_set {V : Type} (d : dict V) (k : string) (v : V) : dict V :=
  match d with
  | [] => [(k, v)]
  | (k', v') :: d' =>
      if String.eqb k' k then (k', v) :: d'
      else (k', v') :: dict_set d' k v
  end.

(** [dict(pairs)] *)
Definition dict_of_pairs {V : Type} (ps : list (string * V)) : dict V :=
  fold_left (fun d kv => dict_set d (fst kv) (snd kv)) ps [].

Definition keys {V : Type} (d : dict V) : list string := map fst d.

(** The test of the fuzzy scan:
    [n == norm or n.startswith(norm) or norm.startswith(n)
     or n.find(norm) >= 0 or norm.find(n) >= 0]. *)
Definition fuzzy_hit (n norm : string) : bool :=
  String.eqb n norm || startswith n norm || startswith norm n
  || contains n norm || contains norm n.

(** [for n, g in mapping.items(): if ...: found = g; break] *)
Fixpoint fuzzy_scan {V : Type} (items : dict V) (norm : string) : option V :=
  match items with
  | [] => None
  | (n, g) :: rest =>
      if fuzzy_hit n norm then Some g else fuzzy_scan rest norm
  end.

(** The matcher as written in [build_dataset] (lines 105-119), on the
    [str] the parser found: the exact result is tested with [is None], the
    fuzzy result with [if found:], so a falsy name found by the scan counts
    as no match. *)
Definition match_game_build (norm_to_game : dict name_cell) (game : string)
  : option name_cell :=
  let norm := normalize_name (NText game) in
  match dict_get norm_to_game norm with
  | Some mapped_game => Some mapped_game
  | None =>
      match fuzzy_scan norm_to_game norm with
      | Some found => if truthy found then Some found else None
      | None => None
      end
  end.

(** The matcher as written in [predict_winrate] (lines 148-157), on a
    [str] argument. *)
Definition match_game_predict (norm_map : dict name_cell) (game_name : string)
  : option name_cell :=
  let norm := normalize_name (NText game_name) in
  match dict_get norm_map norm with
  | Some mapped => Some mapped
  | None => fuzzy_scan norm_map norm
  end.

(* ================================================================== *)
(** * The game property table *)
(* ================================================================== *)

(** A cell of a property column: a number, an infinity or NaN (a missing
    value). *)
Inductive cell : Type :=
| CNum (q : Q)
| CInf (negative : bool)
| CNaN.

(** One row of [game_properties.csv]: the [game] column and the numeric
    property columns in file order. *)
Record game_record : Type := mkGame {
  g_name : name_cell;
  g_cols : list (string * cell)
}.

Definition table : Type := list game_record.

(** [dict(zip(games_df['_norm'], games_df['game']))] *)
Definition norm_map_of (games_df : table) : dict name_cell :=
  dict_of_pairs (map (fun g => (normalize_name (g_name g), g_name g)) games_df).

(** [games_df[games_df['game'] == mapped].iloc[0]], [None] for the
    [IndexError] of an empty selection. *)
Definition first_row_named (games_df : table) (mapped : name_cell)
  : option game_record :=
  find (fun g => name_eqb (g_name g) mapped) games_df.

(** [row.to_dict()], without its two text entries [game] and [_norm],
    which the loop over the items skips. *)
Definition props_dict (g : game_record) : dict cell :=
  dict_of_pairs (g_cols g).

(* ================================================================== *)
(** * train_krr_winrate.py: the scan for run metadata *)
(* ================================================================== *)

(** The class [[^,\s]]. *)
Definition not_comma_or_space (c : ascii) : bool :=
  negb (Ascii.eqb c ","%char || is_space c).

(** [META_RE]: its five alternatives, in the order of the pattern. *)
Definition META_RE : list re :=
  [ seq [ Lit "moveTime="; Grp 1 (Plus digit_or_point) ];
    seq [ Lit "gamesPerMatchup="; Grp 2 (Plus is_digit) ];
    seq [ Lit "maxMoves="; Grp 3 (Plus is_digit) ];
    seq [ Lit "cpus="; Grp 4 (Plus is_digit) ];
    seq [ Lit "mem="; Grp 5 (Plus not_comma_or_space) ] ].

(** The match of an alternation at the head of [s]: the first alternative
    that matches, with the number of characters it takes. *)
Fixpoint first_alternative (alts : list re) (s : string)
  : option (nat * captures) :=
  match alts with
  | [] => None
  | r :: rest =>
      match rmatch false r 0 s [] (fun pos' _ cs => Some (pos', cs)) with
      | Some m => Some m
      | None => first_alternative rest s
      end
  end.

(** [pattern.finditer(s)] for an alternation that matches no empty text:
    the matches from left to right, each search starting where the
    previous match ended ([skip] counts the characters of the current match
    still to pass). *)
Fixpoint finditer_go (alts : list re) (skip : nat) (s : string)
  : list captures :=
  match s with
  | EmptyString => []
  | String _ s' =>
      match skip with
      | S n => finditer_go alts n s'
      | O =>
          match first_alternative alts s with
          | Some (S n, cs) => cs :: finditer_go alts n s'
          | _ => finditer_go alts 0 s'
          end
      end
  end.

Definition finditer (alts : list re) (s : string) : list captures :=
  finditer_go alts 0 s.

(** The dictionary [meta] of [build_dataset]. *)
Record meta : Type := mkMeta {
  m_moveTime : option pyfloat;
  m_gamesPerMatchup : option N;
  m_maxMoves : option N;
  m_cpus : option N;
  m_mem : option string
}.

Definition empty_meta : meta := mkMeta None None None None None.

(** The body of the loop over the matches (lines 129-138), one assignment
    after the other: a group that took no part in the match is [None],
    hence falsy.  When a conversion raises, [meta] stays as the
    assignments before it left it. *)
Definition meta_step (d : meta) (m : captures) : meta * option exn :=
  match (if nonempty (group 1 m)
         then t <- float_of_decimal (group 1 m) ;;
              Ok (mkMeta (Some t) (m_gamesPerMatchup d) (m_maxMoves d)
                         (m_cpus d) (m_mem d))
         else Ok d) with
  | Raise e => (d, Some e)
  | Ok d1 =>
  match (if nonempty (group 2 m)
         then n <- int_of_digits (group 2 m) ;;
              Ok (mkMeta (m_moveTime d1) (Some n)
                         (m_maxMoves d1) (m_cpus d1) (m_mem d1))
         else Ok d1) with
  | Raise e => (d1, Some e)
  | Ok d2 =>
  match (if nonempty (group 3 m)
         then n <- int_of_digits (group 3 m) ;;
              Ok (mkMeta (m_moveTime d2) (m_gamesPerMatchup d2) (Some n)
                         (m_cpus d2) (m_mem d2))
         else Ok d2) with
  | Raise e => (d2, Some e)
  | Ok d3 =>
  match (if nonempty (group 4 m)
         then n <- int_of_digits (group 4 m) ;;
              Ok (mkMeta (m_moveTime d3) (m_gamesPerMatchup d3) (m_maxMoves d3)
                         (Some n) (m_mem d3))
         else Ok d3) with
  | Raise e => (d3, Some e)
  | Ok d4 =>
      (if nonempty (group 5 m)
       then mkMeta (m_moveTime d4) (m_gamesPerMatchup d4) (m_maxMoves d4)
                   (m_cpus d4) (Some (group 5 m))
       else d4, None)
  end end end end.

(** The loop inside [try: ... except Exception: pass]: the first
    conversion that raises ends the scan and [meta] keeps what it holds. *)
Fixpoint meta_loop (d : meta) (ms : list captures) : meta :=
  match ms with
  | [] => d
  | m :: rest =>
      match meta_step d m with
      | (d', None) => meta_loop d' rest
      | (d', Some _) => d'
      end
  end.

(** Lines 124-140 of [build_dataset], on the text of the output file,
    which the loop body has opened once already. *)
Definition parse_meta (txt : string) : meta :=
  meta_loop empty_meta (finditer META_RE txt).

(* ================================================================== *)
(** * train_krr_winrate.py: the dataset builder *)
(* ================================================================== *)

(** An entry of the results directory: the size [os.path.getsize] reports
    ([None] when it raises [OSError]) and the text [open(...)] reads
    ([None] when it raises [OSError], as on a subdirectory). *)
Record file : Type := mkFile {
  f_size : option N;
  f_text : option string
}.

Definition directory : Type := dict file.

Definition listdir (d : directory) : list string := keys d.

Definition getsize (d : directory) (name : string) : option N :=
  match dict_get d name with
  | Some f => f_size f
  | None => None
  end.

(** [open(os.path.join(d, name), 'r', encoding='utf-8', errors='ignore')]
    and the text read from it. *)
Definition read_text (d : directory) (name : string) : res string :=
  match dict_get d name with
  | Some f =>
      match f_text f with
      | Some text => Ok text
      | None => Raise OSError
      end
  | None => Raise OSError
  end.

(** One dataset row.  The columns moveTime, gamesPerMatchup, maxMoves,
    cpus and mem are the entries of [meta], kept together in
    [run_meta]. *)
Record row : Type := mkRow {
  job_base : string;
  game : name_cell;
  variant : option string;
  variant_select : string;
  variant_simulation : string;
  variant_backprop : string;
  variant_finalmove : string;
  wins : N;
  games : N;
  winrate : pyfloat;
  avgMoves : option pyfloat;
  run_meta : meta;
  game_props : dict cell     (* the columns named game_<col> *)
}.

(** The loop that groups the listing by base name:
    [bases.setdefault(base, {})[ext] = f]. *)
Definition add_file (bases : dict (dict string)) (f : string)
  : dict (dict string) :=
  if endswith f ".out" || endswith f ".err" then
    match rsplit_once "."%char f with
    | Some (base, ext) =>
        let inner := match dict_get bases base with
                     | Some d => d
                     | None => []
                     end in
        dict_set bases base (dict_set inner ext f)
    | None => bases
    end
  else bases.

Definition group_bases (files : list string) : dict (dict string) :=
  fold_left add_file files [].

(** [sorted(bases.items())]: the keys are distinct, so the order is the
    order of the base names. *)
Module BaseOrder <: TotalLeBool.
Definition t : Type := (string * dict string)%type.
Definition leb (x y : t) : bool := String.leb (fst x) (fst y).
Definition leb_total (x y : t) : leb x y = true \/ leb y x = true :=
  String.leb_total (fst x) (fst y).
End BaseOrder.
Module BaseSort := Sort BaseOrder.

(** Padding of the component list: [while len(parts) < 4: parts.append('')]. *)
Definition pad4 (parts : list string) : list string :=
  parts ++ repeat EmptyString (4 - List.length parts).

(** Lines 143-148: the four components of the parsed variant. *)
Definition variant_parts_build (v : option string) : list string :=
  let v := match v with
           | Some s => if is_empty s then EmptyString else s
           | None => EmptyString
           end in
  firstn 4 (pad4 (map strip (split "|"%char v))).

(** Lines 169-172: the property columns, renamed [game_<col>]. *)
Definition attach_props (props : dict cell) : dict cell :=
  fold_left
    (fun r cv =>
       let '(col, val) := cv in
       if String.eqb col "game" || String.eqb col "_norm" then r
       else dict_set r ("game_" ++ col)%string val)
    props [].

(** Line 160: [wins / games if games > 0 else np.nan].  The division
    raises [OverflowError] when the quotient is too large for a float. *)
Definition winrate_of (wins games : N) : res pyfloat :=
  if (0 <? games)%N
  then
    let q := inject_Z (Z.of_N wins) / inject_Z (Z.of_N games) in
    if Qle_bool float_overflow_bound q then Raise OverflowError
    else Ok (FNum q)
  else Ok FNaN.

(** Lines 89-98: the error artifact exists and its size is above zero. *)
Definition job_failed (results_dir : directory) (parts : dict string) : bool :=
  match dict_get parts "err" with
  | Some err_file =>
      negb (is_empty err_file) &&
      match getsize results_dir err_file with
      | Some n => (0 <? n)%N
      | None => false          (* OSError: pass *)
      end
  | None => false
  end.

(** The body of the loop over the sorted jobs: [Ok None] is [continue],
    [Ok (Some r)] is [rows.append(r)]. *)
Definition process_job (results_dir : directory) (games_df : table)
           (norm_to_game : dict name_cell)
           (base : string) (parts : dict string) : res (option row) :=
  let out_file := dict_get parts "out" in
  if job_failed results_dir parts then Ok None
  else
    match out_file with
    | None => Ok None
    | Some out =>
        if is_empty out then Ok None
        else
          text <- read_text results_dir out ;;
          parsed <- parse_out_file text ;;
          match p_game parsed, p_wins parsed, p_games parsed with
          | Some g, Some w, Some n =>
              if is_empty g then Ok None
              else
                match match_game_build norm_to_game g with
                | None => Ok None
                | Some mapped_game =>
                    match first_row_named games_df mapped_game with
                    | None => Raise IndexError
                    | Some rec =>
                        let props := props_dict rec in
                        let meta := parse_meta text in
                        let vp := variant_parts_build (p_variant parsed) in
                        wr <- winrate_of w n ;;
                        Ok (Some (mkRow base mapped_game (p_variant parsed)
                                        (nth 0 vp EmptyString)
                                        (nth 1 vp EmptyString)
                                        (nth 2 vp EmptyString)
                                        (nth 3 vp EmptyString)
                                        w n wr
                                        (p_avgMoves parsed)
                                        meta
                                        (attach_props props)))
                    end
                end
          | _, _, _ => Ok None
          end
    end.

Fixpoint build_rows (results_dir : directory) (games_df : table)
         (norm_to_game : dict name_cell)
         (jobs : list (string * dict string)) : res (list row) :=
  match jobs with
  | [] => Ok []
  | (base, parts) :: rest =>
      r <- process_job results_dir games_df norm_to_game base parts ;;
      rs <- build_rows results_dir games_df norm_to_game rest ;;
      Ok (match r with Some x => x :: rs | None => rs end)
  end.

(** [build_dataset(results_dir, game_props_path)], on the listing of the
    directory and the loaded property table. *)
Definition build_dataset (results_dir : directory) (games_df : table)
  : res (list row) :=
  let norm_to_game := norm_map_of games_df in
  let bases := group_bases (listdir results_dir) in
  build_rows results_dir games_df norm_to_game (BaseSort.sort bases).

(* ================================================================== *)
(** * The feature encoders (feature-name component) *)
(* ================================================================== *)

(** [sorted(...)] on strings. *)
Module StrOrder <: TotalLeBool.
Definition t : Type := string.
Definition leb (x y : t) : bool := String.leb x y.
Definition leb_total (x y : t) : leb x y = true \/ leb y x = true :=
  String.leb_total x y.
End StrOrder.
Module StrSort := Sort StrOrder.

Definition mem (x : string) (l : list string) : bool :=
  existsb (String.eqb x) l.

(** Distinct values in order of first appearance: [Series.unique()], and
    the elements of a [set] before they are sorted. *)
Fixpoint unique (l : list string) : list string :=
  match l with
  | [] => []
  | x :: xs => x :: filter (fun y => negb (String.eqb y x)) (unique xs)
  end.

(** [sorted(t for t in values if t)] over the distinct values. *)
Definition vocabulary (values : list string) : list string :=
  StrSort.sort (filter nonempty (unique values)).

Definition is_game_col (c : string) : bool := startswith c "game_".

(** ** train_krr_winrate.py: [prepare_features] *)

(** The keys of a row dictionary, in insertion order. *)
Definition base_keys : list string :=
  [ "job_base"; "game"; "variant"; "variant_select"; "variant_simulation";
    "variant_backprop"; "variant_finalmove"; "wins"; "games"; "winrate";
    "avgMoves"; "moveTime"; "gamesPerMatchup"; "maxMoves"; "cpus"; "mem" ].

Definition row_keys (r : row) : list string :=
  base_keys ++ keys (game_props r).

(** [pd.DataFrame(rows).columns]: the keys in order of first appearance. *)
Definition add_key (cols : list string) (k : string) : list string :=
  if mem k cols then cols else cols ++ [k].

Definition df_columns (rows : list row) : list string :=
  fold_left (fun cols r => fold_left add_key (row_keys r) cols) rows [].

(** The pattern of [str.split('\s*\|\s*')]. *)
Definition BAR_RE : re := seq [ Star is_space; Lit "|"; Star is_space ].

Definition variant_text (r : row) : string :=
  match variant r with
  | Some v => v
  | None => EmptyString     (* fillna('') *)
  end.

(** The feature names [prepare_features(df)] returns for the frame built
    from [rows].  The property cells are numbers or NaN, so
    [astype(float)] succeeds; an empty frame has no column [variant]. *)
Definition prepare_features_names (rows : list row) : res (list string) :=
  let num_cols := filter is_game_col (df_columns rows) in
  if mem "variant" (df_columns rows) then
    let tokens := map (fun r => re_split BAR_RE (variant_text r)) rows in
    let token_list := vocabulary (concat tokens) in
    Ok (num_cols ++ token_list)
  else Raise KeyError.

(** ** tune_krr_winrate.py: [build_feature_matrix] *)

(** A cell of the frame read back from [krr_dataset.csv]: text, a missing
    value, or a number together with the text [str] gives for it. *)
Inductive fcell : Type :=
| FText (s : string)
| FMissing
| FNumber (q : Q) (text : string).

(** The frame, column by column in file order. *)
Definition frame : Type := dict (list fcell).

Definition columns (df : frame) : list string := keys df.

(** [.fillna('').astype(str)] *)
Definition as_str (c : fcell) : string :=
  match c with
  | FText s => s
  | FMissing => EmptyString
  | FNumber _ text => text
  end.

Definition is_text (c : fcell) : bool :=
  match c with FText _ => true | _ => false end.

Definition comp_cols : list string :=
  [ "variant_select"; "variant_simulation"; "variant_backprop";
    "variant_finalmove" ].

(** The values of a component column as strings; no value when the
    column is absent ([if comp in df.columns]). *)
Definition observed (df : frame) (comp : string) : list string :=
  match dict_get df comp with
  | Some cells => map as_str cells
  | None => []
  end.

(** The names one pass of the loop over [comp_cols] appends. *)
Definition component_block (df : frame) (comp : string) : list string :=
  if mem comp (columns df) then
    let unique_sorted := vocabulary (observed df comp) in
    map (fun t => (comp ++ "=" ++ t)%string) unique_sorted
  else [].

(** [astype(float)] raises on a column that holds text. *)
Definition float_columns_ok (df : frame) (names : list string) : bool :=
  forallb (fun c =>
             match dict_get df c with
             | Some cells => negb (existsb is_text cells)
             | None => true
             end) names.

(** The feature names [build_feature_matrix(df)] returns. *)
Definition build_feature_names (df : frame) : res (list string) :=
  let num_cols := filter is_game_col (columns df) in
  if negb (float_columns_ok df num_cols) then Raise ValueError_astype
  else
    let token_list_all := flat_map (component_block df) comp_cols in
    if negb (mem "winrate" (columns df)) then Raise KeyError
    else if negb (float_columns_ok df ["winrate"]) then Raise ValueError_astype
    else Ok (num_cols ++ token_list_all).

(* ================================================================== *)
(** * tune_krr_winrate.py: [predict_winrate] *)
(* ================================================================== *)

(** What the call finds on disk: the fitted pipeline (its [predict] on one
    feature vector), the persisted feature names and the property table;
    [None] when the file is absent.  The pipeline and the feature names
    come from one tuning run, so the vector built below has the width the
    pipeline was fitted on. *)
Record artifacts : Type := mkArtifacts {
  OUT_MODEL : option (list Q -> Q);
  OUT_FEATURES : option (list string);
  GAME_PROPS : option table
}.

(** [col[len('game_'):]] *)
Definition drop_game_prefix (col : string) : string :=
  String.substring 5 (String.length col - 5) col.

(** [float(val)] inside [try: ... except Exception:]: 0.0 when the
    conversion raises. *)
Definition float_or_zero (val : res pyfloat) : pyfloat :=
  match val with
  | Ok v => v
  | Raise _ => FNum 0
  end.

(** [float(props.get(propname, 0))] inside [try/except]: 0.0 when the
    property is absent.  The entry [game] of the row is the cell of the
    game column and the entry [_norm] is its normalised name, a text. *)
Definition prop_float (props : game_record) (propname : string) : pyfloat :=
  if String.eqb propname "game" then
    match g_name props with
    | NText t => float_or_zero (float_of_text t)
    | NNumber q => FNum q
    | NInfinity negative => FInf negative
    | NMissing => FNaN
    end
  else if String.eqb propname "_norm"
  then float_or_zero (float_of_text (normalize_name (g_name props)))
  else
    match dict_get (props_dict props) propname with
    | Some (CNum q) => FNum q
    | Some (CInf negative) => FInf negative
    | Some CNaN => FNaN
    | None => FNum 0
    end.

Definition num_part (props : game_record) (feature_names : list string)
  : list pyfloat :=
  map (fun col => prop_float props (drop_game_prefix col))
      (filter is_game_col feature_names).

(** Lines 175-177: the stripped tokens, padded to at least four. *)
Definition query_parts (variant : string) : list string :=
  pad4 (map strip (split "|"%char variant)).

(** Lines 178-183. *)
Definition variant_by_comp (parts : list string) : dict string :=
  [ ("variant_select", nth 0 parts EmptyString);
    ("variant_simulation", nth 1 parts EmptyString);
    ("variant_backprop", nth 2 parts EmptyString);
    ("variant_finalmove", nth 3 parts EmptyString) ].

(** [variant_by_comp.get(comp, '')] *)
Definition comp_value (parts : list string) (comp : string) : string :=
  match dict_get (variant_by_comp parts) comp with
  | Some v => v
  | None => EmptyString
  end.

(** One pass of the loop over [token_names] (lines 185-191). *)
Definition token_feature (parts : list string) (feature : string) : pyfloat :=
  match split_once "="%char feature with
  | Some (comp, val) =>
      if String.eqb (comp_value parts comp) val then FNum 1 else FNum 0
  | None =>
      (* older artifacts with plain token names *)
      if mem feature (filter nonempty parts) then FNum 1 else FNum 0
  end.

Definition token_names (feature_names : list string) : list string :=
  filter (fun fn => negb (is_game_col fn)) feature_names.

Definition token_part (parts : list string) (feature_names : list string)
  : list pyfloat :=
  map (token_feature parts) (token_names feature_names).

(** [np.nan_to_num(x, nan=0.0, posinf=0.0, neginf=0.0)] *)
Definition nan_to_num (v : pyfloat) : Q :=
  match v with
  | FNum q => q
  | FInf _ => 0
  | FNaN => 0
  end.

(** The feature vector handed to the pipeline. *)
Definition query_vector (props : game_record) (feature_names : list string)
           (variant : string) : list Q :=
  map nan_to_num
      (num_part props feature_names
         ++ token_part (query_parts variant) feature_names).

(** [np.clip(pred, 0.0, 1.0)] *)
Definition clip01 (pred : Q) : Q := Qmin (Qmax pred 0) 1.

Definition predict_winrate (disk : artifacts) (game_name variant : string)
  : res Q :=
  match OUT_MODEL disk, OUT_FEATURES disk with
  | Some model, Some feature_names =>
      match GAME_PROPS disk with
      | None => Raise FileNotFoundError_props
      | Some games_df =>
          let norm_map := norm_map_of games_df in
          match match_game_predict norm_map game_name with
          | None => Raise ValueError_game
          | Some mapped =>
              match first_row_named games_df mapped with
              | None => Raise IndexError
              | Some props =>
                  let x := query_vector props feature_names variant in
                  let pred := model x in
                  Ok (clip01 pred)
              end
          end
      end
  | _, _ => Raise FileNotFoundError_model
  end.

(* ================================================================== *)
(** * Sample inputs *)
(* ================================================================== *)

Definition text_of_lines (ls : list string) : string :=
  join (String newline EmptyString) ls.

(** The log of a finished job. *)
Definition log_hex : string :=
  text_of_lines
    [ "Game: Hex";
      "Variant: UCB1|Random|Average|Robust";
      "completed=100/100, wins=55, losses=43, draws=2, failures=0, avgMoves=24.5" ].

(** The log of a job none of whose games completed. *)
Definition log_no_games : string :=
  text_of_lines
    [ "Game: Hex";
      "Variant: UCB1|Random";
      "completed=0/100, wins=0, losses=0, draws=0, failures=100, avgMoves=0.0" ].

(** A log in which every kind of line occurs twice. *)
Definition log_repeated : string :=
  text_of_lines
    [ "Game: Hex";
      "Variant: UCB1|Random";
      "completed=10/10, wins=5, losses=5, draws=0, failures=0, avgMoves=20.0";
      "Game: Chess";
      "Variant: Greedy";
      "completed=4/10, wins=1, losses=3, draws=0, failures=6, avgMoves=7.5" ].

Definition hex_table : table :=
  [ mkGame (NText "Hex") [("numPlayers", CNum 2)] ].

(** Job A finished cleanly; job B left a non-empty error artifact. *)
Definition dir_A_B : directory :=
  [ ("A.out", mkFile (Some 120%N) (Some log_hex));
    ("A.err", mkFile (Some 0%N) (Some EmptyString));
    ("B.out", mkFile (Some 120%N) (Some log_hex));
    ("B.err", mkFile (Some 17%N) (Some "Traceback")) ].

(** One job, with no completed game. *)
Definition dir_Z : directory :=
  [ ("Z.out", mkFile (Some 96%N) (Some log_no_games)) ].

(* ================================================================== *)
(** * Notions used in the statements *)
(* ================================================================== *)

(** [sep] does not occur in [s]. *)
Definition free_of (sep : ascii) (s : string) : Prop := count_char sep s = 0%nat.


(** The values of [variant_by_comp], in the order of the components. *)
Definition query_components (variant : string) : list string :=
  map snd (variant_by_comp (query_parts variant)).

(** The grouping of the listing: every stored name splits into its base
    and its extension, and the base names are distinct. *)
Definition bases_wf (bases : dict (dict string)) : Prop :=
  NoDup (keys bases)
  /\ forall b parts ext f,
       dict_get bases b = Some parts -> dict_get parts ext = Some f ->
       rsplit_once "."%char f = Some (b, ext).

(** The listing grouped so far has a file with extension [ext] for the
    base [b]. *)
Definition has_part (bases : dict (dict string)) (b ext : string) : Prop :=
  exists parts f, dict_get bases b = Some parts /\ dict_get parts ext = Some f.

(** The three tests of the loop body, in the order the loop tries them: a
    line counts for the variant only when the game pattern does not match
    it, and for the summary only when neither of the others does. *)
Definition game_line (raw : string) : option string :=
  let line := strip raw in
  if is_empty line then None
  else option_map (fun gm => strip (group 1 gm)) (re_match true GAME_RE line).

Definition variant_line (raw : string) : option string :=
  let line := strip raw in
  if is_empty line then None
  else
    match re_match true GAME_RE line with
    | Some _ => None
    | None =>
        option_map (fun vm => strip (group 1 vm))
                   (re_match true VARIANT_RE line)
    end.

Definition completed_line (raw : string) : option captures :=
  let line := strip raw in
  if is_empty line then None
  else
    match re_match true GAME_RE line with
    | Some _ => None
    | None =>
        match re_match true VARIANT_RE line with
        | Some _ => None
        | None => re_search false COMPLETED_RE line
        end
    end.

(** The fields a summary line assigns. *)
Definition summary_assigned (cm : captures) (d : parsed) : Prop :=
  p_wins d = Some (digits_value (group 3 cm))
  /\ p_games d = Some (digits_value (group 1 cm))
  /\ exists a, float_of_decimal (group 7 cm) = Ok a /\ p_avgMoves d = Some a.

(** The four conversions the loop body makes on a summary line, in its
    order: completed, expected total, wins, average. *)
Definition summary_values (cm : captures) : res (N * N * N * pyfloat) :=
  completed <- int_of_digits (group 1 cm) ;;
  total_expected <- int_of_digits (group 2 cm) ;;
  wins <- int_of_digits (group 3 cm) ;;
  avg_moves <- float_of_decimal (group 7 cm) ;;
  Ok (completed, total_expected, wins, avg_moves).

(** A summary whose three counts [int] accepts and whose average [float]
    accepts. *)
Definition summary_readable (cm : captures) : Prop :=
  (exists n, int_of_digits (group 1 cm) = Ok n)
  /\ (exists n, int_of_digits (group 2 cm) = Ok n)
  /\ (exists n, int_of_digits (group 3 cm) = Ok n)
  /\ exists a, float_of_decimal (group 7 cm) = Ok a.

(** What makes the loop body of [build_dataset] raise on the output log
    [out] of a job it does not skip: the log cannot be opened; the parser
    raises; or the log gives a game and both counts, and the game
    resolves to a blank cell of the table, which the row lookup does not
    find, or resolves and the quotient of the counts is too large for a
    float. *)
Definition log_aborts (results_dir : directory) (games_df : table)
           (out : string) : Prop :=
  read_text results_dir out = Raise OSError
  \/ (exists text e,
        read_text results_dir out = Ok text
        /\ parse_out_file text = Raise e)
  \/ exists text parsed g w n mapped,
       read_text results_dir out = Ok text
       /\ parse_out_file text = Ok parsed
       /\ p_game parsed = Some g /\ g <> ""
       /\ p_wins parsed = Some w /\ p_games parsed = Some n
       /\ match_game_build (norm_map_of games_df) g = Some mapped
       /\ (mapped = NMissing
           \/ (0 < n)%N
              /\ float_overflow_bound
                 <= inject_Z (Z.of_N w) / inject_Z (Z.of_N n)).

(** The errors that leave [build_dataset]: the [OSError] of [open], the
    [ValueError] of [int] and of [float], the [IndexError] of the row
    lookup and the [OverflowError] of the division. *)
Definition build_error (e : exn) : Prop :=
  e = OSError \/ e = ValueError_int \/ e = ValueError_float
  \/ e = IndexError \/ e = OverflowError.

(** The order of [sorted] on strings, strict. *)
Definition str_lt (a b : string) : Prop := String.ltb a b = true.

(** [block] is the one-hot block of [comp]: the names [comp=v] for [v]
    over the distinct non-empty members of [values], in increasing order. *)
Definition one_hot_block (comp : string) (values block : list string) : Prop :=
  exists vocab,
    block = map (fun v => (comp ++ "=" ++ v)%string) vocab
    /\ StronglySorted str_lt vocab
    /\ forall v, In v vocab <-> v <> "" /\ In v values.

(** [names] is [num_cols] followed by the blocks of the four components. *)
Definition four_block_schema (num_cols sel sim back fin names : list string)
  : Prop :=
  exists b1 b2 b3 b4,
    names = num_cols ++ b1 ++ b2 ++ b3 ++ b4
    /\ one_hot_block "variant_select" sel b1
    /\ one_hot_block "variant_simulation" sim b2
    /\ one_hot_block "variant_backprop" back b3
    /\ one_hot_block "variant_finalmove" fin b4.

(* ================================================================== *)
(** * train_krr_winrate.py: [main] up to the call of the trainer *)
(* ================================================================== *)

(** How a run of [main] ends before [train_and_evaluate]: a [SystemExit]
    with its message, an exception nobody catches, or the data handed to
    the trainer. *)
Inductive run (A : Type) : Type :=
| SystemExit (msg : string)
| Uncaught (e : exn)
| Reached (a : A).
Arguments SystemExit {A} msg.
Arguments Uncaught {A} e.
Arguments Reached {A} a.

(** [df.empty] *)
Definition df_empty (rows : list row) : bool :=
  match rows with [] => true | _ => false end.

(** Lines 226-235: [None] stands for a results directory or a property
    file that does not exist. *)
Definition train_main (results_dir : option directory)
           (game_props_file : option table) : run (list row * list string) :=
  match results_dir with
  | None => SystemExit "Results dir not found"
  | Some d =>
      match game_props_file with
      | None => SystemExit "Game properties file not found"
      | Some games_df =>
          match build_dataset d games_df with
          | Raise e => Uncaught e
          | Ok df =>
              if df_empty df
              then SystemExit "No usable data parsed from results"
              else
                match prepare_features_names df with
                | Raise e => Uncaught e
                | Ok feature_names => Reached (df, feature_names)
                end
          end
      end
  end.

(* ================================================================== *)
(** * tune_krr_winrate.py: the rows of the training matrix *)
(* ================================================================== *)

(** [l.index(v)] for a member of [l]. *)
Fixpoint index_of (v : string) (l : list string) : nat :=
  match l with
  | [] => 0
  | x :: xs => if String.eqb x v then 0 else S (index_of v xs)
  end.

(** [row[n] = x] *)
Fixpoint set_at (n : nat) (x : Q) (l : list Q) {struct l} : list Q :=
  match l, n with
  | [], _ => []
  | _ :: t, O => x :: t
  | h :: t, S n' => h :: set_at n' x t
  end.

(** Row [i] of [mat] (lines 61-64): zeros, and a one at the index of the
    value when it is non-empty and in the vocabulary. *)
Definition one_hot_row (unique_sorted : list string) (v : string) : list Q :=
  let zeros := repeat 0 (List.length unique_sorted) in
  if nonempty v && mem v unique_sorted
  then set_at (index_of v unique_sorted) 1 zeros
  else zeros.

(** Row [i] of [X_tokens]: the rows of the matrices of the components
    present, side by side. *)
Definition token_row (df : frame) (i : nat) : list Q :=
  flat_map
    (fun comp =>
       if mem comp (columns df)
       then one_hot_row (vocabulary (observed df comp))
                        (nth i (observed df comp) EmptyString)
       else [])
    comp_cols.

(** Row [i] of [X_num]: [astype(float).fillna(0)] on the property
    columns. *)
Definition num_row (df : frame) (i : nat) : list Q :=
  map (fun c =>
         match dict_get df c with
         | Some cells =>
             match nth i cells FMissing with
             | FNumber q _ => q
             | _ => 0
             end
         | None => 0
         end)
      (filter is_game_col (columns df)).

(** Row [i] of [X = np.hstack([X_num, X_tokens])]. *)
Definition feature_row (df : frame) (i : nat) : list Q :=
  num_row df i ++ token_row df i.

(* ================================================================== *)
(** * Further notions used in the statements *)
(* ================================================================== *)

(** The last pair of [ps] whose key is [k]. *)
Fixpoint last_value {V : Type} (ps : list (string * V)) (k : string)
  : option V :=
  match ps with
  | [] => None
  | (k', v) :: rest =>
      match last_value rest k with
      | Some v' => Some v'
      | None => if String.eqb k' k then Some v else None
      end
  end.

(** The number of entries equal to one. *)
Definition ones (l : list pyfloat) : nat :=
  List.length
    (filter (fun x => match x with FNum q => Qeq_bool q 1 | _ => false end) l).

(** The text of group [n] in the last match in which the group took
    part. *)
Fixpoint last_group (n : nat) (ms : list captures) : option string :=
  match ms with
  | [] => None
  | m :: rest =>
      match last_group n rest with
      | Some s => Some s
      | None => if nonempty (group n m) then Some (group n m) else None
      end
  end.

(** A match whose [moveTime] text, if any, is a decimal literal, and
    whose count, if any, has no more digits than [int] accepts. *)
Definition moveTime_readable (m : captures) : Prop :=
  nonempty (group 1 m) = true -> exists t, float_of_decimal (group 1 m) = Ok t.

Definition counts_readable (m : captures) : Prop :=
  forall i, In i [2; 3; 4]%nat -> nonempty (group i m) = true ->
            exists n, int_of_digits (group i m) = Ok n.

Definition meta_readable (m : captures) : Prop :=
  moveTime_readable m /\ counts_readable m.

(** The text of a summary: six counts, an average, and the whitespace
    after each comma. *)
Definition summary_text (d1 d2 d3 d4 d5 d6 avg w1 w2 w3 w4 w5 : string)
  : string :=
  ("completed=" ++ d1 ++ "/" ++ d2 ++ "," ++ w1
   ++ "wins=" ++ d3 ++ "," ++ w2
   ++ "losses=" ++ d4 ++ "," ++ w3
   ++ "draws=" ++ d5 ++ "," ++ w4
   ++ "failures=" ++ d6 ++ "," ++ w5
   ++ "avgMoves=" ++ avg)%string.

Definition digits (d : string) : Prop :=
  all_chars is_digit d = true /\ d <> "".

Definition spaces (w : string) : Prop := all_chars is_space w = true.

(* ================================================================== *)
(** * Proof automation *)
(* ================================================================== *)

(** Splitting of hypotheses and closing of the cases of a statement about
    which call raises what. *)
Ltac break_hyps :=
  repeat match goal with
         | H : _ /\ _ |- _ => destruct H
         | H : _ \/ _ |- _ => destruct H
         | H : exists _, _ |- _ => destruct H
         | H : Some ?a = Some ?b |- _ => injection H as H; try subst
         end.

Ltac close_case :=
  solve [ discriminate | congruence | reflexivity
        | eexists; reflexivity
        | eexists; split; [reflexivity | congruence]
        | left; close_case | right; close_case ].

Ltac cases_of_raise :=
  repeat split; intros; break_hyps; close_case.

(** Case analysis on the scrutinee of a [match] in a hypothesis. *)
Ltac break_match :=
  match goal with
  | H : context [match ?x with _ => _ end] |- _ =>
      destruct x eqn:?; try discriminate
  end.

(* ================================================================== *)
(** * Properties *)
(* ================================================================== *)

(** ** Strings *)

Lemma append_empty_r (s : string) : (s ++ "")%string = s.
Proof. induction s as [|c s IH]; simpl; [reflexivity | now rewrite IH]. Qed.

Lemma append_assoc (a b c : string) :
  ((a ++ b) ++ c)%string = (a ++ (b ++ c))%string.
Proof. induction a as [|x a IH]; simpl; [reflexivity | now rewrite IH]. Qed.

Lemma str_rev_onto_app (a b acc : string) :
  str_rev_onto (a ++ b) acc = str_rev_onto b (str_rev_onto a acc).
Proof.
  revert acc. induction a as [|c a IH]; intros acc; simpl; [reflexivity|].
  apply IH.
Qed.

Lemma prefix_empty (s : string) : String.prefix "" s = true.
Proof. destruct s; reflexivity. Qed.

Lemma free_of_cons (sep c : ascii) (s : string) :
  free_of sep (String c s) -> Ascii.eqb c sep = false /\ free_of sep s.
Proof.
  unfold free_of; simpl. destruct (Ascii.eqb c sep); simpl; intros H.
  - discriminate.
  - now split.
Qed.

Lemma split_free (sep : ascii) (s : string) :
  free_of sep s -> split sep s = [s].
Proof.
  induction s as [|c s IH]; intros H; simpl; [reflexivity|].
  apply free_of_cons in H as [Hc Hs]. rewrite Hc, (IH Hs). reflexivity.
Qed.




(** ** The four variant components *)

Lemma pad4_length (l : list string) : (4 <= List.length (pad4 l))%nat.
Proof. unfold pad4. rewrite length_app, repeat_length. lia. Qed.

Lemma firstn_pad4_length (l : list string) :
  List.length (firstn 4 (pad4 l)) = 4%nat.
Proof. rewrite length_firstn. pose proof (pad4_length l). lia. Qed.

Lemma variant_parts_build_length (v : option string) :
  List.length (variant_parts_build v) = 4%nat.
Proof. unfold variant_parts_build. apply firstn_pad4_length. Qed.

Lemma query_components_firstn (variant : string) :
  query_components variant
  = firstn 4 (pad4 (map strip (split "|"%char variant))).
Proof.
  unfold query_components, query_parts, variant_by_comp.
  pose proof (pad4_length (map strip (split "|"%char variant))) as H.
  destruct (pad4 (map strip (split "|"%char variant)))
    as [|a [|b [|c [|d l]]]]; simpl in H; try lia.
  reflexivity.
Qed.






(** ** Dictionaries *)

Lemma dict_get_In {V : Type} (d : dict V) (k : string) (v : V) :
  dict_get d k = Some v -> In (k, v) d.
Proof.
  induction d as [|[k' v'] d IH]; simpl; [discriminate|].
  destruct (String.eqb_spec k' k) as [->|_]; intros H.
  - injection H as ->. now left.
  - right. now apply IH.
Qed.

Lemma dict_get_of_key {V : Type} (d : dict V) (k : string) :
  In k (keys d) -> exists v, dict_get d k = Some v.
Proof.
  induction d as [|[k' v'] d IH]; simpl; [contradiction|].
  intros [->|H].
  - rewrite String.eqb_refl. now exists v'.
  - destruct (String.eqb k' k); [now exists v' | now apply IH].
Qed.

Lemma dict_get_None_keys {V : Type} (d : dict V) (k : string) :
  dict_get d k = None -> ~ In k (keys d).
Proof.
  intros H Hin. apply dict_get_of_key in Hin as [v Hv]. congruence.
Qed.

Lemma dict_get_set_same {V : Type} (d : dict V) (k : string) (v : V) :
  dict_get (dict_set d k v) k = Some v.
Proof.
  induction d as [|[k' v'] d IH]; simpl.
  - now rewrite String.eqb_refl.
  - destruct (String.eqb_spec k' k) as [->|Hne]; simpl.
    + now rewrite String.eqb_refl.
    + apply String.eqb_neq in Hne. now rewrite Hne.
Qed.

Lemma dict_get_set_other {V : Type} (d : dict V) (k k0 : string) (v : V) :
  k <> k0 -> dict_get (dict_set d k v) k0 = dict_get d k0.
Proof.
  intros Hne. induction d as [|[k' v'] d IH]; simpl.
  - apply String.eqb_neq in Hne. now rewrite Hne.
  - destruct (String.eqb_spec k' k) as [->|Hk]; simpl.
    + apply String.eqb_neq in Hne. now rewrite Hne.
    + now rewrite IH.
Qed.

Lemma dict_set_In {V : Type} (d : dict V) (k k0 : string) (v v0 : V) :
  In (k0, v0) (dict_set d k v) -> (k0, v0) = (k, v) \/ In (k0, v0) d.
Proof.
  induction d as [|[k' v'] d IH]; simpl.
  - intros [H|[]]. now left.
  - destruct (String.eqb_spec k' k) as [->|Hk]; simpl.
    + intros [H|H]; [now left | now right; right].
    + intros [H|H]; [now right; left|].
      destruct (IH H) as [E|E]; [now left | now right; right].
Qed.

Lemma dict_set_keys {V : Type} (d : dict V) (k : string) (v : V) :
  keys (dict_set d k v) = if mem k (keys d) then keys d else keys d ++ [k].
Proof.
  unfold keys, mem. induction d as [|[k' v'] d IH]; simpl; [reflexivity|].
  rewrite (String.eqb_sym k k').
  destruct (String.eqb k' k); simpl; [reflexivity|].
  rewrite IH. now destruct (existsb (String.eqb k) (map fst d)).
Qed.

Lemma mem_true_iff (x : string) (l : list string) : mem x l = true <-> In x l.
Proof.
  unfold mem. rewrite existsb_exists. split.
  - intros (y & Hy & E). apply String.eqb_eq in E. now subst.
  - intros H. exists x. split; [assumption | apply String.eqb_refl].
Qed.

Lemma mem_false_iff (x : string) (l : list string) :
  mem x l = false <-> ~ In x l.
Proof.
  rewrite <- mem_true_iff. destruct (mem x l); split; congruence.
Qed.

Lemma dict_set_NoDup {V : Type} (d : dict V) (k : string) (v : V) :
  NoDup (keys d) -> NoDup (keys (dict_set d k v)).
Proof.
  intros H. rewrite dict_set_keys. destruct (mem k (keys d)) eqn:E.
  - exact H.
  - apply mem_false_iff in E. apply NoDup_app; [exact H | | ].
    + constructor; [intros [] | constructor].
    + intros x Hx [<-|[]]. now apply E.
Qed.

Lemma dict_set_nonempty {V : Type} (d : dict V) (k : string) (v : V) :
  dict_set d k v <> [].
Proof. destruct d as [|[k' v'] d]; simpl; [|destruct (String.eqb k' k)]; discriminate. Qed.

Lemma NoDup_keys_get {V : Type} (d : dict V) (k : string) (v : V) :
  NoDup (keys d) -> In (k, v) d -> dict_get d k = Some v.
Proof.
  induction d as [|[k' v'] d IH]; simpl; [contradiction|].
  intros Hnd [E|Hin].
  - injection E as -> ->. now rewrite String.eqb_refl.
  - inversion Hnd as [|? ? Hnot Hnd']; subst.
    destruct (String.eqb_spec k' k) as [->|_].
    + exfalso. apply Hnot. change k with (fst (k, v)). now apply in_map.
    + now apply IH.
Qed.

(** Every entry of [dict(pairs)] is one of the pairs. *)
Lemma dict_of_pairs_In {V : Type} (ps : list (string * V)) (k : string) (v : V) :
  In (k, v) (dict_of_pairs ps) -> In (k, v) ps.
Proof.
  unfold dict_of_pairs.
  assert (G : forall d, In (k, v)
                (fold_left (fun d kv => dict_set d (fst kv) (snd kv)) ps d) ->
              In (k, v) d \/ In (k, v) ps).
  { induction ps as [|[k' v'] ps IH]; intros d H; simpl in *; [now left|].
    destruct (IH _ H) as [H1|H1]; [|now right; right].
    apply dict_set_In in H1 as [E|H1]; [right; left; now symmetry | now left]. }
  intros H. destruct (G [] H) as [[]|H']. exact H'.
Qed.

Lemma dict_of_pairs_nonempty {V : Type} (ps : list (string * V)) :
  ps <> [] -> dict_of_pairs ps <> [].
Proof.
  unfold dict_of_pairs.
  assert (G : forall (l : list (string * V)) d, d <> [] ->
              fold_left (fun d kv => dict_set d (fst kv) (snd kv)) l d <> []).
  { induction l as [|kv l IH]; intros d Hd; simpl; [exact Hd|].
    apply IH, dict_set_nonempty. }
  destruct ps as [|kv ps]; [congruence|]. intros _. simpl.
  apply G. discriminate.
Qed.

(** ** The name matcher *)

Lemma fuzzy_scan_In {V : Type} (d : dict V) (norm : string) (g : V) :
  fuzzy_scan d norm = Some g -> exists n, In (n, g) d.
Proof.
  induction d as [|[n' g'] d IH]; simpl; [discriminate|].
  destruct (fuzzy_hit n' norm).
  - intros H. injection H as ->. exists n'. now left.
  - intros H. destruct (IH H) as [n Hn]. exists n. now right.
Qed.

Lemma match_game_predict_In (d : dict name_cell) (q : string)
      (g : name_cell) :
  match_game_predict d q = Some g -> exists n, In (n, g) d.
Proof.
  unfold match_game_predict.
  destruct (dict_get d (normalize_name (NText q))) as [m|] eqn:E.
  - intros H. injection H as ->. eexists. apply dict_get_In, E.
  - apply fuzzy_scan_In.
Qed.

Lemma norm_map_entry (games_df : table) (n : string) (g : name_cell) :
  In (n, g) (norm_map_of games_df) ->
  n = normalize_name g /\ exists rec, In rec games_df /\ g_name rec = g.
Proof.
  unfold norm_map_of. intros H. apply dict_of_pairs_In in H.
  apply in_map_iff in H as (rec & E & Hin). injection E as <- <-.
  split; [reflexivity | now exists rec].
Qed.

Lemma name_eqb_refl (g : name_cell) : g <> NMissing -> name_eqb g g = true.
Proof.
  destruct g as [t|q|b|]; simpl; intros H.
  - apply String.eqb_refl.
  - apply Qeq_bool_iff. reflexivity.
  - apply Bool.eqb_reflx.
  - congruence.
Qed.

Lemma name_eqb_missing (a : name_cell) : name_eqb a NMissing = false.
Proof. now destruct a. Qed.

Lemma name_eqb_same (a b : name_cell) :
  name_eqb a b = true <-> same_name a b.
Proof.
  destruct a as [s|p|a|], b as [t|q|b|]; simpl;
    try (split; [discriminate | contradiction]).
  - apply String.eqb_eq.
  - apply Qeq_bool_iff.
  - apply Bool.eqb_true_iff.
Qed.

(** The lookup of a name of the table finds a row, unless the name is
    NaN, which no comparison finds. *)
Lemma first_row_named_some (games_df : table) (g : name_cell) :
  g <> NMissing ->
  (exists rec, In rec games_df /\ g_name rec = g) ->
  exists rec, first_row_named games_df g = Some rec.
Proof.
  intros Hg (rec & Hin & E). unfold first_row_named.
  destruct (find (fun r => name_eqb (g_name r) g) games_df) as [r|] eqn:F.
  - now exists r.
  - exfalso. pose proof (find_none _ _ F rec Hin) as H. simpl in H.
    rewrite E, name_eqb_refl in H by exact Hg. discriminate.
Qed.

Lemma first_row_named_missing (games_df : table) :
  first_row_named games_df NMissing = None.
Proof.
  unfold first_row_named. induction games_df as [|g rest IH]; simpl.
  - reflexivity.
  - now rewrite name_eqb_missing.
Qed.

(** The lookup of a name the matcher returned fails exactly when that
    name is NaN. *)
Lemma first_row_named_of_map (games_df : table) (n : string)
      (g : name_cell) :
  In (n, g) (norm_map_of games_df) ->
  first_row_named games_df g = None <-> g = NMissing.
Proof.
  intros Hin. destruct (norm_map_entry _ _ _ Hin) as [_ Hrow]. split.
  - intros F. destruct g as [t|q|b|]; [..|reflexivity];
      (edestruct (first_row_named_some games_df) as [r R];
       [| exact Hrow | congruence]; discriminate).
  - intros ->. apply first_row_named_missing.
Qed.

(** C7. When the normalised query is a key of the mapping, both matchers
    return the name stored under that key, whatever entries the fuzzy scan
    would accept. *)
Theorem exact_match_is_returned :
  forall (mapping : dict name_cell) (query : string),
    In (normalize_name (NText query)) (keys mapping) ->
    exists canonical,
      dict_get mapping (normalize_name (NText query)) = Some canonical
      /\ In (normalize_name (NText query), canonical) mapping
      /\ match_game_build mapping query = Some canonical
      /\ match_game_predict mapping query = Some canonical.
Proof.
  intros mapping query Hkey.
  destruct (dict_get_of_key mapping _ Hkey) as [g Hg].
  exists g. unfold match_game_build, match_game_predict. rewrite Hg.
  repeat split; try reflexivity. now apply dict_get_In.
Qed.

(** The mapping lists the fuzzy candidate "hexagon" before the exact key
    "hex"; the query "Hex" still resolves to "Hex". *)
Lemma exact_match_is_returned_witness :
  fuzzy_scan [("hexagon", NText "Hexagon"); ("hex", NText "Hex")]
             (normalize_name (NText "Hex"))
  = Some (NText "Hexagon")
  /\ match_game_build [("hexagon", NText "Hexagon"); ("hex", NText "Hex")]
                      "Hex"
     = Some (NText "Hex")
  /\ match_game_predict [("hexagon", NText "Hexagon"); ("hex", NText "Hex")]
                        "Hex"
     = Some (NText "Hex").
Proof.
  split; [reflexivity|].
  destruct (exact_match_is_returned
              [("hexagon", NText "Hexagon"); ("hex", NText "Hex")] "Hex")
    as (g & Hg & _ & Hb & Hp).
  - simpl. right. left. reflexivity.
  - assert (E : g = NText "Hex") by (vm_compute in Hg; congruence).
    rewrite E in Hb, Hp. split; assumption.
Defined.

(** C10. A query whose normalised form is empty, against a non-empty table
    whose mapping has no empty key, resolves to the name of the first entry
    of the mapping in both matchers, and the prediction call does not fail
    for want of a match. *)
Theorem empty_query_matches_first_entry :
  forall (games_df : table) (query : string),
    normalize_name (NText query) = "" ->
    games_df <> [] ->
    dict_get (norm_map_of games_df) "" = None ->
    exists n g rest,
      norm_map_of games_df = (n, g) :: rest
      /\ fuzzy_hit n "" = true
      /\ match_game_predict (norm_map_of games_df) query = Some g
      /\ match_game_build (norm_map_of games_df) query = Some g
      /\ forall model feature_names variant,
           exists r,
             predict_winrate
               (mkArtifacts (Some model) (Some feature_names) (Some games_df))
               query variant = Ok r.
Proof.
  intros games_df query Hq Hne Hnokey.
  destruct (norm_map_of games_df) as [|[n g] rest] eqn:E.
  - exfalso. revert E. unfold norm_map_of. apply dict_of_pairs_nonempty.
    destruct games_df; [congruence | discriminate].
  - assert (Hhit : fuzzy_hit n "" = true).
    { unfold fuzzy_hit, startswith. rewrite prefix_empty.
      now rewrite orb_true_r. }
    assert (Hin : In (n, g) (norm_map_of games_df)) by (rewrite E; now left).
    destruct (norm_map_entry _ _ _ Hin) as [Hn Hrow].
    assert (Hkey : n <> "").
    { intros ->. simpl in Hnokey. discriminate. }
    assert (Hg : truthy g = true /\ g <> NMissing).
    { destruct g as [t|q|b|]; simpl in Hn; try congruence.
      split; [|discriminate].
      destruct t; [simpl in Hn; congruence | reflexivity]. }
    destruct Hg as [Hg Hgm].
    assert (Hp : match_game_predict ((n, g) :: rest) query = Some g).
    { unfold match_game_predict. rewrite Hq, Hnokey. simpl. now rewrite Hhit. }
    exists n, g, rest. repeat split; try assumption.
    + unfold match_game_build. rewrite Hq, Hnokey. simpl.
      now rewrite Hhit, Hg.
    + intros model feature_names variant. unfold predict_winrate. simpl.
      rewrite E, Hp.
      destruct (first_row_named_some games_df g Hgm Hrow) as [rec ->].
      eexists. reflexivity.
Qed.

Lemma empty_query_matches_first_entry_witness :
  match_game_predict
    (norm_map_of [mkGame (NText "Hex") []; mkGame (NText "Chess") []]) "?? !"
  = Some (NText "Hex")
  /\ match_game_build
       (norm_map_of [mkGame (NText "Hex") []; mkGame (NText "Chess") []])
       "?? !"
     = Some (NText "Hex").
Proof.
  destruct (empty_query_matches_first_entry
              [mkGame (NText "Hex") []; mkGame (NText "Chess") []] "?? !")
    as (n & g & rest & E & _ & Hp & Hb & _).
  - reflexivity.
  - discriminate.
  - reflexivity.
  - assert (Eg : g = NText "Hex") by (vm_compute in E; congruence).
    rewrite Eg in Hp, Hb. split; assumption.
Defined.

(** ** The prediction entry point *)

Lemma clip01_range (pred : Q) : 0 <= clip01 pred /\ clip01 pred <= 1.
Proof.
  unfold clip01. split.
  - apply Q.min_glb; [apply Q.le_max_r | discriminate].
  - apply Q.le_min_r.
Qed.

(** C8. A call that returns gives a value in the closed interval from 0
    to 1, whatever the pipeline computed. *)
Theorem prediction_within_unit_interval :
  forall (disk : artifacts) (game_name variant : string) (r : Q),
    predict_winrate disk game_name variant = Ok r ->
    0 <= r /\ r <= 1.
Proof.
  intros disk game_name variant r. unfold predict_winrate.
  destruct (OUT_MODEL disk) as [model|]; [|discriminate].
  destruct (OUT_FEATURES disk) as [feature_names|]; [|discriminate].
  destruct (GAME_PROPS disk) as [games_df|]; [|discriminate].
  destruct (match_game_predict _ _) as [mapped|]; [|discriminate].
  destruct (first_row_named _ _) as [props|]; [|discriminate].
  intros H. injection H as <-. apply clip01_range.
Qed.

(** A pipeline whose raw output is 3/2, and one whose output is -1/4. *)
Lemma prediction_within_unit_interval_witness :
  predict_winrate
    (mkArtifacts (Some (fun _ => 3 # 2)) (Some ["game_n"; "variant_select=UCB1"])
                 (Some [mkGame (NText "Hex") [("n", CNum 2)]]))
    "hex" "UCB1|Random" = Ok (Qmin (Qmax (3 # 2) 0) 1)
  /\ 0 <= Qmin (Qmax (3 # 2) 0) 1 /\ Qmin (Qmax (3 # 2) 0) 1 <= 1.
Proof.
  split; [reflexivity|].
  apply (prediction_within_unit_interval
           (mkArtifacts (Some (fun _ => 3 # 2))
                        (Some ["game_n"; "variant_select=UCB1"])
                        (Some [mkGame (NText "Hex") [("n", CNum 2)]]))
           "hex" "UCB1|Random").
  reflexivity.
Defined.

Lemma predict_returns_when_resolved
      (model : list Q -> Q) (feature_names : list string) (games_df : table)
      (game_name variant : string) (mapped : name_cell) :
  match_game_predict (norm_map_of games_df) game_name = Some mapped ->
  mapped <> NMissing ->
  exists r,
    predict_winrate
      (mkArtifacts (Some model) (Some feature_names) (Some games_df))
      game_name variant = Ok r.
Proof.
  intros M Hm. unfold predict_winrate. simpl. rewrite M.
  destruct (match_game_predict_In _ _ _ M) as [n Hin].
  destruct (norm_map_entry _ _ _ Hin) as [_ Hrow].
  destruct (first_row_named_some _ _ Hm Hrow) as [props ->].
  eexists. reflexivity.
Qed.

(** C9, as stated, at a concrete input: the model and the feature names
    are present and the name "Hex" is a game of every table that lists
    it, yet the call raises, with neither of the two named errors, because
    the property table itself is absent. *)
Lemma prediction_fails_without_property_table :
  let disk := mkArtifacts (Some (fun _ => 1 # 2)) (Some ["game_n"]) None in
  OUT_MODEL disk <> None
  /\ OUT_FEATURES disk <> None
  /\ predict_winrate disk "Hex" "UCB1|Random|Average|Robust"
     = Raise FileNotFoundError_props
  /\ ~ (exists r, predict_winrate disk "Hex" "UCB1|Random|Average|Robust"
                  = Ok r).
Proof.
  simpl. repeat split; try discriminate.
  intros [r H]. discriminate.
Qed.

(** C9, amended. The call raises exactly in four cases, each with its own
    error: the model or the feature names are absent; else the property
    table is absent; else the name does not resolve against the table;
    else the name resolves to a blank cell of the table's game column
    (NaN), which the row lookup does not find.  In every other case it
    returns a number. *)
Theorem prediction_failure_cases :
  forall (disk : artifacts) (game_name variant : string),
    (predict_winrate disk game_name variant = Raise FileNotFoundError_model
     <-> OUT_MODEL disk = None \/ OUT_FEATURES disk = None)
    /\ (predict_winrate disk game_name variant = Raise FileNotFoundError_props
        <-> OUT_MODEL disk <> None /\ OUT_FEATURES disk <> None
            /\ GAME_PROPS disk = None)
    /\ (predict_winrate disk game_name variant = Raise ValueError_game
        <-> OUT_MODEL disk <> None /\ OUT_FEATURES disk <> None
            /\ exists games_df,
                 GAME_PROPS disk = Some games_df
                 /\ match_game_predict (norm_map_of games_df) game_name = None)
    /\ (predict_winrate disk game_name variant = Raise IndexError
        <-> OUT_MODEL disk <> None /\ OUT_FEATURES disk <> None
            /\ exists games_df,
                 GAME_PROPS disk = Some games_df
                 /\ match_game_predict (norm_map_of games_df) game_name
                    = Some NMissing)
    /\ ((exists r, predict_winrate disk game_name variant = Ok r)
        <-> OUT_MODEL disk <> None /\ OUT_FEATURES disk <> None
            /\ exists games_df mapped,
                 GAME_PROPS disk = Some games_df
                 /\ match_game_predict (norm_map_of games_df) game_name
                    = Some mapped
                 /\ mapped <> NMissing)
    /\ ((exists e, predict_winrate disk game_name variant = Raise e)
        <-> OUT_MODEL disk = None \/ OUT_FEATURES disk = None
            \/ GAME_PROPS disk = None
            \/ exists games_df,
                 GAME_PROPS disk = Some games_df
                 /\ (match_game_predict (norm_map_of games_df) game_name = None
                     \/ match_game_predict (norm_map_of games_df) game_name
                        = Some NMissing)).
Proof.
  intros [model feature_names games_df] game_name variant.
  unfold predict_winrate; simpl.
  destruct model as [model|]; destruct feature_names as [feature_names|];
    [| cases_of_raise | cases_of_raise | cases_of_raise].
  destruct games_df as [games_df|]; [|cases_of_raise].
  destruct (match_game_predict (norm_map_of games_df) game_name)
    as [mapped|] eqn:M.
  2:{ repeat split; intros; break_hyps; try close_case.
      do 3 right. exists games_df. split; [reflexivity | now left]. }
  destruct (match_game_predict_In _ _ _ M) as [n Hin].
  pose proof (first_row_named_of_map _ _ _ Hin) as Hrow.
  destruct (first_row_named games_df mapped) as [props|] eqn:F.
  - assert (Hm : mapped <> NMissing)
      by (intros E; apply Hrow in E; discriminate).
    repeat split; intros; break_hyps;
      try solve [ discriminate | congruence ].
    + exists games_df, mapped. now repeat split.
    + now eexists.
  - assert (Hm : mapped = NMissing) by now apply Hrow.
    subst mapped.
    repeat split; intros; break_hyps;
      try solve [ discriminate | congruence ].
    + exists games_df. now split.
    + do 3 right. exists games_df. split; [reflexivity | now right].
    + now eexists.
Qed.

(** A table whose only game cell is blank: the key of the cell is the
    empty string, a name without letters or digits resolves to the cell,
    and the lookup of the row raises. *)
Lemma prediction_failure_cases_witness :
  predict_winrate
    (mkArtifacts None (Some ["game_n"]) (Some [mkGame (NText "Hex") []]))
    "Hex" "UCB1" = Raise FileNotFoundError_model
  /\ predict_winrate
       (mkArtifacts (Some (fun _ => 1 # 2)) (Some ["game_n"])
                    (Some [mkGame (NText "Hex") []]))
       "Chess" "UCB1" = Raise ValueError_game
  /\ predict_winrate
       (mkArtifacts (Some (fun _ => 1 # 2)) (Some ["game_n"])
                    (Some [mkGame NMissing [("n", CNum 2)]]))
       "?!" "UCB1" = Raise IndexError.
Proof.
  split; [|split].
  - apply (prediction_failure_cases
             (mkArtifacts None (Some ["game_n"])
                          (Some [mkGame (NText "Hex") []]))
             "Hex" "UCB1").
    left. reflexivity.
  - apply (prediction_failure_cases
             (mkArtifacts (Some (fun _ => 1 # 2)) (Some ["game_n"])
                          (Some [mkGame (NText "Hex") []]))
             "Chess" "UCB1").
    split; [discriminate|]. split; [discriminate|].
    exists [mkGame (NText "Hex") []]. split; reflexivity.
  - apply (prediction_failure_cases
             (mkArtifacts (Some (fun _ => 1 # 2)) (Some ["game_n"])
                          (Some [mkGame NMissing [("n", CNum 2)]]))
             "?!" "UCB1").
    split; [discriminate|]. split; [discriminate|].
    exists [mkGame NMissing [("n", CNum 2)]]. split; reflexivity.
Defined.

(** ** The prediction-time encoder *)

Lemma filter_split_length {A : Type} (p : A -> bool) (l : list A) :
  (List.length (filter p l) + List.length (filter (fun x => negb (p x)) l)
   = List.length l)%nat.
Proof.
  induction l as [|x l IH]; simpl; [reflexivity|].
  destruct (p x); simpl; lia.
Qed.

Lemma query_vector_length (props : game_record) (feature_names : list string)
      (variant : string) :
  List.length (query_vector props feature_names variant)
  = List.length feature_names.
Proof.
  unfold query_vector, num_part, token_part, token_names.
  rewrite length_map, length_app, !length_map.
  apply filter_split_length.
Qed.

Lemma split_once_component (comp val : string) :
  In comp comp_cols ->
  split_once "="%char (comp ++ "=" ++ val) = Some (comp, val).
Proof.
  intros [<-|[<-|[<-|[<-|[]]]]]; reflexivity.
Qed.

Lemma token_names_subset (feature_names : list string) (f : string) :
  In f (token_names feature_names) -> In f feature_names.
Proof. unfold token_names. intros H. now apply filter_In in H. Qed.

(** C4. When the value a query has for a component is not in the schema's
    vocabulary for that component, every feature [component=value] of the
    schema is 0 in the query vector; the vector has one entry per schema
    name, and the call returns whenever the game resolves to a name of
    the table that is not a blank cell (the one case in which the lookup
    of the game's row, before the encoder runs, raises). *)
Theorem unseen_value_encodes_as_zeros :
  forall (feature_names : list string) (variant comp : string),
    In comp comp_cols ->
    ~ In (comp ++ "=" ++ comp_value (query_parts variant) comp)%string
         feature_names ->
    (forall (props : game_record) (i : nat) (val : string),
        nth_error (token_names feature_names) i
        = Some (comp ++ "=" ++ val)%string ->
        nth_error (query_vector props feature_names variant)
                  (List.length (filter is_game_col feature_names) + i)
        = Some 0)
    /\ (forall props : game_record,
           List.length (query_vector props feature_names variant)
           = List.length feature_names)
    /\ (forall model games_df game_name mapped,
           match_game_predict (norm_map_of games_df) game_name = Some mapped ->
           mapped <> NMissing ->
           exists r,
             predict_winrate
               (mkArtifacts (Some model) (Some feature_names) (Some games_df))
               game_name variant = Ok r).
Proof.
  intros feature_names variant comp Hcomp Hunseen.
  split; [|split].
  - intros props i val Hi.
    unfold query_vector. rewrite map_app.
    assert (L : List.length (map nan_to_num (num_part props feature_names))
                = List.length (filter is_game_col feature_names))
      by (unfold num_part; now rewrite !length_map).
    rewrite <- L, nth_error_app2 by lia.
    replace (List.length (map nan_to_num (num_part props feature_names)) + i
             - List.length (map nan_to_num (num_part props feature_names)))%nat
      with i by lia.
    unfold token_part. rewrite !nth_error_map, Hi. cbn [option_map].
    unfold token_feature. rewrite (split_once_component _ _ Hcomp).
    destruct (String.eqb_spec (comp_value (query_parts variant) comp) val)
      as [E|_]; [|reflexivity].
    exfalso. apply Hunseen. rewrite E.
    apply token_names_subset. eapply nth_error_In. exact Hi.
  - intros props. apply query_vector_length.
  - intros model games_df game_name mapped Hres Hm.
    now apply (predict_returns_when_resolved _ _ _ _ _ mapped).
Qed.

Lemma unseen_value_encodes_as_zeros_witness :
  query_vector (mkGame (NText "Hex") [("n", CNum 2)])
    ["game_n"; "variant_select=UCB1"; "variant_select=Greedy";
     "variant_simulation=Random"]
    "Thompson|Random" = [2; 0; 0; 1]
  /\ nth_error
       (query_vector (mkGame (NText "Hex") [("n", CNum 2)])
          ["game_n"; "variant_select=UCB1"; "variant_select=Greedy";
           "variant_simulation=Random"]
          "Thompson|Random") 2 = Some 0.
Proof.
  split; [reflexivity|].
  destruct (unseen_value_encodes_as_zeros
              ["game_n"; "variant_select=UCB1"; "variant_select=Greedy";
               "variant_simulation=Random"]
              "Thompson|Random" "variant_select") as (H & _ & _).
  - left. reflexivity.
  - intros H. simpl in H.
    repeat (destruct H as [H|H]; [discriminate|]). exact H.
  - apply (H (mkGame (NText "Hex") [("n", CNum 2)]) 1%nat "Greedy"). reflexivity.
Defined.

(** ** The dataset builder *)

Lemma rsplit_once_free (sep : ascii) (e : string) :
  free_of sep e -> rsplit_once sep e = None.
Proof.
  induction e as [|c e IH]; intros H; simpl; [reflexivity|].
  apply free_of_cons in H as [Hc He]. now rewrite (IH He), Hc.
Qed.

Lemma rsplit_once_app (sep : ascii) (b e : string) :
  free_of sep e -> rsplit_once sep (b ++ String sep e) = Some (b, e).
Proof.
  intros He. induction b as [|c b IH]; simpl.
  - now rewrite (rsplit_once_free _ _ He), Ascii.eqb_refl.
  - now rewrite IH.
Qed.

Lemma rsplit_once_inv (sep : ascii) (f a e : string) :
  rsplit_once sep f = Some (a, e) -> f = (a ++ String sep e)%string.
Proof.
  revert a. induction f as [|c f IH]; intros a; simpl; [discriminate|].
  destruct (rsplit_once sep f) as [[a' e']|].
  - intros H. injection H as <- <-. simpl. now rewrite (IH a' eq_refl).
  - destruct (Ascii.eqb_spec c sep) as [->|_]; [|discriminate].
    intros H. now injection H as <- <-.
Qed.

Lemma endswith_err (b : string) : endswith (b ++ ".err") ".err" = true.
Proof.
  unfold endswith, str_rev. rewrite str_rev_onto_app. simpl.
  apply prefix_empty.
Qed.

Lemma add_file_wf (bases : dict (dict string)) (f : string) :
  bases_wf bases -> bases_wf (add_file bases f).
Proof.
  intros [Hnd Hsplit]. unfold add_file.
  destruct (endswith f ".out" || endswith f ".err"); [|now split].
  destruct (rsplit_once "."%char f) as [[base ext]|] eqn:R; [|now split].
  split; [now apply dict_set_NoDup|].
  intros b parts ext' f' Hb Hp.
  destruct (String.eqb_spec base b) as [->|Hne].
  - rewrite dict_get_set_same in Hb. injection Hb as <-.
    destruct (String.eqb_spec ext ext') as [->|Hx].
    + rewrite dict_get_set_same in Hp. now injection Hp as <-.
    + rewrite dict_get_set_other in Hp by assumption.
      destruct (dict_get bases b) as [inner|] eqn:G.
      * eapply Hsplit; eassumption.
      * discriminate.
  - rewrite dict_get_set_other in Hb by assumption.
    eapply Hsplit; eassumption.
Qed.

Lemma add_file_keeps_part (bases : dict (dict string)) (g b ext : string) :
  has_part bases b ext -> has_part (add_file bases g) b ext.
Proof.
  intros (parts & f & Hb & Hp). unfold add_file.
  destruct (endswith g ".out" || endswith g ".err"); [|now exists parts, f].
  destruct (rsplit_once "."%char g) as [[base e]|]; [|now exists parts, f].
  destruct (String.eqb_spec base b) as [->|Hne].
  - rewrite Hb. exists (dict_set parts e g).
    destruct (String.eqb_spec e ext) as [->|Hx].
    + exists g. now rewrite !dict_get_set_same.
    + exists f. rewrite dict_get_set_same.
      now rewrite dict_get_set_other by assumption.
  - exists parts, f. now rewrite dict_get_set_other by assumption.
Qed.

Lemma add_file_adds_part (bases : dict (dict string)) (f b ext : string) :
  (endswith f ".out" || endswith f ".err") = true ->
  rsplit_once "."%char f = Some (b, ext) ->
  has_part (add_file bases f) b ext.
Proof.
  intros Hacc R. unfold add_file. rewrite Hacc, R.
  eexists. exists f. now rewrite !dict_get_set_same.
Qed.

Lemma fold_add_file_wf (files : list string) (acc : dict (dict string)) :
  bases_wf acc -> bases_wf (fold_left add_file files acc).
Proof.
  revert acc. induction files as [|g files IH]; intros acc H; simpl.
  - exact H.
  - apply IH, add_file_wf, H.
Qed.

Lemma fold_add_file_part (files : list string) (acc : dict (dict string))
      (f b ext : string) :
  (endswith f ".out" || endswith f ".err") = true ->
  rsplit_once "."%char f = Some (b, ext) ->
  In f files \/ has_part acc b ext ->
  has_part (fold_left add_file files acc) b ext.
Proof.
  intros Hacc R. revert acc.
  induction files as [|g files IH]; intros acc H; simpl.
  - destruct H as [[]|H]. exact H.
  - apply IH. destruct H as [[->|H]|H].
    + right. now apply add_file_adds_part.
    + now left.
    + right. now apply add_file_keeps_part.
Qed.

Lemma group_bases_wf (files : list string) : bases_wf (group_bases files).
Proof.
  apply fold_add_file_wf. split; [constructor|]. intros b parts ext f H.
  discriminate.
Qed.

(** The entry of a base whose error artifact is listed. *)
Lemma group_bases_err (files : list string) (base : string) :
  In (base ++ ".err")%string files ->
  exists parts,
    dict_get (group_bases files) base = Some parts
    /\ dict_get parts "err" = Some (base ++ ".err")%string.
Proof.
  intros Hin.
  assert (R : rsplit_once "."%char (base ++ ".err") = Some (base, "err"))
    by (apply (rsplit_once_app "."%char base "err"); reflexivity).
  assert (Hacc : (endswith (base ++ ".err") ".out"
                  || endswith (base ++ ".err") ".err") = true)
    by (rewrite endswith_err; apply orb_true_r).
  destruct (fold_add_file_part files [] _ _ _ Hacc R (or_introl Hin))
    as (parts & f & Hb & Hp).
  exists parts. split; [exact Hb|].
  destruct (group_bases_wf files) as [_ Hsplit].
  pose proof (Hsplit _ _ _ _ Hb Hp) as R'.
  apply rsplit_once_inv in R'. now rewrite Hp, R'.
Qed.

(** What [process_job] guarantees about the row it appends. *)
Lemma process_job_row (results_dir : directory) (games_df : table)
      (norm_to_game : dict name_cell) (base : string) (parts : dict string)
      (r : row) :
  process_job results_dir games_df norm_to_game base parts = Ok (Some r) ->
  job_base r = base
  /\ winrate_of (wins r) (games r) = Ok (winrate r)
  /\ exists parsed out text,
       dict_get parts "out" = Some out
       /\ read_text results_dir out = Ok text
       /\ parse_out_file text = Ok parsed
       /\ p_wins parsed = Some (wins r)
       /\ p_games parsed = Some (games r).
Proof.
  unfold process_job, bind. intros H.
  repeat break_match;
    injection H as <-; simpl;
    (split; [reflexivity|]); (split; [eassumption|]);
    eexists _, _, _; repeat split; try eassumption; reflexivity.
Qed.

(** The metadata of a row are those of the log the row was parsed
    from. *)
Lemma process_job_meta (results_dir : directory) (games_df : table)
      (norm_to_game : dict name_cell) (base : string) (parts : dict string)
      (r : row) :
  process_job results_dir games_df norm_to_game base parts = Ok (Some r) ->
  exists out text,
    dict_get parts "out" = Some out
    /\ read_text results_dir out = Ok text
    /\ run_meta r = parse_meta text.
Proof.
  unfold process_job, bind. intros H.
  repeat break_match;
    injection H as <-; simpl;
    eexists _, _; repeat split; try eassumption; reflexivity.
Qed.

Lemma process_job_failed (results_dir : directory) (games_df : table)
      (norm_to_game : dict name_cell) (base : string) (parts : dict string)
      (e : string) (n : N) :
  dict_get parts "err" = Some e -> is_empty e = false ->
  getsize results_dir e = Some n -> (0 < n)%N ->
  process_job results_dir games_df norm_to_game base parts = Ok None.
Proof.
  intros He Hne Hsz Hn. unfold process_job, job_failed.
  rewrite He, Hne, Hsz. apply N.ltb_lt in Hn. now rewrite Hn.
Qed.

Lemma build_rows_In (results_dir : directory) (games_df : table)
      (norm_to_game : dict name_cell) (jobs : list (string * dict string))
      (rows : list row) (r : row) :
  build_rows results_dir games_df norm_to_game jobs = Ok rows ->
  In r rows ->
  exists base parts,
    In (base, parts) jobs
    /\ process_job results_dir games_df norm_to_game base parts = Ok (Some r).
Proof.
  revert rows. induction jobs as [|[base parts] jobs IH]; intros rows; simpl.
  - intros H. injection H as <-. contradiction.
  - unfold bind.
    destruct (process_job results_dir games_df norm_to_game base parts)
      as [o|] eqn:P; [|discriminate].
    destruct (build_rows results_dir games_df norm_to_game jobs)
      as [rs|]; [|discriminate].
    intros H Hin. injection H as <-.
    assert (Hrs : In r rs ->
                  exists b p, In (b, p) ((base, parts) :: jobs)
                    /\ process_job results_dir games_df norm_to_game b p
                       = Ok (Some r)).
    { intros Hr. destruct (IH rs eq_refl Hr) as (b & p & Hb & Hp).
      exists b, p. split; [now right | exact Hp]. }
    destruct o as [x|]; [|now apply Hrs].
    destruct Hin as [->|Hr]; [|now apply Hrs].
    exists base, parts. split; [now left | exact P].
Qed.

Lemma build_dataset_In (results_dir : directory) (games_df : table)
      (rows : list row) (r : row) :
  build_dataset results_dir games_df = Ok rows ->
  In r rows ->
  exists parts,
    dict_get (group_bases (listdir results_dir)) (job_base r) = Some parts
    /\ process_job results_dir games_df (norm_map_of games_df)
                   (job_base r) parts = Ok (Some r).
Proof.
  unfold build_dataset. intros H Hin.
  destruct (build_rows_In _ _ _ _ _ _ H Hin) as (base & parts & Hj & P).
  pose proof (process_job_row _ _ _ _ _ _ P) as [Eb _]. subst base.
  exists parts. split; [|exact P].
  apply NoDup_keys_get; [apply group_bases_wf|].
  eapply Permutation_in; [|exact Hj].
  apply Permutation_sym, BaseSort.Permuted_sort.
Qed.

Lemma build_rows_complete (results_dir : directory) (games_df : table)
      (norm_to_game : dict name_cell) (jobs : list (string * dict string))
      (rows : list row) (base : string) (parts : dict string) (r : row) :
  build_rows results_dir games_df norm_to_game jobs = Ok rows ->
  In (base, parts) jobs ->
  process_job results_dir games_df norm_to_game base parts = Ok (Some r) ->
  In r rows.
Proof.
  revert rows. induction jobs as [|[b p] jobs IH]; intros rows; simpl.
  - intros _ [].
  - unfold bind.
    destruct (process_job results_dir games_df norm_to_game b p)
      as [o|] eqn:P; [|discriminate].
    destruct (build_rows results_dir games_df norm_to_game jobs)
      as [rs|]; [|discriminate].
    intros H Hin Hr. injection H as <-.
    destruct Hin as [E|Hin].
    + injection E as -> ->. rewrite Hr in P. injection P as <-. now left.
    + specialize (IH rs eq_refl Hin Hr). destruct o; [now right | exact IH].
Qed.

Lemma match_game_build_In (d : dict name_cell) (q : string) (g : name_cell) :
  match_game_build d q = Some g -> exists n, In (n, g) d.
Proof.
  unfold match_game_build.
  destruct (dict_get d (normalize_name (NText q))) as [m|] eqn:E.
  - intros H. injection H as ->. eexists. apply dict_get_In, E.
  - destruct (fuzzy_scan d (normalize_name (NText q))) as [f|] eqn:F;
      [|discriminate].
    destruct (truthy f); [|discriminate].
    intros H. injection H as ->. eapply fuzzy_scan_In, F.
Qed.

(** A build that returns has processed every job without an error. *)
Lemma build_rows_job_ok (results_dir : directory) (games_df : table)
      (norm_to_game : dict name_cell) (jobs : list (string * dict string))
      (rows : list row) (base : string) (parts : dict string) :
  build_rows results_dir games_df norm_to_game jobs = Ok rows ->
  In (base, parts) jobs ->
  exists o,
    process_job results_dir games_df norm_to_game base parts = Ok o.
Proof.
  revert rows. induction jobs as [|[b p] jobs IH]; intros rows; simpl.
  - intros _ [].
  - unfold bind.
    destruct (process_job results_dir games_df norm_to_game b p)
      as [o|] eqn:P; [|discriminate].
    destruct (build_rows results_dir games_df norm_to_game jobs)
      as [rs|]; [|discriminate].
    intros _ [E|Hin].
    + injection E as <- <-. now exists o.
    + now apply (IH rs).
Qed.

(** The checks a job has to pass to get a row; the number of completed
    games is not among them. *)
Lemma process_job_keeps (results_dir : directory) (games_df : table)
      (base : string) (parts : dict string) (out text : string)
      (parsed : parsed)
      (g : string) (mapped : name_cell) (w n : N) (o : option row) :
  job_failed results_dir parts = false ->
  dict_get parts "out" = Some out -> out <> "" ->
  read_text results_dir out = Ok text ->
  parse_out_file text = Ok parsed ->
  p_game parsed = Some g -> g <> "" ->
  p_wins parsed = Some w -> p_games parsed = Some n ->
  match_game_build (norm_map_of games_df) g = Some mapped ->
  process_job results_dir games_df (norm_map_of games_df) base parts = Ok o ->
  exists r,
    o = Some r
    /\ job_base r = base /\ game r = mapped
    /\ wins r = w /\ games r = n /\ winrate_of w n = Ok (winrate r).
Proof.
  intros Hf Ho Hone Ht Hp Hg Hgne Hw Hn Hm.
  unfold process_job. rewrite Hf, Ho.
  destruct out; [congruence|]. simpl is_empty. cbv iota.
  rewrite Ht. simpl. rewrite Hp. simpl. rewrite Hg, Hw, Hn.
  destruct g; [congruence|]. simpl is_empty. cbv iota.
  rewrite Hm.
  destruct (first_row_named games_df mapped) as [rec|]; [|discriminate].
  unfold bind. destruct (winrate_of w n) as [wr|] eqn:W; [|discriminate].
  intros H. injection H as <-. eexists. split; [reflexivity|].
  now repeat split.
Qed.

(** C5. A job whose error artifact is listed with a size above zero has no
    row in the dataset. *)
Theorem failed_job_has_no_row :
  forall (results_dir : directory) (games_df : table) (base : string)
         (n : N) (rows : list row),
    In (base ++ ".err")%string (listdir results_dir) ->
    getsize results_dir (base ++ ".err")%string = Some n ->
    (0 < n)%N ->
    build_dataset results_dir games_df = Ok rows ->
    ~ In base (map job_base rows).
Proof.
  intros results_dir games_df base n rows Hin Hsz Hn Hb Hrow.
  apply in_map_iff in Hrow as (r & Er & Hr).
  destruct (build_dataset_In _ _ _ _ Hb Hr) as (parts & Hg & P).
  destruct (group_bases_err _ _ Hin) as (parts' & Hg' & He).
  rewrite Er, Hg' in Hg. injection Hg as <-.
  rewrite (process_job_failed _ _ _ _ _ _ n He) in P.
  - discriminate.
  - destruct base; reflexivity.
  - exact Hsz.
  - exact Hn.
Qed.

(** Job B of [dir_A_B] is absent; the dataset is the single row of job A,
    with win rate 55/100 and the four components of its variant. *)
Lemma failed_job_has_no_row_witness :
  exists r,
    build_dataset dir_A_B hex_table = Ok [r]
    /\ job_base r = "A"
    /\ winrate r = FNum (inject_Z 55 / inject_Z 100)
    /\ [variant_select r; variant_simulation r; variant_backprop r;
        variant_finalmove r] = ["UCB1"; "Random"; "Average"; "Robust"]
    /\ ~ In "B" (map job_base [r]).
Proof.
  eexists. split; [vm_compute; reflexivity|].
  split; [reflexivity|]. split; [reflexivity|]. split; [reflexivity|].
  apply (failed_job_has_no_row dir_A_B hex_table "B" 17%N).
  - simpl. right. right. right. left. reflexivity.
  - reflexivity.
  - reflexivity.
  - vm_compute. reflexivity.
Defined.

(** The job of [dir_Z] completed no game and still has a row, whose win
    rate is NaN. *)
Lemma zero_games_row_example :
  exists r,
    build_dataset dir_Z hex_table = Ok [r]
    /\ job_base r = "Z" /\ wins r = 0%N /\ games r = 0%N /\ winrate r = FNaN.
Proof.
  eexists. split; [vm_compute; reflexivity|]. repeat split.
Qed.

(** C1, as stated, at a concrete input: the dataset built from [dir_Z] has
    a row with [games = 0]. *)
Lemma dataset_row_with_zero_games :
  exists rows r,
    build_dataset dir_Z hex_table = Ok rows
    /\ In r rows /\ games r = 0%N /\ winrate r = FNaN.
Proof.
  destruct zero_games_row_example as (r & Hb & _ & _ & Hg & Hw).
  exists [r], r. repeat split; try assumption. now left.
Qed.

(** C1, amended. In every row of the dataset the win rate is wins divided
    by games when games is positive and NaN when games is zero, wins and
    games being the counts parsed from the job's log.  A job is kept
    whatever its number of completed games: with no non-empty error
    artifact, a log that gives a game, a wins count and a games count, and
    a game that resolves, it has a row, also when the games count is zero;
    and such a row does occur. *)
Theorem winrate_of_dataset_rows :
  (forall (results_dir : directory) (games_df : table) (rows : list row)
          (r : row),
      build_dataset results_dir games_df = Ok rows ->
      In r rows ->
      ((0 < games r)%N ->
       winrate r
       = FNum (inject_Z (Z.of_N (wins r)) / inject_Z (Z.of_N (games r))))
      /\ (games r = 0%N -> winrate r = FNaN)
      /\ exists parts out text parsed,
           dict_get (group_bases (listdir results_dir)) (job_base r)
           = Some parts
           /\ dict_get parts "out" = Some out
           /\ read_text results_dir out = Ok text
           /\ parse_out_file text = Ok parsed
           /\ p_wins parsed = Some (wins r)
           /\ p_games parsed = Some (games r))
  /\ (forall (results_dir : directory) (games_df : table) (rows : list row)
             (base : string) (parts : dict string) (out text : string)
             (parsed : parsed) (g : string) (mapped : name_cell) (w n : N),
         build_dataset results_dir games_df = Ok rows ->
         dict_get (group_bases (listdir results_dir)) base = Some parts ->
         job_failed results_dir parts = false ->
         dict_get parts "out" = Some out ->
         read_text results_dir out = Ok text ->
         parse_out_file text = Ok parsed ->
         p_game parsed = Some g -> g <> "" ->
         p_wins parsed = Some w -> p_games parsed = Some n ->
         match_game_build (norm_map_of games_df) g = Some mapped ->
         exists r,
           In r rows /\ job_base r = base /\ wins r = w /\ games r = n
           /\ winrate_of w n = Ok (winrate r))
  /\ (exists results_dir games_df rows r,
         build_dataset results_dir games_df = Ok rows
         /\ In r rows /\ games r = 0%N /\ winrate r = FNaN).
Proof.
  split; [|split].
  - intros results_dir games_df rows r Hb Hr.
    destruct (build_dataset_In _ _ _ _ Hb Hr) as (parts & Hg & P).
    destruct (process_job_row _ _ _ _ _ _ P)
      as (_ & Hw & parsed & out & text & Ho & Ht & Hp & Hwins & Hgames).
    split; [|split].
    + intros Hpos. unfold winrate_of in Hw.
      apply N.ltb_lt in Hpos. rewrite Hpos in Hw.
      destruct (Qle_bool _ _); [discriminate|]. now injection Hw as <-.
    + intros Hz. rewrite Hz in Hw. unfold winrate_of in Hw. simpl in Hw.
      now injection Hw as <-.
    + exists parts, out, text, parsed. repeat split; assumption.
  - intros results_dir games_df rows base parts out text parsed g mapped w n
           Hb Hparts Hf Ho Ht Hp Hg Hgne Hw Hn Hm.
    assert (Hout : out <> "").
    { destruct (group_bases_wf (listdir results_dir)) as [_ Hsplit].
      pose proof (Hsplit _ _ _ _ Hparts Ho) as R.
      apply rsplit_once_inv in R. rewrite R. destruct base; discriminate. }
    assert (Hjob : In (base, parts)
                      (BaseSort.sort (group_bases (listdir results_dir)))).
    { eapply Permutation_in; [apply BaseSort.Permuted_sort|].
      now apply dict_get_In. }
    unfold build_dataset in Hb.
    destruct (build_rows_job_ok _ _ _ _ _ _ _ Hb Hjob) as [o P].
    destruct (process_job_keeps results_dir games_df base parts out text
                parsed g mapped w n o Hf Ho Hout Ht Hp Hg Hgne Hw Hn Hm P)
      as (r & -> & Eb & _ & Ew & En & Ewr).
    exists r. repeat split; try assumption.
    eapply build_rows_complete; [exact Hb | exact Hjob | exact P].
  - destruct zero_games_row_example as (r & Hb & _ & _ & Hg & Hw).
    exists dir_Z, hex_table, [r], r. repeat split; try assumption. now left.
Qed.

Lemma winrate_of_dataset_rows_witness :
  exists r,
    build_dataset dir_A_B hex_table = Ok [r]
    /\ winrate r = FNum (inject_Z 55 / inject_Z 100).
Proof.
  eexists. split; [vm_compute; reflexivity|].
  refine (proj1 (proj1 winrate_of_dataset_rows dir_A_B hex_table _ _ _ _) _).
  - vm_compute. reflexivity.
  - left. reflexivity.
  - reflexivity.
Defined.

(** ** The log parser *)

Lemma int_of_digits_value (s : string) (n : N) :
  int_of_digits s = Ok n -> n = digits_value s.
Proof.
  unfold int_of_digits. destruct (_ <=? _)%N; [|discriminate].
  intros H. now injection H as <-.
Qed.

Lemma int_of_digits_cases (s : string) :
  (N.of_nat (String.length s) <= int_max_str_digits)%N
  /\ int_of_digits s = Ok (digits_value s)
  \/ (int_max_str_digits < N.of_nat (String.length s))%N
     /\ int_of_digits s = Raise ValueError_int.
Proof.
  unfold int_of_digits.
  destruct (N.leb_spec (N.of_nat (String.length s)) int_max_str_digits);
    [left | right]; now split.
Qed.

Lemma parse_line_effect (d d' : parsed) (raw : string) :
  parse_line d raw = Ok d' ->
  p_game d' = match game_line raw with Some g => Some g | None => p_game d end
  /\ p_variant d'
     = match variant_line raw with Some v => Some v | None => p_variant d end
  /\ match completed_line raw with
     | Some cm => summary_assigned cm d'
     | None => p_wins d' = p_wins d /\ p_games d' = p_games d
               /\ p_avgMoves d' = p_avgMoves d
     end.
Proof.
  unfold parse_line, game_line, variant_line, completed_line, summary_assigned.
  destruct (is_empty (strip raw)).
  - intros H. injection H as <-. repeat split.
  - destruct (re_match true GAME_RE (strip raw)) as [gm|]; simpl.
    + intros H. injection H as <-. repeat split.
    + destruct (re_match true VARIANT_RE (strip raw)) as [vm|]; simpl.
      * intros H. injection H as <-. repeat split.
      * destruct (re_search false COMPLETED_RE (strip raw)) as [cm|].
        -- unfold bind.
           destruct (int_of_digits (group 1 cm)) as [n1|] eqn:I1;
             [|discriminate].
           destruct (int_of_digits (group 2 cm)) as [n2|]; [|discriminate].
           destruct (int_of_digits (group 3 cm)) as [n3|] eqn:I3;
             [|discriminate].
           destruct (float_of_decimal (group 7 cm)) as [a|] eqn:F;
             [|discriminate].
           apply int_of_digits_value in I1, I3. subst n1 n3.
           intros H. injection H as <-. simpl. repeat split.
           exists a. now split.
        -- intros H. injection H as <-. repeat split.
Qed.

Lemma parse_lines_app (d : parsed) (l1 l2 : list string) :
  parse_lines d (l1 ++ l2)
  = (d1 <- parse_lines d l1 ;; parse_lines d1 l2).
Proof.
  revert d. induction l1 as [|x l1 IH]; intros d; simpl; [reflexivity|].
  unfold bind at 1 3. destruct (parse_line d x); [apply IH | reflexivity].
Qed.

(** Lines that do not count for a field leave it as it was. *)
Lemma parse_lines_keep_game (d d' : parsed) (ls : list string) :
  (forall y, In y ls -> game_line y = None) ->
  parse_lines d ls = Ok d' -> p_game d' = p_game d.
Proof.
  revert d. induction ls as [|x ls IH]; intros d Hno; simpl.
  - intros H. now injection H as <-.
  - unfold bind. destruct (parse_line d x) as [d1|] eqn:P; [|discriminate].
    intros H. rewrite (IH d1); [|intros y Hy; apply Hno; now right|exact H].
    destruct (parse_line_effect _ _ _ P) as (Hg & _ & _).
    rewrite Hg, (Hno x); [reflexivity | now left].
Qed.

Lemma parse_lines_keep_variant (d d' : parsed) (ls : list string) :
  (forall y, In y ls -> variant_line y = None) ->
  parse_lines d ls = Ok d' -> p_variant d' = p_variant d.
Proof.
  revert d. induction ls as [|x ls IH]; intros d Hno; simpl.
  - intros H. now injection H as <-.
  - unfold bind. destruct (parse_line d x) as [d1|] eqn:P; [|discriminate].
    intros H. rewrite (IH d1); [|intros y Hy; apply Hno; now right|exact H].
    destruct (parse_line_effect _ _ _ P) as (_ & Hv & _).
    rewrite Hv, (Hno x); [reflexivity | now left].
Qed.

Lemma parse_lines_keep_summary (d d' : parsed) (ls : list string) :
  (forall y, In y ls -> completed_line y = None) ->
  parse_lines d ls = Ok d' ->
  p_wins d' = p_wins d /\ p_games d' = p_games d
  /\ p_avgMoves d' = p_avgMoves d.
Proof.
  revert d. induction ls as [|x ls IH]; intros d Hno; simpl.
  - intros H. now injection H as <-.
  - unfold bind. destruct (parse_line d x) as [d1|] eqn:P; [|discriminate].
    intros H.
    destruct (IH d1) as (H1 & H2 & H3);
      [intros y Hy; apply Hno; now right | exact H |].
    destruct (parse_line_effect _ _ _ P) as (_ & _ & Hc).
    rewrite (Hno x) in Hc by now left.
    destruct Hc as (E1 & E2 & E3).
    rewrite H1, H2, H3, E1, E2, E3. repeat split.
Qed.

(** The parser returns unless a summary line carries a count with too
    many digits or a malformed [avgMoves] literal. *)
Lemma parse_lines_returns (d : parsed) (ls : list string) :
  (forall y cm, In y ls -> completed_line y = Some cm ->
                summary_readable cm) ->
  exists d', parse_lines d ls = Ok d'.
Proof.
  revert d. induction ls as [|x ls IH]; intros d Hok; simpl.
  - now exists d.
  - assert (P : exists d1, parse_line d x = Ok d1).
    { pose proof (Hok x) as Hx.
      unfold parse_line. unfold completed_line in Hx.
      destruct (is_empty (strip x)); [now eexists|].
      destruct (re_match true GAME_RE (strip x)); [now eexists|].
      destruct (re_match true VARIANT_RE (strip x)); [now eexists|].
      destruct (re_search false COMPLETED_RE (strip x)) as [cm|];
        [|now eexists].
      destruct (Hx cm (or_introl eq_refl) eq_refl)
        as ([n1 ->] & [n2 ->] & [n3 ->] & [a ->]).
      simpl. now eexists. }
    destruct P as [d1 ->]. simpl. apply IH.
    intros y cm Hy. apply Hok. now right.
Qed.

(** C2, as stated, at a concrete input: the first game line of
    [log_repeated] names Hex, the first variant line UCB1|Random, the first
    summary line 5 wins in 10 games; the parser returns the values of the
    later lines. *)
Lemma later_lines_overwrite_fields :
  nth 0 (file_lines log_repeated) "" = "Game: Hex"
  /\ game_line "Game: Hex" = Some "Hex"
  /\ parse_out_file log_repeated
     = Ok (mkParsed (Some "Chess") (Some "Greedy") (Some 1%N) (Some 4%N)
                    (Some (FNum (75 # 10)))).
Proof. repeat split. Qed.

(** C2, amended. Each field holds the value of the last line that counts
    for it: a line that counts for a field overwrites what earlier lines
    assigned, and the lines after it that do not count for the field leave
    it unchanged.  A field stays [None] when no line counts for it. *)
Theorem last_matching_line_wins :
  forall (text : string) (pre post : list string) (x : string) (d : parsed),
    file_lines text = pre ++ x :: post ->
    parse_out_file text = Ok d ->
    (forall g, game_line x = Some g ->
               (forall y, In y post -> game_line y = None) ->
               p_game d = Some g)
    /\ (forall v, variant_line x = Some v ->
                  (forall y, In y post -> variant_line y = None) ->
                  p_variant d = Some v)
    /\ (forall cm, completed_line x = Some cm ->
                   (forall y, In y post -> completed_line y = None) ->
                   summary_assigned cm d)
    /\ ((forall y, In y (file_lines text) -> game_line y = None) ->
        p_game d = None)
    /\ ((forall y, In y (file_lines text) -> variant_line y = None) ->
        p_variant d = None)
    /\ ((forall y, In y (file_lines text) -> completed_line y = None) ->
        p_wins d = None /\ p_games d = None /\ p_avgMoves d = None).
Proof.
  intros text pre post x d Hlines Hparse.
  unfold parse_out_file in Hparse.
  assert (Hwhole := Hparse).
  rewrite Hlines, parse_lines_app in Hparse. unfold bind in Hparse.
  destruct (parse_lines empty_parsed pre) as [d0|]; [|discriminate].
  simpl in Hparse. unfold bind in Hparse.
  destruct (parse_line d0 x) as [d1|] eqn:P; [|discriminate].
  destruct (parse_line_effect _ _ _ P) as (Hg & Hv & Hc).
  split; [|split; [|split; [|split; [|split]]]].
  - intros g Hx Hpost.
    rewrite (parse_lines_keep_game _ _ _ Hpost Hparse), Hg, Hx. reflexivity.
  - intros v Hx Hpost.
    rewrite (parse_lines_keep_variant _ _ _ Hpost Hparse), Hv, Hx. reflexivity.
  - intros cm Hx Hpost. rewrite Hx in Hc.
    destruct (parse_lines_keep_summary _ _ _ Hpost Hparse) as (E1 & E2 & E3).
    destruct Hc as (Hw & Hn & a & Ha & Hm).
    unfold summary_assigned. rewrite E1, E2, E3.
    split; [exact Hw|]. split; [exact Hn|]. now exists a.
  - intros Hno. now rewrite (parse_lines_keep_game _ _ _ Hno Hwhole).
  - intros Hno. now rewrite (parse_lines_keep_variant _ _ _ Hno Hwhole).
  - intros Hno. exact (parse_lines_keep_summary _ _ _ Hno Hwhole).
Qed.

Lemma last_matching_line_wins_witness :
  parse_out_file log_repeated
  = Ok (mkParsed (Some "Chess") (Some "Greedy") (Some 1%N) (Some 4%N)
                 (Some (FNum (75 # 10))))
  /\ p_game (mkParsed (Some "Chess") (Some "Greedy") (Some 1%N) (Some 4%N)
                      (Some (FNum (75 # 10)))) = Some "Chess".
Proof.
  split; [reflexivity|].
  refine (proj1 (last_matching_line_wins log_repeated
                   [ "Game: Hex"; "Variant: UCB1|Random";
                     "completed=10/10, wins=5, losses=5, draws=0, failures=0, avgMoves=20.0" ]
                   [ "Variant: Greedy";
                     "completed=4/10, wins=1, losses=3, draws=0, failures=6, avgMoves=7.5" ]
                   "Game: Chess" _ eq_refl eq_refl) "Chess" eq_refl _).
  intros y [<-|[<-|[]]]; reflexivity.
Defined.

(** ** The feature encoders *)

Lemma leb_cases (a b : string) :
  String.leb a b = true -> a = b \/ str_lt a b.
Proof.
  unfold String.leb, str_lt, String.ltb.
  destruct (String.compare a b) eqn:C; intros H.
  - left. now apply String.compare_eq_iff.
  - now right.
  - discriminate.
Qed.

Lemma str_lt_trans (a b c : string) : str_lt a b -> str_lt b c -> str_lt a c.
Proof.
  unfold str_lt, String.ltb. intros H1 H2.
  destruct (String.compare a b) eqn:C1; try discriminate.
  destruct (String.compare b c) eqn:C2; try discriminate.
  apply String_as_OT.cmp_lt in C1, C2.
  pose proof (String_as_OT.lt_trans _ _ _ C1 C2) as L.
  apply String_as_OT.cmp_lt in L. unfold String_as_OT.cmp in L.
  now rewrite L.
Qed.

Lemma str_lt_leb (a b : string) : str_lt a b -> String.leb a b = true.
Proof.
  unfold str_lt, String.ltb, String.leb.
  now destruct (String.compare a b).
Qed.

Lemma leb_transitive :
  Transitive (fun a b : string => is_true (StrOrder.leb a b)).
Proof.
  intros a b c H1 H2. unfold StrOrder.leb, is_true in *.
  destruct (leb_cases _ _ H1) as [->|L1]; [exact H2|].
  destruct (leb_cases _ _ H2) as [<-|L2]; [exact H1|].
  apply str_lt_leb. eapply str_lt_trans; eassumption.
Qed.

Lemma unique_In (l : list string) (v : string) : In v (unique l) <-> In v l.
Proof.
  induction l as [|x l IH]; simpl; [tauto|].
  rewrite filter_In, IH. split.
  - intros [H|[H _]]; [now left | now right].
  - intros [H|H]; [now left|].
    destruct (String.eqb_spec v x) as [->|Hne]; [now left|].
    right. split; [exact H | reflexivity].
Qed.

Lemma unique_NoDup (l : list string) : NoDup (unique l).
Proof.
  induction l as [|x l IH]; simpl; constructor.
  - rewrite filter_In. intros [_ H]. now rewrite String.eqb_refl in H.
  - now apply NoDup_filter.
Qed.

Lemma strictly_sorted (l : list string) :
  StronglySorted (fun a b => is_true (StrOrder.leb a b)) l -> NoDup l ->
  StronglySorted str_lt l.
Proof.
  induction 1 as [|a l Hs IH Hall]; intros Hnd; constructor.
  - apply IH. now inversion Hnd.
  - inversion Hnd as [|? ? Hnot _]; subst.
    rewrite Forall_forall in *. intros y Hy.
    destruct (leb_cases _ _ (Hall y Hy)) as [->|L]; [contradiction | exact L].
Qed.

(** The vocabulary of a list of values: its distinct non-empty members in
    increasing order. *)
Lemma vocabulary_spec (values : list string) :
  StronglySorted str_lt (vocabulary values)
  /\ forall v, In v (vocabulary values) <-> v <> "" /\ In v values.
Proof.
  unfold vocabulary.
  pose proof (StrSort.Permuted_sort (filter nonempty (unique values))) as P.
  split.
  - apply strictly_sorted.
    + apply StrSort.StronglySorted_sort, leb_transitive.
    + eapply Permutation_NoDup; [exact P|].
      apply NoDup_filter, unique_NoDup.
  - intros v. split.
    + intros H. apply (Permutation_in _ (Permutation_sym P)) in H.
      apply filter_In in H as [H1 H2]. apply (proj1 (unique_In _ _)) in H1.
      split; [|exact H1]. intros ->. discriminate.
    + intros [Hne Hin]. apply (Permutation_in _ P).
      apply filter_In. split; [now apply (proj2 (unique_In _ _))|].
      destruct v; [congruence | reflexivity].
Qed.

Lemma component_block_spec (df : frame) (comp : string) :
  one_hot_block comp (observed df comp) (component_block df comp).
Proof.
  exists (vocabulary (observed df comp)).
  split; [|apply vocabulary_spec].
  unfold component_block. destruct (mem comp (columns df)) eqn:M.
  - reflexivity.
  - apply mem_false_iff in M. unfold observed.
    destruct (dict_get df comp) eqn:G; [|reflexivity].
    exfalso. apply M. unfold columns, keys.
    apply dict_get_In in G. change comp with (fst (comp, l)).
    now apply in_map.
Qed.

Lemma build_feature_names_ok (df : frame) (names : list string) :
  build_feature_names df = Ok names ->
  names = filter is_game_col (columns df)
            ++ flat_map (component_block df) comp_cols.
Proof.
  unfold build_feature_names.
  destruct (negb (float_columns_ok df (filter is_game_col (columns df))));
    [discriminate|].
  destruct (negb (mem "winrate" (columns df))); [discriminate|].
  destruct (negb (float_columns_ok df ["winrate"])); [discriminate|].
  intros H. now injection H as <-.
Qed.

(** The trainer's rows of [dir_A_B] and the names [prepare_features]
    gives for them. *)
Lemma trainer_names_example :
  exists rows,
    build_dataset dir_A_B hex_table = Ok rows
    /\ prepare_features_names rows
       = Ok ["game_numPlayers"; "Average"; "Random"; "Robust"; "UCB1"]
    /\ filter is_game_col (df_columns rows) = ["game_numPlayers"]
    /\ map variant_select rows = ["UCB1"].
Proof.
  eexists. split; [vm_compute; reflexivity|]. repeat split.
Qed.

(** C3, as stated, at a concrete input: for the dataset of [dir_A_B] the
    trainer's encoder returns the property column followed by plain token
    names, which is not the four-block form. *)
Lemma trainer_schema_is_not_four_blocks :
  exists rows names,
    build_dataset dir_A_B hex_table = Ok rows
    /\ prepare_features_names rows = Ok names
    /\ ~ four_block_schema
           (filter is_game_col (df_columns rows))
           (map variant_select rows) (map variant_simulation rows)
           (map variant_backprop rows) (map variant_finalmove rows) names.
Proof.
  destruct trainer_names_example as (rows & Hb & Hn & Hc & Hs).
  exists rows, ["game_numPlayers"; "Average"; "Random"; "Robust"; "UCB1"].
  split; [exact Hb|]. split; [exact Hn|].
  intros (b1 & b2 & b3 & b4 & E & (vocab & Eb & _ & Hv) & _).
  assert (Hin : In "variant_select=UCB1" b1).
  { rewrite Eb.
    apply (in_map (fun v => ("variant_select" ++ "=" ++ v)%string) vocab "UCB1").
    apply Hv. split; [discriminate|]. rewrite Hs. now left. }
  assert (Hnames : In "variant_select=UCB1"
                      ["game_numPlayers"; "Average"; "Random"; "Robust"; "UCB1"]).
  { rewrite E. apply in_or_app. right. apply in_or_app. now left. }
  simpl in Hnames.
  repeat (destruct Hnames as [Hnames|Hnames]; [discriminate|]).
  exact Hnames.
Qed.

(** C3, amended. The tuner's encoder [build_feature_matrix] returns the
    property columns followed by the four blocks [component=value], each
    over the sorted distinct non-empty values of its column, and it returns
    whenever the frame has a [winrate] column and no text in its numeric
    columns.  The trainer's encoder [prepare_features] returns the property
    columns followed by one block of plain token names: the sorted distinct
    non-empty tokens of the variant strings of all rows. *)
Theorem feature_names_of_encoders :
  (forall (df : frame) (names : list string),
      build_feature_names df = Ok names ->
      four_block_schema
        (filter is_game_col (columns df))
        (observed df "variant_select") (observed df "variant_simulation")
        (observed df "variant_backprop") (observed df "variant_finalmove")
        names)
  /\ (forall df : frame,
         float_columns_ok df (filter is_game_col (columns df)) = true ->
         mem "winrate" (columns df) = true ->
         float_columns_ok df ["winrate"] = true ->
         exists names, build_feature_names df = Ok names)
  /\ (forall (rows : list row) (names : list string),
         prepare_features_names rows = Ok names ->
         exists vocab,
           names = filter is_game_col (df_columns rows) ++ vocab
           /\ StronglySorted str_lt vocab
           /\ forall t,
                In t vocab <->
                t <> "" /\ exists r, In r rows
                                     /\ In t (re_split BAR_RE (variant_text r))).
Proof.
  split; [|split].
  - intros df names H. apply build_feature_names_ok in H.
    exists (component_block df "variant_select"),
           (component_block df "variant_simulation"),
           (component_block df "variant_backprop"),
           (component_block df "variant_finalmove").
    split.
    + rewrite H. simpl. now rewrite app_nil_r.
    + repeat split; apply component_block_spec.
  - intros df H1 H2 H3. unfold build_feature_names.
    rewrite H1, H2, H3. simpl. now eexists.
  - intros rows names. unfold prepare_features_names.
    destruct (mem "variant" (df_columns rows)); [|discriminate].
    intros H. injection H as <-.
    eexists. split; [reflexivity|].
    destruct (vocabulary_spec
                (concat (map (fun r => re_split BAR_RE (variant_text r)) rows)))
      as [Hs Hv].
    split; [exact Hs|]. intros t. rewrite Hv. split.
    + intros [Hne Hin]. split; [exact Hne|].
      apply in_concat in Hin as (l & Hl & Ht).
      apply in_map_iff in Hl as (r & <- & Hr). now exists r.
    + intros [Hne (r & Hr & Ht)]. split; [exact Hne|].
      apply in_concat. exists (re_split BAR_RE (variant_text r)).
      split; [|exact Ht].
      apply (in_map (fun r => re_split BAR_RE (variant_text r))), Hr.
Qed.

(** The frame read back from the dataset of two jobs. *)
Lemma feature_names_of_encoders_witness :
  build_feature_names
    [ ("job_base", [FText "A"; FText "C"]);
      ("variant_select", [FText "UCB1"; FText "UCB1"]);
      ("variant_simulation", [FText "Random"; FText "Alpha"]);
      ("variant_backprop", [FText "Average"; FMissing]);
      ("variant_finalmove", [FMissing; FMissing]);
      ("winrate", [FNumber (55 # 100) "0.55"; FNumber (1 # 2) "0.5"]);
      ("game_numPlayers", [FNumber 2 "2"; FNumber 2 "2"]) ]
  = Ok [ "game_numPlayers"; "variant_select=UCB1";
         "variant_simulation=Alpha"; "variant_simulation=Random";
         "variant_backprop=Average" ]
  /\ four_block_schema
       ["game_numPlayers"] ["UCB1"; "UCB1"] ["Random"; "Alpha"]
       ["Average"; ""] [""; ""]
       [ "game_numPlayers"; "variant_select=UCB1";
         "variant_simulation=Alpha"; "variant_simulation=Random";
         "variant_backprop=Average" ].
Proof.
  split; [reflexivity|].
  apply (proj1 feature_names_of_encoders
           [ ("job_base", [FText "A"; FText "C"]);
             ("variant_select", [FText "UCB1"; FText "UCB1"]);
             ("variant_simulation", [FText "Random"; FText "Alpha"]);
             ("variant_backprop", [FText "Average"; FMissing]);
             ("variant_finalmove", [FMissing; FMissing]);
             ("winrate", [FNumber (55 # 100) "0.55"; FNumber (1 # 2) "0.5"]);
             ("game_numPlayers", [FNumber 2 "2"; FNumber 2 "2"]) ]).
  reflexivity.
Defined.

(* ================================================================== *)
(** * Further properties *)
(* ================================================================== *)

(** ** Name normalisation *)

Lemma lower_char_idempotent (c : ascii) :
  lower_char (lower_char c) = lower_char c.
Proof. destruct c as [[] [] [] [] [] [] [] []]; reflexivity. Qed.

Lemma lower_char_of_lower_alnum (c : ascii) :
  is_lower_alnum c = true -> lower_char c = c.
Proof.
  destruct c as [[] [] [] [] [] [] [] []]; intros H;
    first [reflexivity | discriminate H].
Qed.

Lemma lower_idempotent (s : string) : lower (lower s) = lower s.
Proof.
  induction s as [|c s IH]; simpl; [reflexivity|].
  now rewrite lower_char_idempotent, IH.
Qed.

Lemma lower_app (a b : string) :
  lower (a ++ b) = (lower a ++ lower b)%string.
Proof. induction a as [|c a IH]; simpl; [reflexivity | now rewrite IH]. Qed.

Lemma filter_str_app (p : ascii -> bool) (a b : string) :
  filter_str p (a ++ b) = (filter_str p a ++ filter_str p b)%string.
Proof.
  induction a as [|c a IH]; simpl; [reflexivity|].
  destruct (p c); simpl; now rewrite IH.
Qed.

Lemma filter_str_all (p : ascii -> bool) (s : string) :
  all_chars p (filter_str p s) = true.
Proof.
  induction s as [|c s IH]; simpl; [reflexivity|].
  destruct (p c) eqn:E; simpl; [now rewrite E|exact IH].
Qed.

Lemma filter_str_fixed (p : ascii -> bool) (s : string) :
  all_chars p s = true -> filter_str p s = s.
Proof.
  induction s as [|c s IH]; simpl; [reflexivity|].
  intros H. apply andb_true_iff in H as [Hc Hs]. now rewrite Hc, IH.
Qed.

Lemma lower_fixed (s : string) :
  all_chars is_lower_alnum s = true -> lower s = s.
Proof.
  induction s as [|c s IH]; simpl; [reflexivity|].
  intros H. apply andb_true_iff in H as [Hc Hs].
  now rewrite lower_char_of_lower_alnum, IH.
Qed.

(** X1. A normalised name consists of lower-case letters and digits only,
    and normalising it again changes nothing. *)
Theorem normalize_name_idempotent :
  forall s : name_cell,
    all_chars is_lower_alnum (normalize_name s) = true
    /\ normalize_name (NText (normalize_name s)) = normalize_name s.
Proof.
  intros [s|q|b|]; [|split; reflexivity..]. unfold normalize_name.
  pose proof (filter_str_all is_lower_alnum (lower s)) as H.
  split; [exact H|].
  rewrite (lower_fixed _ H). now apply filter_str_fixed.
Qed.

(** X2. Normalisation ignores letter case and every character that is not
    a letter or a digit, and it distributes over concatenation: two names
    that differ only in case, spacing or punctuation get the same key. *)
Theorem normalize_name_ignores_case_and_punctuation :
  forall (a b : string) (c : ascii),
    normalize_name (NText (a ++ b))
    = (normalize_name (NText a) ++ normalize_name (NText b))%string
    /\ normalize_name (NText (lower a)) = normalize_name (NText a)
    /\ (is_lower_alnum (lower_char c) = false ->
        normalize_name (NText (a ++ String c b))
        = normalize_name (NText (a ++ b))).
Proof.
  intros a b c. unfold normalize_name. repeat split.
  - now rewrite lower_app, filter_str_app.
  - now rewrite lower_idempotent.
  - intros H. rewrite !lower_app, !filter_str_app. simpl. now rewrite H.
Qed.

Lemma normalize_name_ignores_case_and_punctuation_witness :
  normalize_name (NText "Hex (Size 11)") = normalize_name (NText "hex size 11")
  /\ normalize_name (NText ("Hex" ++ String "("%char "Size"))
     = normalize_name (NText ("Hex" ++ "Size")).
Proof.
  split; [reflexivity|].
  apply (normalize_name_ignores_case_and_punctuation "Hex" "Size" "("%char).
  reflexivity.
Defined.

(** ** The mapping from normalised names to names *)

Lemma dict_of_pairs_get_acc {V : Type} (ps : list (string * V))
      (d : dict V) (k : string) :
  dict_get (fold_left (fun d kv => dict_set d (fst kv) (snd kv)) ps d) k
  = match last_value ps k with
    | Some v => Some v
    | None => dict_get d k
    end.
Proof.
  revert d. induction ps as [|[k' v'] ps IH]; intros d; simpl; [reflexivity|].
  rewrite IH. destruct (last_value ps k) as [v|]; [reflexivity|].
  destruct (String.eqb_spec k' k) as [->|Hne].
  - apply dict_get_set_same.
  - now apply dict_get_set_other.
Qed.

Lemma dict_of_pairs_get {V : Type} (ps : list (string * V)) (k : string) :
  dict_get (dict_of_pairs ps) k = last_value ps k.
Proof.
  unfold dict_of_pairs. rewrite dict_of_pairs_get_acc.
  now destruct (last_value ps k).
Qed.

Lemma filter_filter {A : Type} (p q : A -> bool) (l : list A) :
  filter p (filter q l) = filter (fun x => q x && p x) l.
Proof.
  induction l as [|x l IH]; simpl; [reflexivity|].
  destruct (q x); simpl; [destruct (p x); now rewrite IH | exact IH].
Qed.

Lemma dict_of_pairs_keys_acc {V : Type} (ps : list (string * V)) (d : dict V) :
  keys (fold_left (fun d kv => dict_set d (fst kv) (snd kv)) ps d)
  = keys d ++ filter (fun x => negb (mem x (keys d))) (unique (map fst ps)).
Proof.
  revert d. induction ps as [|[k v] ps IH]; intros d; simpl.
  - now rewrite app_nil_r.
  - rewrite IH, dict_set_keys. destruct (mem k (keys d)) eqn:M; simpl.
    + f_equal. rewrite filter_filter. apply filter_ext_in. intros x _.
      destruct (String.eqb_spec x k) as [->|_]; simpl; [now rewrite M|reflexivity].
    + rewrite <- app_assoc. simpl. f_equal. f_equal.
      rewrite filter_filter. apply filter_ext_in. intros x _.
      unfold mem. rewrite existsb_app. simpl. rewrite orb_false_r.
      rewrite negb_orb. rewrite andb_comm. reflexivity.
Qed.

Lemma dict_of_pairs_keys {V : Type} (ps : list (string * V)) :
  keys (dict_of_pairs ps) = unique (map fst ps).
Proof.
  unfold dict_of_pairs. rewrite dict_of_pairs_keys_acc. simpl.
  induction (unique (map fst ps)) as [|x l IH]; simpl; [reflexivity|].
  now rewrite IH.
Qed.

(** X3. The mapping built from the property table has one entry per
    normalised name, in the order in which the names first occur in the
    table, and the entry holds the name of the last game with that
    normalised name: among games that normalise alike the later row wins. *)
Theorem norm_map_order_and_values :
  forall (games_df : table) (k : string),
    keys (norm_map_of games_df)
    = unique (map (fun g => normalize_name (g_name g)) games_df)
    /\ NoDup (keys (norm_map_of games_df))
    /\ dict_get (norm_map_of games_df) k
       = last_value
           (map (fun g => (normalize_name (g_name g), g_name g)) games_df) k.
Proof.
  intros games_df k. unfold norm_map_of.
  rewrite dict_of_pairs_keys, dict_of_pairs_get, map_map. simpl.
  repeat split. apply unique_NoDup.
Qed.

(** ** The fuzzy scan *)

Lemma prefix_refl (s : string) : String.prefix s s = true.
Proof.
  induction s as [|c s IH]; simpl; [reflexivity|].
  destruct (ascii_dec c c); [exact IH | congruence].
Qed.

Lemma prefix_contains (s p : string) :
  String.prefix p s = true -> contains s p = true.
Proof. intros H. destruct s; simpl in *; now rewrite H. Qed.

Lemma contains_refl (s : string) : contains s s = true.
Proof. apply prefix_contains, prefix_refl. Qed.

Lemma fuzzy_hit_containment (n norm : string) :
  fuzzy_hit n norm = contains n norm || contains norm n.
Proof.
  unfold fuzzy_hit, startswith.
  destruct (String.eqb_spec n norm) as [->|_]; simpl.
  - now rewrite contains_refl.
  - destruct (String.prefix norm n) eqn:P1; simpl.
    + now rewrite (prefix_contains _ _ P1).
    + destruct (String.prefix n norm) eqn:P2; simpl; [|reflexivity].
      rewrite (prefix_contains _ _ P2). now rewrite orb_true_r.
Qed.

Lemma fuzzy_scan_none {V : Type} (d : dict V) (norm : string) :
  fuzzy_scan d norm = None <->
  forall n g, In (n, g) d -> fuzzy_hit n norm = false.
Proof.
  induction d as [|[n' g'] d IH]; simpl.
  - split; [intros _ n g [] | reflexivity].
  - destruct (fuzzy_hit n' norm) eqn:H.
    + split; [discriminate|]. intros Hall.
      rewrite (Hall n' g') in H; [discriminate | now left].
    + rewrite IH. split.
      * intros Hall n g [E|Hin]; [now injection E as <- <- | now apply (Hall n g)].
      * intros Hall n g Hin. apply (Hall n g). now right.
Qed.

Lemma fuzzy_scan_first {V : Type} (d : dict V) (norm : string) (g : V) :
  fuzzy_scan d norm = Some g <->
  exists before n after,
    d = before ++ (n, g) :: after
    /\ fuzzy_hit n norm = true
    /\ forall n' g', In (n', g') before -> fuzzy_hit n' norm = false.
Proof.
  induction d as [|[n0 g0] d IH]; simpl.
  - split; [discriminate|]. intros (before & n & after & E & _).
    destruct before; discriminate.
  - destruct (fuzzy_hit n0 norm) eqn:H.
    + split.
      * intros E. injection E as ->. exists [], n0, d. repeat split.
        -- exact H.
        -- intros n' g' [].
      * intros (before & n & after & E & Hn & Hb).
        destruct before as [|[n1 g1] before].
        -- simpl in E. now injection E as _ ->.
        -- simpl in E. injection E as -> -> _.
           rewrite (Hb n1 g1) in H; [discriminate | now left].
    + rewrite IH. split.
      * intros (before & n & after & E & Hn & Hb).
        exists ((n0, g0) :: before), n, after. repeat split.
        -- simpl. now rewrite E.
        -- exact Hn.
        -- intros n' g' [E'|Hin]; [now injection E' as <- <- | now apply (Hb n' g')].
      * intros (before & n & after & E & Hn & Hb).
        destruct before as [|[n1 g1] before].
        -- simpl in E. injection E as -> _ _. congruence.
        -- simpl in E. injection E as _ _ E.
           exists before, n, after. repeat split; try assumption.
           intros n' g' Hin. apply (Hb n' g'). now right.
Qed.

(** X4. The five-way test of the fuzzy scan is mutual containment of the
    two normalised names.  The matcher of [predict_winrate] finds nothing
    exactly when no key of the mapping contains the query or is contained
    in it; otherwise, when the query is no key, it returns the name of the
    first entry, in the order of the mapping, that does. *)
Theorem fuzzy_match_is_first_containment :
  forall (mapping : dict name_cell) (query : string),
    (forall n, fuzzy_hit n (normalize_name (NText query))
               = contains n (normalize_name (NText query))
                 || contains (normalize_name (NText query)) n)
    /\ (match_game_predict mapping query = None <->
        forall n g, In (n, g) mapping ->
                    contains n (normalize_name (NText query)) = false
                    /\ contains (normalize_name (NText query)) n = false)
    /\ (forall g,
           dict_get mapping (normalize_name (NText query)) = None ->
           (match_game_predict mapping query = Some g <->
            exists before n after,
              mapping = before ++ (n, g) :: after
              /\ (contains n (normalize_name (NText query))
                  || contains (normalize_name (NText query)) n) = true
              /\ forall n' g', In (n', g') before ->
                   contains n' (normalize_name (NText query)) = false
                   /\ contains (normalize_name (NText query)) n' = false)).
Proof.
  intros mapping query.
  split; [intros n; apply fuzzy_hit_containment|]. split.
  - unfold match_game_predict.
    destruct (dict_get mapping (normalize_name (NText query))) as [m|] eqn:G.
    + split; [discriminate|]. intros Hall. apply dict_get_In in G.
      destruct (Hall _ _ G) as [H _]. now rewrite contains_refl in H.
    + rewrite fuzzy_scan_none. split.
      * intros Hall n g Hin. specialize (Hall n g Hin).
        rewrite fuzzy_hit_containment in Hall. now apply orb_false_iff.
      * intros Hall n g Hin. rewrite fuzzy_hit_containment.
        apply orb_false_iff. now apply (Hall n g).
  - intros g G. unfold match_game_predict. rewrite G, fuzzy_scan_first.
    split; intros (before & n & after & E & Hn & Hb);
      exists before, n, after; (split; [exact E|]); split.
    + now rewrite <- fuzzy_hit_containment.
    + intros n' g' Hin. specialize (Hb n' g' Hin).
      rewrite fuzzy_hit_containment in Hb. now apply orb_false_iff.
    + now rewrite fuzzy_hit_containment.
    + intros n' g' Hin. rewrite fuzzy_hit_containment.
      apply orb_false_iff. now apply (Hb n' g').
Qed.

(** The query "Checkers" is no key; the first key in containment with
    "checkers" is the second entry. *)
Lemma fuzzy_match_is_first_containment_witness :
  match_game_predict
    [("hex", NText "Hex"); ("international checkers", NText "International Checkers");
     ("checkersvariant", NText "Checkers Variant")] "Checkers"
  = Some (NText "International Checkers").
Proof.
  apply (proj2 (proj2 (fuzzy_match_is_first_containment
                         [("hex", NText "Hex");
                          ("international checkers", NText "International Checkers");
                          ("checkersvariant", NText "Checkers Variant")]
                         "Checkers"))
           (NText "International Checkers") eq_refl).
  exists [("hex", NText "Hex")], "international checkers",
         [("checkersvariant", NText "Checkers Variant")].
  split; [reflexivity|]. split; [reflexivity|].
  intros n' g' [E|[]]. injection E as <- <-. split; reflexivity.
Defined.

(** ** The variant components of a row and of a query *)

Lemma process_job_variant (results_dir : directory) (games_df : table)
      (norm_to_game : dict name_cell) (base : string) (parts : dict string)
      (r : row) :
  process_job results_dir games_df norm_to_game base parts = Ok (Some r) ->
  [variant_select r; variant_simulation r; variant_backprop r;
   variant_finalmove r] = variant_parts_build (variant r)
  /\ exists rec,
       first_row_named games_df (game r) = Some rec
       /\ game_props r = attach_props (props_dict rec).
Proof.
  unfold process_job, bind. intros H.
  repeat break_match;
    injection H as <-; simpl;
    (split; [|eexists; split; [eassumption | reflexivity]]);
    match goal with
    | |- context [variant_parts_build ?v] =>
        pose proof (variant_parts_build_length v) as L;
        destruct (variant_parts_build v) as [|? [|? [|? [|? [|? ?]]]]];
        simpl in L; try lia; reflexivity
    end.
Qed.

Lemma variant_parts_build_query (v : option string) :
  variant_parts_build v
  = query_components (match v with Some s => s | None => "" end).
Proof.
  rewrite query_components_firstn. unfold variant_parts_build.
  destruct v as [s|]; [|reflexivity]. now destruct s.
Qed.

(** X5. The four components stored in a dataset row are the ones
    [predict_winrate] derives from the row's raw variant string: training
    data and queries are decomposed alike. *)
Theorem row_components_are_query_components :
  forall (results_dir : directory) (games_df : table) (rows : list row)
         (r : row),
    build_dataset results_dir games_df = Ok rows ->
    In r rows ->
    query_components (variant_text r)
    = [variant_select r; variant_simulation r; variant_backprop r;
       variant_finalmove r].
Proof.
  intros results_dir games_df rows r Hb Hr.
  destruct (build_dataset_In _ _ _ _ Hb Hr) as (parts & _ & P).
  destruct (process_job_variant _ _ _ _ _ _ P) as [E _].
  rewrite E, variant_parts_build_query. reflexivity.
Qed.

Lemma row_components_are_query_components_witness :
  exists r,
    build_dataset dir_A_B hex_table = Ok [r]
    /\ query_components (variant_text r)
       = [variant_select r; variant_simulation r; variant_backprop r;
          variant_finalmove r].
Proof.
  eexists. split; [vm_compute; reflexivity|].
  eapply (row_components_are_query_components dir_A_B hex_table).
  - vm_compute. reflexivity.
  - left. reflexivity.
Defined.

(** ** Features with plain token names *)

Lemma mem_nonempty_pad4 (f : string) (l : list string) :
  mem f (filter nonempty (pad4 l)) = true <-> f <> "" /\ In f l.
Proof.
  rewrite mem_true_iff, filter_In. unfold pad4. rewrite in_app_iff. split.
  - intros [[H|H] Hne].
    + split; [|exact H]. intros ->. discriminate.
    + apply repeat_spec in H. subst. discriminate.
  - intros [Hne H]. split; [now left|]. destruct f; [congruence|reflexivity].
Qed.

(** X6. A schema name without [=] (the format of older artifacts) is set
    to 1 exactly when it is non-empty and equals one of the stripped
    tokens of the query, at any position, also beyond the fourth;
    otherwise it is 0. *)
Theorem plain_token_feature_counts_every_token :
  forall (variant feature : string),
    split_once "="%char feature = None ->
    (token_feature (query_parts variant) feature = FNum 1 <->
     feature <> "" /\ In feature (map strip (split "|"%char variant)))
    /\ (token_feature (query_parts variant) feature = FNum 1
        \/ token_feature (query_parts variant) feature = FNum 0).
Proof.
  intros variant feature Hno. unfold token_feature, query_parts.
  rewrite Hno.
  pose proof (mem_nonempty_pad4 feature (map strip (split "|"%char variant)))
    as M.
  destruct (mem feature _) eqn:E.
  - split; [|now left]. split; [intros _; now apply M | reflexivity].
  - split; [|now right]. split; [discriminate|].
    intros H. apply M in H. discriminate.
Qed.

Lemma plain_token_feature_counts_every_token_witness :
  token_feature (query_parts "UCB1|Random|Average|Robust| Extra ") "Extra"
  = FNum 1.
Proof.
  apply (plain_token_feature_counts_every_token
           "UCB1|Random|Average|Robust| Extra " "Extra" eq_refl).
  split; [discriminate|]. simpl. do 4 right. left. reflexivity.
Defined.

(** ** Clipping *)

Lemma clip01_cases (pred : Q) :
  (0 <= pred -> pred <= 1 -> clip01 pred == pred)
  /\ (pred <= 0 -> clip01 pred == 0)
  /\ (1 <= pred -> clip01 pred == 1).
Proof.
  unfold clip01. repeat split.
  - intros H0 H1. rewrite (Q.max_l _ _ H0). now apply Q.min_l.
  - intros H. rewrite (Q.max_r _ _ H). apply Q.min_l. discriminate.
  - intros H. apply Q.min_r. eapply Qle_trans; [exact H|]. apply Q.le_max_l.
Qed.

(** X7. A call that returns gives the pipeline's output for the query
    vector of the first table row of the resolved game: unchanged when the
    output lies between 0 and 1, replaced by 0 when it is below and by 1
    when it is above. *)
Theorem prediction_is_clipped_pipeline_output :
  forall (disk : artifacts) (game_name variant : string) (r : Q),
    predict_winrate disk game_name variant = Ok r ->
    exists model feature_names games_df mapped props,
      OUT_MODEL disk = Some model
      /\ OUT_FEATURES disk = Some feature_names
      /\ GAME_PROPS disk = Some games_df
      /\ match_game_predict (norm_map_of games_df) game_name = Some mapped
      /\ first_row_named games_df mapped = Some props
      /\ same_name (g_name props) mapped
      /\ let pred := model (query_vector props feature_names variant) in
         (0 <= pred -> pred <= 1 -> r == pred)
         /\ (pred <= 0 -> r == 0)
         /\ (1 <= pred -> r == 1).
Proof.
  intros disk game_name variant r. unfold predict_winrate.
  destruct (OUT_MODEL disk) as [model|]; [|discriminate].
  destruct (OUT_FEATURES disk) as [feature_names|]; [|discriminate].
  destruct (GAME_PROPS disk) as [games_df|]; [|discriminate].
  destruct (match_game_predict _ _) as [mapped|] eqn:M; [|discriminate].
  destruct (first_row_named _ _) as [props|] eqn:F; [|discriminate].
  intros H. injection H as <-.
  exists model, feature_names, games_df, mapped, props.
  do 5 (split; [reflexivity || assumption|]). split.
  - unfold first_row_named in F. apply find_some in F as [_ F].
    now apply name_eqb_same.
  - exact (clip01_cases _).
Qed.

(** A pipeline that returns a quarter of the first feature: 2/4 for Hex. *)
Lemma prediction_is_clipped_pipeline_output_witness :
  let disk := mkArtifacts (Some (fun x => nth 0 x 0 / 4)) (Some ["game_n"])
                          (Some [mkGame (NText "Hex") [("n", CNum 2)]]) in
  predict_winrate disk "hex" "UCB1" = Ok (clip01 (2 / 4))
  /\ exists model feature_names games_df mapped props,
       OUT_MODEL disk = Some model
       /\ OUT_FEATURES disk = Some feature_names
       /\ GAME_PROPS disk = Some games_df
       /\ match_game_predict (norm_map_of games_df) "hex" = Some mapped
       /\ first_row_named games_df mapped = Some props
       /\ same_name (g_name props) mapped
       /\ let pred := model (query_vector props feature_names "UCB1") in
          (0 <= pred -> pred <= 1 -> clip01 (2 / 4) == pred)
          /\ (pred <= 0 -> clip01 (2 / 4) == 0)
          /\ (1 <= pred -> clip01 (2 / 4) == 1).
Proof.
  intros disk. split; [reflexivity|].
  apply (prediction_is_clipped_pipeline_output disk "hex" "UCB1").
  reflexivity.
Defined.

(** ** One-hot blocks at prediction time *)

Lemma vocabulary_NoDup (values : list string) : NoDup (vocabulary values).
Proof.
  unfold vocabulary.
  eapply Permutation_NoDup; [apply StrSort.Permuted_sort|].
  apply NoDup_filter, unique_NoDup.
Qed.

Lemma token_feature_of_component (parts : list string) (comp val : string) :
  In comp comp_cols ->
  token_feature parts (comp ++ "=" ++ val)
  = if String.eqb (comp_value parts comp) val then FNum 1 else FNum 0.
Proof.
  intros H. unfold token_feature.
  now rewrite (split_once_component _ _ H).
Qed.

Lemma ones_of_indicator (x : string) (vocab : list string) :
  NoDup vocab ->
  ones (map (fun v => if String.eqb x v then FNum 1 else FNum 0) vocab)
  = if mem x vocab then 1%nat else 0%nat.
Proof.
  unfold ones, mem. induction 1 as [|v vocab Hnot _ IH]; simpl; [reflexivity|].
  destruct (String.eqb_spec x v) as [->|Hne]; simpl.
  - rewrite IH.
    destruct (existsb (String.eqb v) vocab) eqn:E; [|reflexivity].
    exfalso. apply Hnot. apply existsb_exists in E as (y & Hy & Ey).
    apply String.eqb_eq in Ey. now subst.
  - exact IH.
Qed.

(** X8. In the query vector every component block of a schema built by
    [build_feature_matrix] is one-hot or all zero: it holds exactly one 1
    when the query's value for the component is a non-empty value observed
    in training, and no 1 otherwise. *)
Theorem component_block_is_one_hot :
  forall (df : frame) (variant comp : string),
    In comp comp_cols ->
    let block := map (token_feature (query_parts variant))
                     (component_block df comp) in
    let value := comp_value (query_parts variant) comp in
    (ones block = 1%nat <-> value <> "" /\ In value (observed df comp))
    /\ (ones block = 0%nat <-> ~ (value <> "" /\ In value (observed df comp))).
Proof.
  intros df variant comp Hcomp block value.
  assert (E : ones block
              = if mem value (vocabulary (observed df comp))
                then 1%nat else 0%nat).
  { unfold block.
    destruct (component_block_spec df comp) as (vocab & Eb & _ & _).
    assert (Ev : component_block df comp
                 = map (fun v => (comp ++ "=" ++ v)%string)
                       (vocabulary (observed df comp))).
    { unfold component_block. destruct (mem comp (columns df)) eqn:M;
        [reflexivity|].
      apply mem_false_iff in M. unfold observed.
      destruct (dict_get df comp) eqn:G; [|reflexivity].
      exfalso. apply M. apply dict_get_In in G.
      change comp with (fst (comp, l)). now apply in_map. }
    rewrite Ev, map_map.
    rewrite (map_ext _ (fun v => if String.eqb value v then FNum 1 else FNum 0)).
    - apply ones_of_indicator, vocabulary_NoDup.
    - intros v. now apply token_feature_of_component. }
  destruct (vocabulary_spec (observed df comp)) as [_ Hv].
  destruct (mem value (vocabulary (observed df comp))) eqn:M.
  - apply mem_true_iff in M. apply Hv in M. rewrite E.
    split; split; auto; try discriminate. intros H. now elim H.
  - apply mem_false_iff in M. rewrite E.
    split; split; auto; try discriminate.
    + intros H. elim M. now apply Hv.
    + intros _ H. apply M. now apply Hv.
Qed.

Lemma component_block_is_one_hot_witness :
  map (token_feature (query_parts "UCB1|Random"))
      (component_block
         [ ("variant_select", [FText "UCB1"; FText "Greedy"; FText "UCB1"]) ]
         "variant_select")
  = [FNum 0; FNum 1]
  /\ ones (map (token_feature (query_parts "UCB1|Random"))
               (component_block
                  [ ("variant_select",
                     [FText "UCB1"; FText "Greedy"; FText "UCB1"]) ]
                  "variant_select")) = 1%nat.
Proof.
  split; [reflexivity|].
  apply (component_block_is_one_hot
           [ ("variant_select", [FText "UCB1"; FText "Greedy"; FText "UCB1"]) ]
           "UCB1|Random" "variant_select").
  - left. reflexivity.
  - split; [discriminate|]. left. reflexivity.
Defined.

(** ** When the parser and the builder raise *)

Lemma float_of_decimal_raises (s : string) (e : exn) :
  float_of_decimal s = Raise e -> e = ValueError_float.
Proof.
  unfold float_of_decimal.
  destruct (decimal_ok s); [discriminate|].
  intros H. now injection H as <-.
Qed.

Lemma float_of_decimal_rejects (s : string) :
  float_of_decimal s = Raise ValueError_float <->
  (2 <= count_char "."%char s)%nat \/ filter_str is_digit s = "".
Proof.
  unfold float_of_decimal, decimal_ok.
  destruct (Nat.leb_spec (count_char "."%char s) 1) as [Hc|Hc]; simpl.
  - destruct (filter_str is_digit s) eqn:D; simpl.
    + split; [now right | reflexivity].
    + split; [discriminate|]. intros [H|H]; [lia | discriminate].
  - split; [intros _; left; lia | reflexivity].
Qed.

Lemma int_of_digits_raises (s : string) (e : exn) :
  int_of_digits s = Raise e -> e = ValueError_int.
Proof.
  unfold int_of_digits. destruct (_ <=? _)%N; [discriminate|].
  intros H. now injection H as <-.
Qed.

Lemma int_of_digits_rejects (s : string) :
  int_of_digits s = Raise ValueError_int <->
  (int_max_str_digits < N.of_nat (String.length s))%N.
Proof.
  destruct (int_of_digits_cases s) as [[H E]|[H E]]; rewrite E.
  - split; [discriminate | lia].
  - split; [intros _; exact H | reflexivity].
Qed.

Lemma summary_values_raises (cm : captures) (e : exn) :
  summary_values cm = Raise e ->
  (e = ValueError_int \/ e = ValueError_float)
  /\ ((exists i, In i [1; 2; 3]%nat
                 /\ int_of_digits (group i cm) = Raise ValueError_int)
      \/ float_of_decimal (group 7 cm) = Raise ValueError_float).
Proof.
  unfold summary_values, bind.
  destruct (int_of_digits (group 1 cm)) as [n1|e1] eqn:I1.
  2:{ intros H. injection H as <-.
      pose proof (int_of_digits_raises _ _ I1) as ->.
      split; [now left|]. left. exists 1%nat. split; [now left | exact I1]. }
  destruct (int_of_digits (group 2 cm)) as [n2|e2] eqn:I2.
  2:{ intros H. injection H as <-.
      pose proof (int_of_digits_raises _ _ I2) as ->.
      split; [now left|]. left. exists 2%nat.
      split; [right; now left | exact I2]. }
  destruct (int_of_digits (group 3 cm)) as [n3|e3] eqn:I3.
  2:{ intros H. injection H as <-.
      pose proof (int_of_digits_raises _ _ I3) as ->.
      split; [now left|]. left. exists 3%nat.
      split; [right; right; now left | exact I3]. }
  destruct (float_of_decimal (group 7 cm)) as [a|e7] eqn:F; [discriminate|].
  intros H. injection H as <-.
  pose proof (float_of_decimal_raises _ _ F) as ->.
  split; now right.
Qed.

Lemma summary_values_returns (cm : captures) :
  summary_readable cm <-> exists v, summary_values cm = Ok v.
Proof.
  unfold summary_readable, summary_values, bind. split.
  - intros ([n1 ->] & [n2 ->] & [n3 ->] & [a ->]). now eexists.
  - intros [v H].
    destruct (int_of_digits (group 1 cm)) as [n1|]; [|discriminate].
    destruct (int_of_digits (group 2 cm)) as [n2|]; [|discriminate].
    destruct (int_of_digits (group 3 cm)) as [n3|]; [|discriminate].
    destruct (float_of_decimal (group 7 cm)) as [a|]; [|discriminate].
    repeat split; now eexists.
Qed.

Lemma summary_unreadable (cm : captures) :
  ~ summary_readable cm <->
  (exists i, In i [1; 2; 3]%nat
             /\ int_of_digits (group i cm) = Raise ValueError_int)
  \/ float_of_decimal (group 7 cm) = Raise ValueError_float.
Proof.
  rewrite summary_values_returns. split.
  - intros H. destruct (summary_values cm) as [v|e] eqn:S.
    + exfalso. apply H. now exists v.
    + now apply summary_values_raises in S.
  - intros H [v S]. unfold summary_values, bind in S.
    destruct (int_of_digits (group 1 cm)) as [n1|] eqn:I1.
    2:{ discriminate. }
    destruct (int_of_digits (group 2 cm)) as [n2|] eqn:I2.
    2:{ discriminate. }
    destruct (int_of_digits (group 3 cm)) as [n3|] eqn:I3.
    2:{ discriminate. }
    destruct (float_of_decimal (group 7 cm)) as [a|] eqn:F.
    2:{ discriminate. }
    destruct H as [(i & [<-|[<-|[<-|[]]]] & Hi)|Hf]; congruence.
Qed.

Lemma parse_line_raises (d : parsed) (x : string) (e : exn) :
  parse_line d x = Raise e <->
  exists cm, completed_line x = Some cm /\ summary_values cm = Raise e.
Proof.
  unfold parse_line, completed_line, summary_values.
  destruct (is_empty (strip x)).
  { split; [discriminate | intros (cm & H & _); discriminate]. }
  destruct (re_match true GAME_RE (strip x)).
  { split; [discriminate | intros (cm & H & _); discriminate]. }
  destruct (re_match true VARIANT_RE (strip x)).
  { split; [discriminate | intros (cm & H & _); discriminate]. }
  destruct (re_search false COMPLETED_RE (strip x)) as [cm|].
  2:{ split; [discriminate | intros (cm & H & _); discriminate]. }
  assert (E : forall cm' : captures, Some cm = Some cm' -> cm' = cm)
    by (intros cm' H; now injection H).
  unfold bind.
  destruct (int_of_digits (group 1 cm)) as [n1|e1] eqn:I1;
    [destruct (int_of_digits (group 2 cm)) as [n2|e2] eqn:I2;
     [destruct (int_of_digits (group 3 cm)) as [n3|e3] eqn:I3;
      [destruct (float_of_decimal (group 7 cm)) as [a|e7] eqn:F|]|]|];
    (split;
     [ intros H; exists cm; split; [reflexivity|];
       rewrite ?I1, ?I2, ?I3, ?F; first [discriminate H | congruence]
     | intros (cm' & H & S); apply E in H; subst cm';
       rewrite ?I1, ?I2, ?I3, ?F in S; first [discriminate S | congruence] ]).
Qed.

Lemma parse_lines_raises (d : parsed) (ls : list string) :
  (exists e, parse_lines d ls = Raise e) <->
  exists x cm,
    In x ls /\ completed_line x = Some cm /\ ~ summary_readable cm.
Proof.
  revert d. induction ls as [|y ls IH]; intros d; simpl.
  - split; [intros [e H]; discriminate | intros (x & cm & [] & _)].
  - unfold bind. destruct (parse_line d y) as [d1|e1] eqn:P.
    + rewrite IH. split.
      * intros (x & cm & Hin & H). exists x, cm. split; [now right | exact H].
      * intros (x & cm & [->|Hin] & Hc & Hf).
        -- exfalso. apply Hf. apply summary_values_returns.
           destruct (summary_values cm) as [v|e] eqn:S; [now exists v|].
           assert (R : parse_line d x = Raise e)
             by (apply parse_line_raises; now exists cm).
           congruence.
        -- now exists x, cm.
    + apply parse_line_raises in P as (cm & Hc & Hf). split.
      * intros _. exists y, cm. split; [now left|]. split; [exact Hc|].
        intros R. apply summary_values_returns in R as [v R]. congruence.
      * intros _. now exists e1.
Qed.

Lemma parse_lines_error (d : parsed) (ls : list string) (e : exn) :
  parse_lines d ls = Raise e -> e = ValueError_int \/ e = ValueError_float.
Proof.
  revert d. induction ls as [|y ls IH]; intros d; simpl; [discriminate|].
  unfold bind. destruct (parse_line d y) as [d1|e1] eqn:P.
  - apply IH.
  - intros H. injection H as <-.
    apply parse_line_raises in P as (cm & _ & S).
    now apply summary_values_raises in S.
Qed.

(** X9. The parser raises exactly when some line that counts for the
    summary carries a count (completed, expected total or wins) that
    [int] rejects, which it does for more than 4300 digits, or an
    [avgMoves] text that [float] rejects, which it does for more than one
    point or no digit.  The error is a [ValueError], of [int] or of
    [float]; every other log, however malformed, is parsed. *)
Theorem parser_raises_on_unreadable_summary :
  forall (text : string),
    ((exists e, parse_out_file text = Raise e) <->
     exists x cm,
       In x (file_lines text) /\ completed_line x = Some cm
       /\ ((exists i, In i [1; 2; 3]%nat
                      /\ int_of_digits (group i cm) = Raise ValueError_int)
           \/ float_of_decimal (group 7 cm) = Raise ValueError_float))
    /\ (forall e, parse_out_file text = Raise e ->
                  e = ValueError_int \/ e = ValueError_float)
    /\ (forall s, int_of_digits s = Raise ValueError_int <->
                  (4300 < N.of_nat (String.length s))%N)
    /\ (forall s, float_of_decimal s = Raise ValueError_float <->
                  (2 <= count_char "."%char s)%nat
                  \/ filter_str is_digit s = "").
Proof.
  intros text. unfold parse_out_file. repeat split.
  - intros H. apply parse_lines_raises in H as (x & cm & Hin & Hc & Hu).
    exists x, cm. split; [exact Hin|]. split; [exact Hc|].
    now apply summary_unreadable.
  - intros (x & cm & Hin & Hc & Hu). apply parse_lines_raises.
    exists x, cm. split; [exact Hin|]. split; [exact Hc|].
    now apply summary_unreadable.
  - intros e. apply parse_lines_error.
  - now apply int_of_digits_rejects.
  - now apply int_of_digits_rejects.
  - now apply float_of_decimal_rejects.
  - now apply float_of_decimal_rejects.
Qed.

Lemma parser_raises_on_unreadable_summary_witness :
  parse_out_file
    "completed=3/4, wins=1, losses=2, draws=0, failures=1, avgMoves=1.2.3"
  = Raise ValueError_float
  /\ exists e,
       parse_out_file
         "completed=3/4, wins=1, losses=2, draws=0, failures=1, avgMoves=1.2.3"
       = Raise e.
Proof.
  split; [reflexivity|].
  apply (proj1 (parser_raises_on_unreadable_summary
                  "completed=3/4, wins=1, losses=2, draws=0, failures=1, avgMoves=1.2.3")).
  eexists _, _. split; [left; reflexivity|]. split; [reflexivity|].
  right. reflexivity.
Defined.

(** A summary whose completed count has 4301 digits. *)
Lemma parser_raises_on_long_count :
  parse_out_file
    ("completed=" ++ String.concat "" (repeat "7" 4301)
     ++ "/4, wins=1, losses=2, draws=0, failures=1, avgMoves=1.0")
  = Raise ValueError_int.
Proof. vm_compute. reflexivity. Qed.

Lemma winrate_of_raises (w n : N) (e : exn) :
  winrate_of w n = Raise e <->
  e = OverflowError /\ (0 < n)%N
  /\ float_overflow_bound <= inject_Z (Z.of_N w) / inject_Z (Z.of_N n).
Proof.
  unfold winrate_of. destruct (N.ltb_spec 0 n) as [Hn|Hn].
  - destruct (Qle_bool float_overflow_bound
                (inject_Z (Z.of_N w) / inject_Z (Z.of_N n))) eqn:B.
    + split.
      * intros H. injection H as <-.
        repeat split; [exact Hn | now apply Qle_bool_iff].
      * now intros (-> & _).
    + split; [discriminate|]. intros (_ & _ & H).
      apply Qle_bool_iff in H. congruence.
  - split; [discriminate|]. intros (_ & H & _). lia.
Qed.

Lemma match_game_build_lookup (games_df : table) (g : string)
      (mapped : name_cell) :
  match_game_build (norm_map_of games_df) g = Some mapped ->
  first_row_named games_df mapped = None <-> mapped = NMissing.
Proof.
  intros H. destruct (match_game_build_In _ _ _ H) as [n Hin].
  now apply (first_row_named_of_map games_df n).
Qed.

Lemma read_text_raises (d : directory) (name : string) (e : exn) :
  read_text d name = Raise e -> e = OSError.
Proof.
  unfold read_text. destruct (dict_get d name) as [f|].
  - destruct (f_text f); [discriminate|]. intros H. now injection H as <-.
  - intros H. now injection H as <-.
Qed.

(** The loop body raises exactly on a log that makes it. *)
Lemma process_job_raises (results_dir : directory) (games_df : table)
      (base : string) (parts : dict string) :
  (exists e,
      process_job results_dir games_df (norm_map_of games_df) base parts
      = Raise e) <->
  job_failed results_dir parts = false
  /\ exists out,
       dict_get parts "out" = Some out /\ is_empty out = false
       /\ log_aborts results_dir games_df out.
Proof.
  unfold process_job, log_aborts.
  destruct (job_failed results_dir parts).
  { split; [intros [e H]; discriminate | intros [H _]; discriminate]. }
  destruct (dict_get parts "out") as [out|].
  2:{ split; [intros [e H]; discriminate
             | intros (_ & o & H & _); discriminate]. }
  destruct (is_empty out) eqn:Eo.
  { split; [intros [e H]; discriminate|]. intros (_ & o & H & H' & _).
    injection H as <-. congruence. }
  unfold bind.
  destruct (read_text results_dir out) as [text|e'] eqn:T.
  2:{ split.
      - intros _. split; [reflexivity|]. exists out.
        split; [reflexivity|]. split; [exact Eo|]. left.
        rewrite T. f_equal. exact (read_text_raises _ _ _ T).
      - intros _. now exists e'. }
  destruct (parse_out_file text) as [p|e'] eqn:P.
  2:{ split.
      - intros _. split; [reflexivity|]. exists out.
        split; [reflexivity|]. split; [exact Eo|]. right. left.
        exists text, e'. now split.
      - intros _. now exists e'. }
  split.
  - intros [e H].
    destruct (p_game p) as [g|] eqn:G; [|discriminate].
    destruct (p_wins p) as [w|] eqn:W; [|discriminate].
    destruct (p_games p) as [n|] eqn:N'; [|discriminate].
    destruct (is_empty g) eqn:Eg; [discriminate|].
    destruct (match_game_build (norm_map_of games_df) g) as [m|] eqn:M;
      [|discriminate].
    split; [reflexivity|]. exists out.
    split; [reflexivity|]. split; [exact Eo|]. right. right.
    exists text, p, g, w, n, m.
    split; [exact T|]. split; [exact P|]. split; [exact G|].
    split; [intros ->; discriminate|].
    split; [exact W|]. split; [exact N'|]. split; [exact M|].
    destruct (first_row_named games_df m) as [rec|] eqn:F.
    + right. destruct (winrate_of w n) as [wr|e0] eqn:Wr; [discriminate|].
      now apply winrate_of_raises in Wr.
    + left. now apply (match_game_build_lookup games_df g).
  - intros (_ & o & Ho
            & _ & [Ht|[(t & e & Ht & Hp)
                      |(t & parsed & g & w & n & mapped & Ht & Hp & G & Gne
                        & W & N' & M & Hc)]]);
      injection Ho as <-; [congruence| |]; rewrite T in Ht;
      injection Ht as <-; [congruence|].
    rewrite P in Hp. injection Hp as <-. rewrite G, W, N'.
    destruct g; [congruence|]. cbn [is_empty]. rewrite M.
    destruct Hc as [->|[Hn Hq]].
    + rewrite first_row_named_missing. now eexists.
    + destruct (first_row_named games_df mapped); [|now eexists].
      assert (Wr : winrate_of w n = Raise OverflowError)
        by (apply winrate_of_raises; now repeat split).
      rewrite Wr. now eexists.
Qed.

Lemma process_job_error (results_dir : directory) (games_df : table)
      (norm_to_game : dict name_cell) (base : string) (parts : dict string)
      (e : exn) :
  process_job results_dir games_df norm_to_game base parts = Raise e ->
  build_error e.
Proof.
  unfold process_job, build_error, bind. intros H.
  destruct (job_failed results_dir parts); [discriminate|].
  destruct (dict_get parts "out") as [out|]; [|discriminate].
  destruct (is_empty out); [discriminate|].
  destruct (read_text results_dir out) as [text|e'] eqn:T.
  2:{ injection H as <-. left. now apply (read_text_raises _ _ _ T). }
  destruct (parse_out_file text) as [p|e'] eqn:P.
  2:{ injection H as <-. unfold parse_out_file in P. right.
      apply parse_lines_error in P as [->| ->]; [now left | right; now left]. }
  destruct (p_game p) as [g|]; [|discriminate].
  destruct (p_wins p) as [w|]; [|discriminate].
  destruct (p_games p) as [n|]; [|discriminate].
  destruct (is_empty g); [discriminate|].
  destruct (match_game_build norm_to_game g) as [m|]; [|discriminate].
  destruct (first_row_named games_df m) as [rec|].
  - destruct (winrate_of w n) as [wr|e0] eqn:Wr; [discriminate|].
    injection H as <-. apply winrate_of_raises in Wr as (-> & _).
    now do 4 right.
  - injection H as <-. do 3 right. now left.
Qed.

Lemma build_rows_raises (results_dir : directory) (games_df : table)
      (norm_to_game : dict name_cell) (jobs : list (string * dict string)) :
  (forall e,
      build_rows results_dir games_df norm_to_game jobs = Raise e ->
      exists base parts,
        In (base, parts) jobs
        /\ process_job results_dir games_df norm_to_game base parts = Raise e)
  /\ (forall base parts e,
         In (base, parts) jobs ->
         process_job results_dir games_df norm_to_game base parts = Raise e ->
         exists e', build_rows results_dir games_df norm_to_game jobs
                    = Raise e').
Proof.
  induction jobs as [|[b p] jobs [IH1 IH2]]; simpl.
  - split; [discriminate | intros ? ? ? []].
  - unfold bind.
    destruct (process_job results_dir games_df norm_to_game b p)
      as [o|e0] eqn:P.
    + destruct (build_rows results_dir games_df norm_to_game jobs)
        as [rs|e1] eqn:B.
      * split; [discriminate|].
        intros base parts e [E|Hin] H.
        -- injection E as -> ->. congruence.
        -- destruct (IH2 _ _ _ Hin H) as [e' He']. discriminate.
      * split.
        -- intros e H. injection H as <-.
           destruct (IH1 e1 eq_refl) as (base & parts & Hin & H).
           exists base, parts. split; [now right | exact H].
        -- intros. now exists e1.
    + split.
      * intros e H. injection H as <-. exists b, p. split; [now left | exact P].
      * intros. now exists e0.
Qed.

Lemma build_dataset_error (results_dir : directory) (games_df : table)
      (e : exn) :
  build_dataset results_dir games_df = Raise e -> build_error e.
Proof.
  unfold build_dataset. intros He.
  destruct (proj1 (build_rows_raises results_dir games_df
                     (norm_map_of games_df)
                     (BaseSort.sort (group_bases (listdir results_dir))))
              e He) as (base & parts & Hin & P).
  now apply process_job_error in P.
Qed.

(** X10. [build_dataset] raises exactly when some job that is not skipped
    for its error artifact has an output log that makes the loop body
    raise: the log cannot be opened, or the parser raises on it, or its
    game resolves to a blank cell of the table's game column, or the
    quotient of its counts is too large for a float.  One such job aborts
    the whole build, with an [OSError], a [ValueError], an [IndexError]
    or an [OverflowError]. *)
Theorem build_dataset_raises_on_aborting_job :
  forall (results_dir : directory) (games_df : table),
    ((exists e, build_dataset results_dir games_df = Raise e) <->
     exists base parts out,
       dict_get (group_bases (listdir results_dir)) base = Some parts
       /\ job_failed results_dir parts = false
       /\ dict_get parts "out" = Some out
       /\ log_aborts results_dir games_df out)
    /\ (forall e, build_dataset results_dir games_df = Raise e ->
                  build_error e).
Proof.
  intros results_dir games_df. split; [|apply build_dataset_error].
  unfold build_dataset.
  destruct (build_rows_raises results_dir games_df (norm_map_of games_df)
              (BaseSort.sort (group_bases (listdir results_dir))))
    as [H1 H2].
  assert (Hsort : forall base parts,
             In (base, parts)
                (BaseSort.sort (group_bases (listdir results_dir)))
             <-> dict_get (group_bases (listdir results_dir)) base
                 = Some parts).
  { intros base parts. split.
    - intros Hin. apply NoDup_keys_get; [apply group_bases_wf|].
      eapply Permutation_in; [|exact Hin].
      apply Permutation_sym, BaseSort.Permuted_sort.
    - intros G. eapply Permutation_in; [apply BaseSort.Permuted_sort|].
      now apply dict_get_In. }
  split.
  - intros [e He]. destruct (H1 e He) as (base & parts & Hin & P).
    destruct (proj1 (process_job_raises results_dir games_df base parts))
      as (Hf & out & Ho & _ & Ha); [now exists e|].
    exists base, parts, out. repeat split; try assumption.
    now apply Hsort.
  - intros (base & parts & out & G & Hf & Ho & Ha).
    destruct (proj2 (process_job_raises results_dir games_df base parts))
      as [e P].
    + split; [exact Hf|]. exists out. repeat split; try assumption.
      destruct (group_bases_wf (listdir results_dir)) as [_ Hsplit].
      pose proof (Hsplit _ _ _ _ G Ho) as R.
      apply rsplit_once_inv in R. rewrite R. now destruct base.
    + apply (H2 base parts e); [now apply Hsort | exact P].
Qed.

(** The only game cell of the table is blank; the name in the log of job
    A has no letter or digit, resolves to that cell, and the lookup of
    its row aborts the build. *)
Lemma build_dataset_raises_on_aborting_job_witness :
  build_dataset
    [ ("A.out",
       mkFile (Some 80%N)
         (Some (text_of_lines
            [ "Game: ?!";
              "completed=4/4, wins=1, losses=3, draws=0, failures=0, avgMoves=9.5" ]))) ]
    [ mkGame NMissing [("numPlayers", CNum 2)] ]
  = Raise IndexError
  /\ exists e,
       build_dataset
         [ ("A.out",
            mkFile (Some 80%N)
              (Some (text_of_lines
                 [ "Game: ?!";
                   "completed=4/4, wins=1, losses=3, draws=0, failures=0, avgMoves=9.5" ]))) ]
         [ mkGame NMissing [("numPlayers", CNum 2)] ]
       = Raise e.
Proof.
  split; [vm_compute; reflexivity|].
  apply (proj1 (build_dataset_raises_on_aborting_job _ _)).
  exists "A", [("out", "A.out")], "A.out".
  split; [reflexivity|]. split; [reflexivity|]. split; [reflexivity|].
  right. right. eexists _, _, "?!", 1%N, 4%N, NMissing.
  split; [reflexivity|]. split; [vm_compute; reflexivity|].
  repeat split; try reflexivity; try discriminate. now left.
Defined.

(** A log that does not parse, a log whose wins count is too large for
    the division, and an entry named like a log that cannot be opened. *)
Lemma build_dataset_other_errors :
  build_dataset
    [ ("A.out", mkFile (Some 120%N) (Some log_hex));
      ("B.out",
       mkFile (Some 70%N)
         (Some "completed=3/4, wins=1, losses=2, draws=0, failures=1, avgMoves=1.2.3")) ]
    hex_table
  = Raise ValueError_float
  /\ build_dataset
       [ ("A.out",
          mkFile (Some 500%N)
            (Some (text_of_lines
               [ "Game: Hex";
                 ("completed=1/1, wins=1" ++ String.concat "" (repeat "0" 400)
                  ++ ", losses=0, draws=0, failures=0, avgMoves=9.5")%string ]))) ]
       hex_table
     = Raise OverflowError
  /\ build_dataset [ ("old.out", mkFile (Some 4096%N) None) ] hex_table
     = Raise OSError.
Proof. repeat split; vm_compute; reflexivity. Qed.

(** ** The rows of the dataset *)

Lemma base_leb_transitive :
  Transitive (fun x y : string * dict string => is_true (BaseOrder.leb x y)).
Proof.
  intros x y z. unfold BaseOrder.leb. apply leb_transitive.
Qed.

Lemma sorted_bases_strict (bases : dict (dict string)) :
  NoDup (keys bases) ->
  StronglySorted str_lt (map fst (BaseSort.sort bases)).
Proof.
  intros Hnd. apply strictly_sorted.
  - pose proof (BaseSort.StronglySorted_sort bases base_leb_transitive) as S.
    induction S as [|x l _ IH Hall]; simpl; constructor.
    + exact IH.
    + rewrite Forall_forall in *. intros y Hy.
      apply in_map_iff in Hy as (p & <- & Hp). exact (Hall p Hp).
  - eapply Permutation_NoDup; [|exact Hnd].
    apply Permutation_map, BaseSort.Permuted_sort.
Qed.

Lemma build_rows_sorted (results_dir : directory) (games_df : table)
      (norm_to_game : dict name_cell) (jobs : list (string * dict string))
      (rows : list row) :
  StronglySorted str_lt (map fst jobs) ->
  build_rows results_dir games_df norm_to_game jobs = Ok rows ->
  StronglySorted str_lt (map job_base rows)
  /\ forall r, In r rows -> In (job_base r) (map fst jobs).
Proof.
  revert rows. induction jobs as [|[b p] jobs IH]; intros rows Hs; simpl.
  - intros H. injection H as <-. split; [constructor | intros r []].
  - unfold bind.
    destruct (process_job results_dir games_df norm_to_game b p)
      as [o|] eqn:P; [|discriminate].
    destruct (build_rows results_dir games_df norm_to_game jobs)
      as [rs|]; [|discriminate].
    intros H. injection H as <-.
    simpl in Hs. apply StronglySorted_inv in Hs as [Hs Hall].
    destruct (IH rs Hs eq_refl) as [IHs IHin].
    destruct o as [x|].
    + pose proof (process_job_row _ _ _ _ _ _ P) as [Eb _].
      split.
      * simpl. constructor; [exact IHs|].
        rewrite Forall_forall in *. intros y Hy.
        apply in_map_iff in Hy as (r & <- & Hr).
        rewrite Eb. apply Hall. now apply IHin.
      * intros r [<-|Hr]; [left; now rewrite Eb | right; now apply IHin].
    + split; [exact IHs|]. intros r Hr. right. now apply IHin.
Qed.

(** X11. The dataset is sorted by job base name, strictly: the rows follow
    the code-point order of their base names and no two rows belong to the
    same job. *)
Theorem dataset_sorted_by_job :
  forall (results_dir : directory) (games_df : table) (rows : list row),
    build_dataset results_dir games_df = Ok rows ->
    StronglySorted str_lt (map job_base rows)
    /\ NoDup (map job_base rows).
Proof.
  intros results_dir games_df rows H. unfold build_dataset in H.
  destruct (build_rows_sorted _ _ _ _ _
              (sorted_bases_strict _ (proj1 (group_bases_wf _))) H)
    as [S _].
  split; [exact S|].
  induction S as [|x l _ IH Hall]; constructor; [|exact IH].
  intros Hin. rewrite Forall_forall in Hall. specialize (Hall x Hin).
  unfold str_lt, String.ltb in Hall.
  assert (C : String.compare x x = Eq)
    by (apply String_as_OT.cmp_eq; reflexivity).
  rewrite C in Hall. discriminate.
Qed.

Lemma dataset_sorted_by_job_witness :
  exists rows,
    build_dataset
      [ ("b.out", mkFile (Some 120%N) (Some log_hex));
        ("B.out", mkFile (Some 120%N) (Some log_hex));
        ("a10.out", mkFile (Some 120%N) (Some log_hex));
        ("a2.out", mkFile (Some 120%N) (Some log_hex)) ]
      hex_table = Ok rows
    /\ map job_base rows = ["B"; "a10"; "a2"; "b"]
    /\ StronglySorted str_lt (map job_base rows).
Proof.
  eexists. split; [vm_compute; reflexivity|]. split; [reflexivity|].
  eapply (proj1 (dataset_sorted_by_job
                   [ ("b.out", mkFile (Some 120%N) (Some log_hex));
                     ("B.out", mkFile (Some 120%N) (Some log_hex));
                     ("a10.out", mkFile (Some 120%N) (Some log_hex));
                     ("a2.out", mkFile (Some 120%N) (Some log_hex)) ]
                   hex_table _ _)).
  Unshelve. vm_compute. reflexivity.
Defined.

Lemma dict_set_fresh {V : Type} (d : dict V) (k : string) (v : V) :
  ~ In k (keys d) -> dict_set d k v = d ++ [(k, v)].
Proof.
  induction d as [|[k' v'] d IH]; simpl; intros H; [reflexivity|].
  destruct (String.eqb_spec k' k) as [->|_].
  - exfalso. apply H. now left.
  - rewrite IH; [reflexivity|]. intros Hin. apply H. now right.
Qed.

Lemma dict_of_pairs_NoDup {V : Type} (ps : list (string * V)) :
  NoDup (keys (dict_of_pairs ps)).
Proof. rewrite dict_of_pairs_keys. apply unique_NoDup. Qed.

Lemma attach_props_acc (props acc : dict cell) :
  NoDup (keys props) ->
  (forall c, In c (keys props) -> ~ In ("game_" ++ c)%string (keys acc)) ->
  fold_left
    (fun r cv =>
       let '(col, val) := cv in
       if String.eqb col "game" || String.eqb col "_norm" then r
       else dict_set r ("game_" ++ col) val)
    props acc
  = acc ++ map (fun cv => (("game_" ++ fst cv)%string, snd cv))
               (filter (fun cv => negb (String.eqb (fst cv) "game"
                                        || String.eqb (fst cv) "_norm"))
                       props).
Proof.
  revert acc. induction props as [|[c v] props IH]; intros acc Hnd Hfresh;
    simpl.
  - now rewrite app_nil_r.
  - simpl in Hnd. inversion Hnd as [|? ? Hc Hnd']; subst.
    destruct (String.eqb c "game" || String.eqb c "_norm"); simpl.
    + apply IH; [exact Hnd'|]. intros c' Hc'. apply Hfresh. now right.
    + rewrite dict_set_fresh by (apply Hfresh; now left).
      rewrite IH; [now rewrite <- app_assoc | exact Hnd' |].
      intros c' Hc' Hin. unfold keys in Hin. rewrite map_app in Hin.
      apply in_app_iff in Hin as [Hin|[E|[]]].
      * apply (Hfresh c'); [now right | exact Hin].
      * simpl in E. injection E as E. subst c'. contradiction.
Qed.

Lemma attach_props_spec (props : dict cell) :
  NoDup (keys props) ->
  attach_props props
  = map (fun cv => (("game_" ++ fst cv)%string, snd cv))
        (filter (fun cv => negb (String.eqb (fst cv) "game"
                                 || String.eqb (fst cv) "_norm"))
                props).
Proof.
  intros H. unfold attach_props. rewrite attach_props_acc; [reflexivity|exact H|].
  intros c _ [].
Qed.

(** X12. Every row of the dataset carries the game of a row of the
    property table and the property columns of the first table row with
    that name (the first row whose game [==] holds equal to it): each
    column other than [game] and [_norm], in table order, under the name
    [game_<col>] and with the table's value.  All these names pass the
    [game_] test of the encoders. *)
Theorem row_carries_table_properties :
  forall (results_dir : directory) (games_df : table) (rows : list row)
         (r : row),
    build_dataset results_dir games_df = Ok rows ->
    In r rows ->
    exists rec,
      In rec games_df
      /\ same_name (g_name rec) (game r)
      /\ first_row_named games_df (game r) = Some rec
      /\ game_props r
         = map (fun cv => (("game_" ++ fst cv)%string, snd cv))
               (filter (fun cv => negb (String.eqb (fst cv) "game"
                                        || String.eqb (fst cv) "_norm"))
                       (props_dict rec))
      /\ Forall (fun k => is_game_col k = true) (keys (game_props r)).
Proof.
  intros results_dir games_df rows r Hb Hr.
  destruct (build_dataset_In _ _ _ _ Hb Hr) as (parts & _ & P).
  destruct (process_job_variant _ _ _ _ _ _ P) as (_ & rec & F & Ep).
  exists rec.
  assert (Hspec := attach_props_spec (props_dict rec)
                     (dict_of_pairs_NoDup (g_cols rec))).
  pose proof F as F'. unfold first_row_named in F'.
  apply find_some in F' as [Hin Hname]. apply name_eqb_same in Hname.
  repeat split; try assumption.
  - now rewrite Ep.
  - rewrite Ep, Hspec. unfold keys. rewrite map_map. simpl.
    apply Forall_forall. intros k Hk.
    apply in_map_iff in Hk as (cv & <- & _).
    unfold is_game_col, startswith. simpl. apply prefix_empty.
Qed.

Lemma row_carries_table_properties_witness :
  exists r,
    build_dataset dir_A_B
      [ mkGame (NText "Chess") [("numPlayers", CNum 2)];
        mkGame (NText "Hex") [("numPlayers", CNum 2); ("game", CNum 1);
                      ("boardSize", CNaN); ("numPlayers", CNum 3)] ]
    = Ok [r]
    /\ game_props r = [("game_numPlayers", CNum 3); ("game_boardSize", CNaN)].
Proof.
  eexists. split; [vm_compute; reflexivity|].
  edestruct (row_carries_table_properties dir_A_B
               [ mkGame (NText "Chess") [("numPlayers", CNum 2)];
                 mkGame (NText "Hex") [("numPlayers", CNum 2); ("game", CNum 1);
                               ("boardSize", CNaN); ("numPlayers", CNum 3)] ])
    as (rec & _ & _ & F & E & _).
  - vm_compute. reflexivity.
  - left. reflexivity.
  - vm_compute in F. injection F as <-. exact E.
Defined.

(** ** The trainer's encoder and [main] *)

Lemma add_key_keeps (cols : list string) (k k' : string) :
  mem k cols = true -> mem k (add_key cols k') = true.
Proof.
  intros H. unfold add_key. destruct (mem k' cols); [exact H|].
  apply mem_true_iff, in_or_app. left. now apply mem_true_iff.
Qed.

Lemma fold_add_key_keeps (ks cols : list string) (k : string) :
  mem k cols = true -> mem k (fold_left add_key ks cols) = true.
Proof.
  revert cols. induction ks as [|k' ks IH]; intros cols H; simpl; [exact H|].
  apply IH, add_key_keeps, H.
Qed.

Lemma fold_add_key_has (ks cols : list string) (k : string) :
  In k ks -> mem k (fold_left add_key ks cols) = true.
Proof.
  revert cols. induction ks as [|k' ks IH]; intros cols; simpl; [intros []|].
  intros [->|H]; [|now apply IH].
  apply fold_add_key_keeps. unfold add_key.
  destruct (mem k cols) eqn:M; [exact M|].
  apply mem_true_iff, in_or_app. right. now left.
Qed.

Lemma df_columns_keeps (rows : list row) (cols : list string) (k : string) :
  mem k cols = true ->
  mem k (fold_left (fun cols r => fold_left add_key (row_keys r) cols)
                   rows cols) = true.
Proof.
  revert cols. induction rows as [|r rows IH]; intros cols H;
    cbn [fold_left]; [exact H|].
  apply IH, fold_add_key_keeps, H.
Qed.

Lemma df_columns_has_variant (r : row) (rows : list row) :
  mem "variant" (df_columns (r :: rows)) = true.
Proof.
  unfold df_columns. cbn [fold_left]. apply df_columns_keeps.
  apply fold_add_key_has. unfold row_keys, base_keys.
  apply in_or_app. left. simpl. tauto.
Qed.

(** X13. [prepare_features] raises [KeyError] on the empty dataset and
    returns on every other one; [main] never hands it the empty dataset:
    it exits with "No usable data parsed from results" exactly when the
    build returns no row.  The exceptions that escape [main] before
    training are those of [build_dataset]: the [OSError] of a log that
    cannot be opened, a [ValueError] of the parser, the [IndexError] of
    the row lookup or the [OverflowError] of the division; the encoder
    adds none. *)
Theorem main_guards_the_encoder :
  forall (results_dir : option directory) (game_props_file : option table),
    prepare_features_names [] = Raise KeyError
    /\ (forall rows, rows <> [] ->
                     exists names, prepare_features_names rows = Ok names)
    /\ (train_main results_dir game_props_file
        = SystemExit "No usable data parsed from results" <->
        exists d games_df,
          results_dir = Some d /\ game_props_file = Some games_df
          /\ build_dataset d games_df = Ok [])
    /\ (forall e, train_main results_dir game_props_file = Uncaught e <->
                  exists d games_df,
                    results_dir = Some d /\ game_props_file = Some games_df
                    /\ build_dataset d games_df = Raise e)
    /\ (forall e, train_main results_dir game_props_file = Uncaught e ->
                  build_error e)
    /\ (forall df names,
           train_main results_dir game_props_file = Reached (df, names) ->
           df <> [] /\ prepare_features_names df = Ok names).
Proof.
  intros results_dir game_props_file.
  assert (Hne : forall rows, rows <> [] ->
                  exists names, prepare_features_names rows = Ok names).
  { intros [|r rows] H; [congruence|]. unfold prepare_features_names.
    rewrite df_columns_has_variant. now eexists. }
  split; [reflexivity|]. split; [exact Hne|].
  unfold train_main.
  destruct results_dir as [d|].
  2:{ repeat split; try discriminate.
      - intros (d & t & H & _). discriminate.
      - intros (d & t & H & _). discriminate. }
  destruct game_props_file as [games_df|].
  2:{ repeat split; try discriminate.
      - intros (d' & t & _ & H & _). discriminate.
      - intros (d' & t & _ & H & _). discriminate. }
  assert (Hsame : forall (P : directory -> table -> Prop),
             (exists d' t, Some d = Some d' /\ Some games_df = Some t /\ P d' t)
             <-> P d games_df).
  { intros P. split.
    - intros (d' & t & E1 & E2 & H). injection E1 as <-. now injection E2 as <-.
    - intros H. now exists d, games_df. }
  destruct (build_dataset d games_df) as [df|e0] eqn:B.
  - destruct df as [|r df]; cbn [df_empty].
    + split; [|split; [|split]].
      * split; [intros _; now exists d, games_df | reflexivity].
      * intros e. split; [discriminate|].
        intros H. apply (Hsame (fun d' t => build_dataset d' t = Raise e)) in H.
        congruence.
      * discriminate.
      * discriminate.
    + destruct (Hne (r :: df)) as [names Pf]; [discriminate|].
      rewrite Pf. split; [|split; [|split]].
      * split; [discriminate|]. intros H.
        apply (Hsame (fun d' t => build_dataset d' t = Ok [])) in H. congruence.
      * intros e. split; [discriminate|].
        intros H. apply (Hsame (fun d' t => build_dataset d' t = Raise e)) in H.
        congruence.
      * discriminate.
      * intros df0 names0 H. injection H as <- <-.
        split; [discriminate | exact Pf].
  - split; [|split; [|split]].
    + split; [discriminate|]. intros H.
      apply (Hsame (fun d' t => build_dataset d' t = Ok [])) in H. congruence.
    + intros e. split.
      * intros H. injection H as <-. now exists d, games_df.
      * intros H.
        apply (Hsame (fun d' t => build_dataset d' t = Raise e)) in H.
        congruence.
    + intros e H. injection H as <-.
      now apply (build_dataset_error d games_df).
    + discriminate.
Qed.

(** Every job of the directory left a non-empty error artifact. *)
Lemma main_guards_the_encoder_witness :
  train_main
    (Some [ ("B.out", mkFile (Some 120%N) (Some log_hex));
            ("B.err", mkFile (Some 17%N) (Some "Traceback")) ])
    (Some hex_table)
  = SystemExit "No usable data parsed from results".
Proof.
  apply (main_guards_the_encoder
           (Some [ ("B.out", mkFile (Some 120%N) (Some log_hex));
                   ("B.err", mkFile (Some 17%N) (Some "Traceback")) ])
           (Some hex_table)).
  eexists _, _. split; [reflexivity|]. split; [reflexivity|].
  vm_compute. reflexivity.
Defined.

(** ** The training matrix and the query vector *)

Lemma set_at_length (n : nat) (x : Q) (l : list Q) :
  List.length (set_at n x l) = List.length l.
Proof.
  revert n. induction l as [|h t IH]; intros n; simpl; [reflexivity|].
  destruct n; simpl; [reflexivity | now rewrite IH].
Qed.

Lemma one_hot_row_length (vocab : list string) (v : string) :
  List.length (one_hot_row vocab v) = List.length vocab.
Proof.
  unfold one_hot_row. destruct (nonempty v && mem v vocab).
  - now rewrite set_at_length, repeat_length.
  - apply repeat_length.
Qed.

Lemma zeros_indicator (vocab : list string) (v : string) :
  ~ In v vocab ->
  repeat 0 (List.length vocab)
  = map (fun t => if String.eqb v t then 1 else 0) vocab.
Proof.
  induction vocab as [|x xs IH]; simpl; intros H; [reflexivity|].
  destruct (String.eqb_spec v x) as [->|_].
  - exfalso. apply H. now left.
  - rewrite IH; [reflexivity|]. intros Hin. apply H. now right.
Qed.

Lemma set_at_indicator (vocab : list string) (v : string) :
  NoDup vocab -> In v vocab ->
  set_at (index_of v vocab) 1 (repeat 0 (List.length vocab))
  = map (fun t => if String.eqb v t then 1 else 0) vocab.
Proof.
  induction 1 as [|x xs Hx Hnd IH]; simpl; intros Hin; [contradiction|].
  rewrite (String.eqb_sym v x).
  destruct (String.eqb_spec x v) as [->|Hne]; simpl.
  - f_equal. now apply zeros_indicator.
  - destruct Hin as [E|Hin]; [congruence|]. now rewrite IH.
Qed.

Lemma one_hot_row_indicator (vocab : list string) (v : string) :
  NoDup vocab -> ~ In "" vocab ->
  one_hot_row vocab v = map (fun t => if String.eqb v t then 1 else 0) vocab.
Proof.
  intros Hnd Hne. unfold one_hot_row.
  destruct (nonempty v) eqn:N; simpl.
  - destruct (mem v vocab) eqn:M.
    + apply set_at_indicator; [exact Hnd | now apply mem_true_iff].
    + apply zeros_indicator. now apply mem_false_iff.
  - destruct v; [|discriminate]. now apply zeros_indicator.
Qed.

Lemma component_block_names (df : frame) (comp : string) :
  component_block df comp
  = if mem comp (columns df)
    then map (fun t => (comp ++ "=" ++ t)%string) (vocabulary (observed df comp))
    else [].
Proof. reflexivity. Qed.

Lemma block_name_not_game_col (comp t : string) :
  In comp comp_cols -> is_game_col (comp ++ "=" ++ t) = false.
Proof. intros [<-|[<-|[<-|[<-|[]]]]]; reflexivity. Qed.

Lemma token_names_of_schema (df : frame) :
  token_names (filter is_game_col (columns df)
                 ++ flat_map (component_block df) comp_cols)
  = flat_map (component_block df) comp_cols.
Proof.
  unfold token_names. rewrite filter_app.
  assert (E1 : filter (fun fn => negb (is_game_col fn))
                      (filter is_game_col (columns df)) = []).
  { induction (columns df) as [|c l IH]; simpl; [reflexivity|].
    destruct (is_game_col c) eqn:G; simpl; [now rewrite G|exact IH]. }
  rewrite E1. cbn [app].
  apply forallb_filter_id. apply forallb_forall. intros x Hx.
  apply in_flat_map in Hx as (comp & Hc & Hx).
  rewrite component_block_names in Hx.
  destruct (mem comp (columns df)); [|contradiction].
  apply in_map_iff in Hx as (t & <- & _).
  now rewrite block_name_not_game_col.
Qed.

(** X14. The query vector reproduces the training matrix on the variant
    part: for a schema returned by [build_feature_matrix] and a query whose
    components equal the values row [i] of the frame has in the component
    columns, the token part of the query vector is row [i] of [X_tokens];
    and every row of [X] has one entry per schema name. *)
Theorem query_tokens_reproduce_training_row :
  forall (df : frame) (names : list string) (i : nat) (variant : string),
    build_feature_names df = Ok names ->
    (forall comp, In comp comp_cols -> mem comp (columns df) = true ->
                  comp_value (query_parts variant) comp
                  = nth i (observed df comp) "") ->
    map nan_to_num (token_part (query_parts variant) names) = token_row df i
    /\ List.length (feature_row df i) = List.length names.
Proof.
  intros df names i variant Hn Hq.
  apply build_feature_names_ok in Hn. subst names. split.
  - unfold token_part. rewrite token_names_of_schema. unfold token_row.
    rewrite !flat_map_concat_map, !concat_map, !map_map. f_equal.
    apply map_ext_in. intros comp Hcomp.
    rewrite component_block_names.
    destruct (mem comp (columns df)) eqn:M; [|reflexivity].
    rewrite !map_map.
    rewrite one_hot_row_indicator.
    + apply map_ext. intros t.
      rewrite (token_feature_of_component _ _ _ Hcomp), (Hq comp Hcomp M).
      now destruct (String.eqb _ t).
    + apply vocabulary_NoDup.
    + intros H. apply (proj2 (vocabulary_spec _)) in H as [H _]. congruence.
  - unfold feature_row, num_row, token_row.
    rewrite !length_app, length_map. f_equal.
    rewrite !flat_map_concat_map, !length_concat, !map_map. f_equal.
    apply map_ext. intros comp. rewrite component_block_names.
    destruct (mem comp (columns df)); [|reflexivity].
    now rewrite one_hot_row_length, length_map.
Qed.

Lemma query_tokens_reproduce_training_row_witness :
  let df : frame :=
    [ ("variant_select", [FText "UCB1"; FText "Greedy"]);
      ("variant_simulation", [FText "Random"; FMissing]);
      ("winrate", [FNumber (1 # 2) "0.5"; FNumber (1 # 4) "0.25"]);
      ("game_n", [FNumber 2 "2"; FMissing]) ] in
  token_row df 1 = [1; 0; 0]
  /\ map nan_to_num
         (token_part (query_parts "Greedy")
                     ["game_n"; "variant_select=Greedy"; "variant_select=UCB1";
                      "variant_simulation=Random"])
     = token_row df 1.
Proof.
  intros df. split; [reflexivity|].
  apply (query_tokens_reproduce_training_row df _ 1 "Greedy").
  - reflexivity.
  - intros comp [<-|[<-|[<-|[<-|[]]]]] H; try discriminate H; reflexivity.
Defined.

(** ** The grouping of the listing *)

Lemma str_rev_onto_spec (s acc : string) :
  str_rev_onto s acc = (str_rev s ++ acc)%string.
Proof.
  unfold str_rev. revert acc. induction s as [|c s IH]; intros acc; simpl.
  - reflexivity.
  - rewrite (IH (String c acc)), (IH (String c "")), append_assoc.
    reflexivity.
Qed.

Lemma str_rev_app (a b : string) :
  str_rev (a ++ b) = (str_rev b ++ str_rev a)%string.
Proof.
  unfold str_rev at 1. rewrite str_rev_onto_app, str_rev_onto_spec.
  reflexivity.
Qed.

Lemma str_rev_involutive (s : string) : str_rev (str_rev s) = s.
Proof.
  induction s as [|c s IH]; [reflexivity|].
  change (String c s) with (String c "" ++ s)%string at 1.
  rewrite str_rev_app, str_rev_app, IH. reflexivity.
Qed.

Lemma prefix_inv (p s : string) :
  String.prefix p s = true -> exists x, s = (p ++ x)%string.
Proof.
  revert s. induction p as [|c p IH]; intros s H.
  - now exists s.
  - destruct s as [|d s]; [discriminate|]. simpl in H.
    destruct (ascii_dec c d) as [->|_]; [|discriminate].
    destruct (IH s H) as [x ->]. now exists x.
Qed.

Lemma endswith_inv (f suffix : string) :
  endswith f suffix = true -> exists b, f = (b ++ suffix)%string.
Proof.
  unfold endswith. intros H. apply prefix_inv in H as [x Hx].
  exists (str_rev x).
  rewrite <- (str_rev_involutive f), Hx, str_rev_app, str_rev_involutive.
  reflexivity.
Qed.

Lemma endswith_out (b : string) : endswith (b ++ ".out") ".out" = true.
Proof.
  unfold endswith, str_rev. rewrite str_rev_onto_app. simpl.
  apply prefix_empty.
Qed.

Lemma accepted_split (f b ext : string) :
  (endswith f ".out" || endswith f ".err") = true ->
  rsplit_once "."%char f = Some (b, ext) ->
  (ext = "out" \/ ext = "err") /\ f = (b ++ "." ++ ext)%string.
Proof.
  intros Hacc R. split; [|now apply rsplit_once_inv in R].
  apply orb_true_iff in Hacc as [H|H]; apply endswith_inv in H as [b' ->].
  - rewrite (rsplit_once_app "."%char b' "out") in R by reflexivity.
    injection R as _ <-. now left.
  - rewrite (rsplit_once_app "."%char b' "err") in R by reflexivity.
    injection R as _ <-. now right.
Qed.

(** Where the entries of the grouping come from. *)
Lemma add_file_origin (files : list string) (bases : dict (dict string))
      (f : string) :
  In f files ->
  (forall b parts, dict_get bases b = Some parts ->
     parts <> []
     /\ forall ext g, dict_get parts ext = Some g ->
          In g files /\ (endswith g ".out" || endswith g ".err") = true) ->
  forall b parts, dict_get (add_file bases f) b = Some parts ->
    parts <> []
    /\ forall ext g, dict_get parts ext = Some g ->
         In g files /\ (endswith g ".out" || endswith g ".err") = true.
Proof.
  intros Hf Hinv b parts. unfold add_file.
  destruct (endswith f ".out" || endswith f ".err") eqn:Hacc; [|apply Hinv].
  destruct (rsplit_once "."%char f) as [[base e]|]; [|apply Hinv].
  destruct (String.eqb_spec base b) as [->|Hne].
  - rewrite dict_get_set_same. intros H. injection H as <-.
    split; [apply dict_set_nonempty|].
    intros ext g. destruct (String.eqb_spec e ext) as [->|Hx].
    + rewrite dict_get_set_same. intros H. injection H as <-. now split.
    + rewrite dict_get_set_other by assumption.
      destruct (dict_get bases b) as [inner|] eqn:G; [|discriminate].
      apply (proj2 (Hinv b inner G)).
  - rewrite dict_get_set_other by assumption. apply Hinv.
Qed.

Lemma group_bases_origin (files : list string) (b : string)
      (parts : dict string) :
  dict_get (group_bases files) b = Some parts ->
  parts <> []
  /\ forall ext g, dict_get parts ext = Some g ->
       In g files /\ (endswith g ".out" || endswith g ".err") = true.
Proof.
  unfold group_bases.
  assert (G : forall l acc,
             (forall x, In x l -> In x files) ->
             (forall b parts, dict_get acc b = Some parts ->
                parts <> []
                /\ forall ext g, dict_get parts ext = Some g ->
                     In g files
                     /\ (endswith g ".out" || endswith g ".err") = true) ->
             forall b parts,
               dict_get (fold_left add_file l acc) b = Some parts ->
               parts <> []
               /\ forall ext g, dict_get parts ext = Some g ->
                    In g files
                    /\ (endswith g ".out" || endswith g ".err") = true).
  { induction l as [|f l IH]; intros acc Hl Hacc; simpl; [exact Hacc|].
    apply IH; [intros x Hx; apply Hl; now right|].
    apply add_file_origin; [apply Hl; now left | exact Hacc]. }
  apply (G files []); [auto | discriminate].
Qed.

Lemma group_bases_part (files : list string) (b ext : string) :
  ext = "out" \/ ext = "err" ->
  In (b ++ "." ++ ext)%string files ->
  exists parts,
    dict_get (group_bases files) b = Some parts
    /\ dict_get parts ext = Some (b ++ "." ++ ext)%string.
Proof.
  intros Hext Hin.
  assert (R : rsplit_once "."%char (b ++ "." ++ ext) = Some (b, ext))
    by (apply (rsplit_once_app "."%char b ext); destruct Hext as [->| ->];
        reflexivity).
  assert (Hacc : (endswith (b ++ "." ++ ext) ".out"
                  || endswith (b ++ "." ++ ext) ".err") = true).
  { destruct Hext as [->| ->].
    - change (b ++ "." ++ "out")%string with (b ++ ".out")%string.
      now rewrite endswith_out.
    - change (b ++ "." ++ "err")%string with (b ++ ".err")%string.
      rewrite endswith_err. apply orb_true_r. }
  destruct (fold_add_file_part files [] _ _ _ Hacc R (or_introl Hin))
    as (parts & f & Hb & Hp).
  exists parts. split; [exact Hb|].
  destruct (group_bases_wf files) as [_ Hsplit].
  pose proof (Hsplit _ _ _ _ Hb Hp) as R'.
  apply rsplit_once_inv in R'. now rewrite Hp, R'.
Qed.

Lemma group_bases_lookup (files : list string) (b ext : string)
      (parts : dict string) :
  ext = "out" \/ ext = "err" ->
  dict_get (group_bases files) b = Some parts ->
  dict_get parts ext
  = if mem (b ++ "." ++ ext)%string files
    then Some (b ++ "." ++ ext)%string else None.
Proof.
  intros Hext G. destruct (mem (b ++ "." ++ ext)%string files) eqn:M.
  - apply mem_true_iff in M.
    destruct (group_bases_part files b ext Hext M) as (parts' & G' & Hp).
    congruence.
  - apply mem_false_iff in M.
    destruct (dict_get parts ext) as [g|] eqn:Hp; [|reflexivity].
    exfalso. apply M.
    destruct (group_bases_wf files) as [_ Hsplit].
    pose proof (Hsplit _ _ _ _ G Hp) as R. apply rsplit_once_inv in R.
    destruct (group_bases_origin files b parts G) as [_ Ho].
    destruct (Ho ext g Hp) as [Hin _]. rewrite R in Hin. exact Hin.
Qed.

(** X15. The jobs of a listing are exactly the names [b] for which
    [b.out] or [b.err] is listed; the entry of a job holds [b.out] under
    [out] when that file is listed and nothing otherwise, and likewise for
    [err].  Files with other endings play no part. *)
Theorem jobs_are_bases_of_out_and_err_files :
  forall (files : list string) (b : string),
    (In b (keys (group_bases files)) <->
     In (b ++ ".out")%string files \/ In (b ++ ".err")%string files)
    /\ forall parts,
         dict_get (group_bases files) b = Some parts ->
         dict_get parts "out"
         = (if mem (b ++ ".out")%string files
            then Some (b ++ ".out")%string else None)
         /\ dict_get parts "err"
            = (if mem (b ++ ".err")%string files
               then Some (b ++ ".err")%string else None).
Proof.
  intros files b. split.
  - split.
    + intros Hk. apply dict_get_of_key in Hk as [parts G].
      destruct (group_bases_origin files b parts G) as [Hne Ho].
      destruct parts as [|[ext g] parts]; [congruence|].
      assert (Hp : dict_get ((ext, g) :: parts) ext = Some g)
        by (simpl; now rewrite String.eqb_refl).
      destruct (Ho ext g Hp) as [Hin Hacc].
      destruct (group_bases_wf files) as [_ Hsplit].
      pose proof (Hsplit _ _ _ _ G Hp) as R.
      destruct (accepted_split _ _ _ Hacc R) as [[->| ->] ->] ;
        [now left | now right].
    + intros [H|H].
      * destruct (group_bases_part files b "out" (or_introl eq_refl) H)
          as (parts & G & _).
        apply dict_get_In in G. change b with (fst (b, parts)).
        now apply in_map.
      * destruct (group_bases_part files b "err" (or_intror eq_refl) H)
          as (parts & G & _).
        apply dict_get_In in G. change b with (fst (b, parts)).
        now apply in_map.
  - intros parts G. split.
    + apply (group_bases_lookup files b "out" parts); [now left | exact G].
    + apply (group_bases_lookup files b "err" parts); [now right | exact G].
Qed.

Lemma jobs_are_bases_of_out_and_err_files_witness :
  keys (group_bases ["run.log"; "j1.err"; "notes.txt"; "j2.out"; "j1.out"])
  = ["j1"; "j2"]
  /\ In "j2" (keys (group_bases
                     ["run.log"; "j1.err"; "notes.txt"; "j2.out"; "j1.out"])).
Proof.
  split; [reflexivity|].
  apply (jobs_are_bases_of_out_and_err_files
           ["run.log"; "j1.err"; "notes.txt"; "j2.out"; "j1.out"] "j2").
  left. simpl. do 3 right. left. reflexivity.
Defined.

(** ** The scan for run metadata *)

Lemma meta_step_readable (d : meta) (m : captures) :
  meta_readable m ->
  meta_step d m
  = (mkMeta
       (if nonempty (group 1 m)
        then match float_of_decimal (group 1 m) with
             | Ok t => Some t
             | Raise _ => None
             end
        else m_moveTime d)
       (if nonempty (group 2 m) then Some (digits_value (group 2 m))
        else m_gamesPerMatchup d)
       (if nonempty (group 3 m) then Some (digits_value (group 3 m))
        else m_maxMoves d)
       (if nonempty (group 4 m) then Some (digits_value (group 4 m))
        else m_cpus d)
       (if nonempty (group 5 m) then Some (group 5 m) else m_mem d),
     None).
Proof.
  intros [H1 Hc]. unfold moveTime_readable in H1.
  assert (H2 : nonempty (group 2 m) = true ->
               int_of_digits (group 2 m) = Ok (digits_value (group 2 m))).
  { intros H. destruct (Hc 2%nat) as [n Hn]; [simpl; tauto | exact H |].
    now rewrite Hn, (int_of_digits_value _ _ Hn). }
  assert (H3 : nonempty (group 3 m) = true ->
               int_of_digits (group 3 m) = Ok (digits_value (group 3 m))).
  { intros H. destruct (Hc 3%nat) as [n Hn]; [simpl; tauto | exact H |].
    now rewrite Hn, (int_of_digits_value _ _ Hn). }
  assert (H4 : nonempty (group 4 m) = true ->
               int_of_digits (group 4 m) = Ok (digits_value (group 4 m))).
  { intros H. destruct (Hc 4%nat) as [n Hn]; [simpl; tauto | exact H |].
    now rewrite Hn, (int_of_digits_value _ _ Hn). }
  unfold meta_step, bind.
  destruct (nonempty (group 1 m));
    [destruct (H1 eq_refl) as [t ->]|];
    (destruct (nonempty (group 2 m)); [rewrite (H2 eq_refl)|]);
    (destruct (nonempty (group 3 m)); [rewrite (H3 eq_refl)|]);
    (destruct (nonempty (group 4 m)); [rewrite (H4 eq_refl)|]);
    destruct (nonempty (group 5 m)); destruct d; reflexivity.
Qed.

Lemma meta_loop_last (ms : list captures) (d : meta) :
  Forall meta_readable ms ->
  m_moveTime (meta_loop d ms)
  = match last_group 1 ms with
    | Some s => match float_of_decimal s with
                | Ok t => Some t
                | Raise _ => None
                end
    | None => m_moveTime d
    end
  /\ m_gamesPerMatchup (meta_loop d ms)
     = match last_group 2 ms with
       | Some s => Some (digits_value s)
       | None => m_gamesPerMatchup d
       end
  /\ m_maxMoves (meta_loop d ms)
     = match last_group 3 ms with
       | Some s => Some (digits_value s)
       | None => m_maxMoves d
       end
  /\ m_cpus (meta_loop d ms)
     = match last_group 4 ms with
       | Some s => Some (digits_value s)
       | None => m_cpus d
       end
  /\ m_mem (meta_loop d ms)
     = match last_group 5 ms with
       | Some s => Some s
       | None => m_mem d
       end.
Proof.
  revert d. induction ms as [|m ms IH]; intros d Hall; simpl.
  - repeat split.
  - inversion Hall as [|? ? Hm Hms]; subst.
    rewrite (meta_step_readable d m Hm).
    destruct (IH (fst (meta_step d m)) Hms) as (I1 & I2 & I3 & I4 & I5).
    rewrite (meta_step_readable d m Hm) in I1, I2, I3, I4, I5.
    cbn [fst] in I1, I2, I3, I4, I5.
    rewrite I1, I2, I3, I4, I5. cbn [m_moveTime m_gamesPerMatchup m_maxMoves
                                      m_cpus m_mem].
    destruct (last_group 1 ms), (last_group 2 ms), (last_group 3 ms),
      (last_group 4 ms), (last_group 5 ms);
      destruct (nonempty (group 1 m)), (nonempty (group 2 m)),
        (nonempty (group 3 m)), (nonempty (group 4 m)),
        (nonempty (group 5 m)); repeat split.
Qed.

(** Every match of [META_RE] comes from one alternative and holds the
    text of that alternative's group only. *)
Lemma star_match_result {A : Type} (p : ascii -> bool) (s : string) :
  forall (pos : nat) (k : nat -> string -> option A) (a : A),
    star_match p pos s k = Some a -> exists pos' s', k pos' s' = Some a.
Proof.
  induction s as [|c s IH]; intros pos k a; simpl.
  - intros H. now exists pos, "".
  - destruct (p c).
    + destruct (star_match p (S pos) s k) as [a'|] eqn:M.
      * intros H. injection H as <-. now apply (IH (S pos)).
      * intros H. now exists pos, (String c s).
    + intros H. now exists pos, (String c s).
Qed.

Lemma alternative_single (L : string) (i : nat) (p : ascii -> bool)
      (s : string) (n : nat) (cs : captures) :
  rmatch false (seq [Lit L; Grp i (Plus p)]) 0 s []
         (fun pos' _ cs => Some (pos', cs)) = Some (n, cs) ->
  exists t, cs = [(i, t)].
Proof.
  cbn [seq rmatch].
  destruct (lit_match false L s) as [s'|]; [|discriminate].
  destruct s' as [|c s']; [discriminate|].
  destruct (p c); [|discriminate].
  intros H. apply star_match_result in H as (pos' & s'' & H).
  injection H as _ <-. now eexists.
Qed.

Lemma first_alternative_META (s : string) (n : nat) (cs : captures) :
  first_alternative META_RE s = Some (n, cs) -> exists i t, cs = [(i, t)].
Proof.
  unfold META_RE. cbn [first_alternative].
  repeat match goal with
         | |- context [match ?r with Some _ => _ | None => _ end] =>
             let R := fresh "R" in
             destruct r as [[? ?]|] eqn:R;
             [ intros H; injection H as <- <-;
               apply alternative_single in R as [t ->]; now eexists _, _ |]
         end.
  discriminate.
Qed.

Lemma finditer_go_single (s : string) :
  forall (skip : nat) (m : captures),
    In m (finditer_go META_RE skip s) -> exists i t, m = [(i, t)].
Proof.
  induction s as [|c s IH]; intros skip m; cbn [finditer_go]; [intros []|].
  destruct skip as [|k]; [|apply IH].
  destruct (first_alternative META_RE (String c s)) as [[[|n] cs]|] eqn:F;
    try apply IH.
  cbn [In]. intros [<-|H]; [|now apply (IH n)].
  now apply first_alternative_META in F.
Qed.

(** On such a match the step either converts what it finds or raises
    before it assigns anything. *)
Lemma meta_step_single (d : meta) (i : nat) (t : string) :
  meta_readable [(i, t)]
  \/ exists e, meta_step d [(i, t)] = (d, Some e).
Proof.
  destruct i as [|[|[|[|[|i]]]]];
    try (left; split;
         [ intros H; simpl in H; discriminate H
         | intros j [<-|[<-|[<-|[]]]] H; simpl in H; discriminate H ]).
  - destruct (nonempty t) eqn:Ne;
      [destruct (float_of_decimal t) as [v|e] eqn:F|].
    + left. split; [intros _; simpl; now exists v|].
      intros j [<-|[<-|[<-|[]]]] H; simpl in H; discriminate H.
    + right. exists e. unfold meta_step, bind. cbn [group Nat.eqb].
      now rewrite Ne, F.
    + left. split; [intros H; simpl in H; congruence|].
      intros j [<-|[<-|[<-|[]]]] H; simpl in H; discriminate H.
  - destruct (nonempty t) eqn:Ne;
      [destruct (int_of_digits t) as [v|e] eqn:F|].
    + left. split; [intros H; simpl in H; discriminate H|].
      intros j [<-|[<-|[<-|[]]]] H; simpl in H;
        first [discriminate H | simpl; now exists v].
    + right. exists e. unfold meta_step, bind. cbn [group Nat.eqb].
      change (nonempty "") with false. cbv iota. now rewrite Ne, F.
    + left. split; [intros H; simpl in H; discriminate H|].
      intros j [<-|[<-|[<-|[]]]] H; simpl in H;
        first [discriminate H | congruence].
  - destruct (nonempty t) eqn:Ne;
      [destruct (int_of_digits t) as [v|e] eqn:F|].
    + left. split; [intros H; simpl in H; discriminate H|].
      intros j [<-|[<-|[<-|[]]]] H; simpl in H;
        first [discriminate H | simpl; now exists v].
    + right. exists e. unfold meta_step, bind. cbn [group Nat.eqb].
      change (nonempty "") with false. cbv iota. now rewrite Ne, F.
    + left. split; [intros H; simpl in H; discriminate H|].
      intros j [<-|[<-|[<-|[]]]] H; simpl in H;
        first [discriminate H | congruence].
  - destruct (nonempty t) eqn:Ne;
      [destruct (int_of_digits t) as [v|e] eqn:F|].
    + left. split; [intros H; simpl in H; discriminate H|].
      intros j [<-|[<-|[<-|[]]]] H; simpl in H;
        first [discriminate H | simpl; now exists v].
    + right. exists e. unfold meta_step, bind. cbn [group Nat.eqb].
      change (nonempty "") with false. cbv iota. now rewrite Ne, F.
    + left. split; [intros H; simpl in H; discriminate H|].
      intros j [<-|[<-|[<-|[]]]] H; simpl in H;
        first [discriminate H | congruence].
Qed.

Lemma meta_loop_stops (pre post : list captures) (i : nat) (t : string)
      (d : meta) :
  Forall meta_readable pre ->
  ~ meta_readable [(i, t)] ->
  meta_loop d (pre ++ [(i, t)] :: post) = meta_loop d pre.
Proof.
  intros Hpre Hm. revert d.
  induction Hpre as [|x pre Hx _ IH]; intros d.
  - cbn [app meta_loop].
    destruct (meta_step_single d i t) as [H|[e ->]]; [contradiction|].
    reflexivity.
  - cbn [app meta_loop]. rewrite (meta_step_readable d x Hx). apply IH.
Qed.

Lemma meta_unreadable (m : captures) :
  ~ meta_readable m <->
  (nonempty (group 1 m) = true
   /\ float_of_decimal (group 1 m) = Raise ValueError_float)
  \/ exists i, In i [2; 3; 4]%nat
               /\ nonempty (group i m) = true
               /\ int_of_digits (group i m) = Raise ValueError_int.
Proof.
  split.
  - intros H.
    destruct (nonempty (group 1 m)) eqn:N1.
    + destruct (float_of_decimal (group 1 m)) as [v|e] eqn:F.
      2:{ left. split; [reflexivity|].
          f_equal. now apply (float_of_decimal_raises _ _ F). }
      right.
      assert (D : forall i, nonempty (group i m) = true
                            /\ int_of_digits (group i m) = Raise ValueError_int
                            \/ (nonempty (group i m) = true ->
                                exists n, int_of_digits (group i m) = Ok n)).
      { intros i. destruct (nonempty (group i m)); [|right; discriminate].
        destruct (int_of_digits (group i m)) as [n|e] eqn:I.
        - right. intros _. now exists n.
        - left. split; [reflexivity|].
          f_equal. now apply (int_of_digits_raises _ _ I). }
      destruct (D 2%nat) as [D2|D2]; [exists 2%nat; simpl; tauto|].
      destruct (D 3%nat) as [D3|D3]; [exists 3%nat; simpl; tauto|].
      destruct (D 4%nat) as [D4|D4]; [exists 4%nat; simpl; tauto|].
      exfalso. apply H. split; [intros _; now exists v|].
      intros i [<-|[<-|[<-|[]]]]; assumption.
    + right.
      assert (D : forall i, nonempty (group i m) = true
                            /\ int_of_digits (group i m) = Raise ValueError_int
                            \/ (nonempty (group i m) = true ->
                                exists n, int_of_digits (group i m) = Ok n)).
      { intros i. destruct (nonempty (group i m)); [|right; discriminate].
        destruct (int_of_digits (group i m)) as [n|e] eqn:I.
        - right. intros _. now exists n.
        - left. split; [reflexivity|].
          f_equal. now apply (int_of_digits_raises _ _ I). }
      destruct (D 2%nat) as [D2|D2]; [exists 2%nat; simpl; tauto|].
      destruct (D 3%nat) as [D3|D3]; [exists 3%nat; simpl; tauto|].
      destruct (D 4%nat) as [D4|D4]; [exists 4%nat; simpl; tauto|].
      exfalso. apply H. split; [intros N1'; congruence|].
      intros i [<-|[<-|[<-|[]]]]; assumption.
  - intros [[N1 F]|(i & Hi & Ni & I)] [H1 Hc].
    + destruct (H1 N1) as [v Hv]. congruence.
    + destruct (Hc i Hi Ni) as [n Hn]. congruence.
Qed.

(** X16. The metadata scan never fails, and while every text it meets
    converts ([float] accepts each [moveTime] text and [int] each count,
    which it does up to 4300 digits) each field ends with the value of
    its last occurrence in the text, or [None] without one.  The first
    text that does not convert ends the scan silently: the fields keep
    the values of the occurrences before it and everything after it is
    ignored.  Every row of the dataset carries the metadata scanned from
    the log of its job. *)
Theorem metadata_last_occurrence_wins :
  forall (txt : string),
    (Forall meta_readable (finditer META_RE txt) ->
     m_moveTime (parse_meta txt)
     = match last_group 1 (finditer META_RE txt) with
       | Some s => match float_of_decimal s with
                   | Ok t => Some t
                   | Raise _ => None
                   end
       | None => None
       end
     /\ m_gamesPerMatchup (parse_meta txt)
        = option_map digits_value (last_group 2 (finditer META_RE txt))
     /\ m_maxMoves (parse_meta txt)
        = option_map digits_value (last_group 3 (finditer META_RE txt))
     /\ m_cpus (parse_meta txt)
        = option_map digits_value (last_group 4 (finditer META_RE txt))
     /\ m_mem (parse_meta txt) = last_group 5 (finditer META_RE txt))
    /\ (forall pre m post,
           finditer META_RE txt = pre ++ m :: post ->
           Forall meta_readable pre ->
           ~ meta_readable m ->
           parse_meta txt = meta_loop empty_meta pre)
    /\ (forall m,
           ~ meta_readable m <->
           (nonempty (group 1 m) = true
            /\ float_of_decimal (group 1 m) = Raise ValueError_float)
           \/ exists i, In i [2; 3; 4]%nat
                        /\ (4300 < N.of_nat (String.length (group i m)))%N)
    /\ (forall results_dir games_df rows r,
           build_dataset results_dir games_df = Ok rows ->
           In r rows ->
           exists parts out text,
             dict_get (group_bases (listdir results_dir)) (job_base r)
             = Some parts
             /\ dict_get parts "out" = Some out
             /\ read_text results_dir out = Ok text
             /\ run_meta r = parse_meta text).
Proof.
  intros txt. split; [|split; [|split]];
    [unfold parse_meta..|].
  - intros Hall.
    destruct (meta_loop_last (finditer META_RE txt) empty_meta Hall)
      as (E1 & E2 & E3 & E4 & E5).
    rewrite E1, E2, E3, E4, E5. simpl.
    destruct (last_group 1 _), (last_group 2 _), (last_group 3 _),
      (last_group 4 _), (last_group 5 _); repeat split.
  - intros pre m post E Hpre Hm. rewrite E.
    assert (Hin : In m (finditer META_RE txt)) by (rewrite E; apply in_elt).
    apply finditer_go_single in Hin as (i & t & ->).
    now apply meta_loop_stops.
  - intros m. rewrite meta_unreadable. split.
    + intros [H|(i & Hi & _ & I)]; [now left | right].
      exists i. split; [exact Hi|]. now apply int_of_digits_rejects.
    + intros [H|(i & Hi & L)]; [now left | right].
      exists i. split; [exact Hi|]. split.
      * destruct (group i m); [simpl in L; lia | reflexivity].
      * now apply int_of_digits_rejects.
  - intros results_dir games_df rows r Hb Hr.
    destruct (build_dataset_In _ _ _ _ Hb Hr) as (parts & Hg & P).
    destruct (process_job_meta _ _ _ _ _ _ P) as (out & text & Ho & Ht & Hm).
    now exists parts, out, text.
Qed.

(** The second [moveTime] is no decimal literal: [cpus=8] is the last
    value read and [cpus=16] is never seen. *)
Lemma metadata_last_occurrence_wins_witness :
  parse_meta "moveTime=0.5 cpus=4 mem=8G, cpus=8 moveTime=1.2.3 cpus=16"
  = mkMeta (Some (FNum (5 # 10))) None None (Some 8%N) (Some "8G")
  /\ parse_meta "moveTime=0.5 cpus=4 mem=8G, cpus=8 moveTime=1.2.3 cpus=16"
     = meta_loop empty_meta
         [ [(1%nat, "0.5")]; [(4%nat, "4")]; [(5%nat, "8G")]; [(4%nat, "8")] ].
Proof.
  split; [reflexivity|].
  apply (proj1 (proj2 (metadata_last_occurrence_wins
                  "moveTime=0.5 cpus=4 mem=8G, cpus=8 moveTime=1.2.3 cpus=16"))
           [ [(1%nat, "0.5")]; [(4%nat, "4")]; [(5%nat, "8G")]; [(4%nat, "8")] ]
           [(1%nat, "1.2.3")] [ [(4%nat, "16")] ]).
  - reflexivity.
  - repeat (apply Forall_cons;
            [split;
             [ intros H; first [discriminate H | (eexists; reflexivity)]
             | intros i [<-|[<-|[<-|[]]]] H;
               first [discriminate H | (eexists; reflexivity)] ]|]).
    apply Forall_nil.
  - intros [H _]. destruct (H eq_refl) as [t Ht]. discriminate Ht.
Defined.

(** A count of 4301 digits ends the scan as well: [mem=8G] after it is
    never read. *)
Lemma metadata_scan_stops_at_long_count :
  parse_meta ("moveTime=0.5 cpus=" ++ String.concat "" (repeat "1" 4301)
              ++ " mem=8G")
  = mkMeta (Some (FNum (5 # 10))) None None None None.
Proof. vm_compute. reflexivity. Qed.

(** ** Distinct feature names *)

Lemma append_inj_l (a x y : string) :
  (a ++ x)%string = (a ++ y)%string -> x = y.
Proof.
  induction a as [|c a IH]; simpl; intros H; [exact H|].
  injection H as H. now apply IH.
Qed.

Lemma NoDup_flat_map_tagged {A B : Type} (f : A -> list B)
      (tag : B -> option A) (l : list A) :
  NoDup l ->
  (forall x, In x l -> NoDup (f x)) ->
  (forall x y, In x l -> In y (f x) -> tag y = Some x) ->
  NoDup (flat_map f l).
Proof.
  induction 1 as [|x l Hx Hnd IH]; intros Hf Htag; simpl; [constructor|].
  apply NoDup_app.
  - apply Hf. now left.
  - apply IH.
    + intros y Hy. apply Hf. now right.
    + intros y z Hy Hz. apply Htag; [now right | exact Hz].
  - intros y Hy Hin. apply in_flat_map in Hin as (x' & Hx' & Hy').
    assert (E1 : tag y = Some x) by (apply Htag; [now left | exact Hy]).
    assert (E2 : tag y = Some x') by (apply Htag; [now right | exact Hy']).
    rewrite E1 in E2. injection E2 as ->. contradiction.
Qed.

Lemma comp_cols_NoDup : NoDup comp_cols.
Proof.
  unfold comp_cols.
  repeat (constructor;
          [simpl; intros H;
           repeat (destruct H as [H|H]; [discriminate|]); exact H|]).
  constructor.
Qed.

(** X17. A frame with distinct column names gets distinct feature names:
    no property column and no [component=value] name occurs twice in the
    schema [build_feature_matrix] returns. *)
Theorem feature_names_are_distinct :
  forall (df : frame) (names : list string),
    NoDup (columns df) ->
    build_feature_names df = Ok names ->
    NoDup names.
Proof.
  intros df names Hnd Hn. apply build_feature_names_ok in Hn. subst names.
  apply NoDup_app.
  - now apply NoDup_filter.
  - apply (NoDup_flat_map_tagged _
             (fun y => option_map fst (split_once "="%char y))).
    + apply comp_cols_NoDup.
    + intros comp Hc. rewrite component_block_names.
      destruct (mem comp (columns df)); [|constructor].
      pose proof (vocabulary_NoDup (observed df comp)) as Hv.
      induction Hv as [|t l Ht _ IH]; simpl; constructor; [|exact IH].
      intros Hin. apply in_map_iff in Hin as (t' & E & Ht').
      apply append_inj_l in E. injection E as E. now subst.
    + intros comp y Hc Hy. rewrite component_block_names in Hy.
      destruct (mem comp (columns df)); [|contradiction].
      apply in_map_iff in Hy as (t & <- & _).
      now rewrite (split_once_component _ _ Hc).
  - intros y Hy Hin. apply filter_In in Hy as [_ Hg].
    apply in_flat_map in Hin as (comp & Hc & Hy).
    rewrite component_block_names in Hy.
    destruct (mem comp (columns df)); [|contradiction].
    apply in_map_iff in Hy as (t & <- & _).
    rewrite (block_name_not_game_col _ _ Hc) in Hg. discriminate.
Qed.

Lemma feature_names_are_distinct_witness :
  NoDup [ "game_numPlayers"; "variant_select=Greedy"; "variant_select=UCB1";
          "variant_simulation=Greedy" ].
Proof.
  apply (feature_names_are_distinct
           [ ("variant_select", [FText "UCB1"; FText "Greedy"; FText "UCB1"]);
             ("variant_simulation", [FText "Greedy"; FMissing; FText "Greedy"]);
             ("winrate", [FNumber (1 # 2) "0.5"; FMissing; FMissing]);
             ("game_numPlayers", [FNumber 2 "2"; FNumber 2 "2"; FMissing]) ]).
  - unfold columns, keys. simpl.
    repeat (constructor;
            [simpl; intros H;
             repeat (destruct H as [H|H]; [discriminate|]); exact H|]).
    constructor.
  - reflexivity.
Defined.

(** ** Property values at training and at prediction time *)

Lemma substring_full (s : string) : String.substring 0 (String.length s) s = s.
Proof. induction s as [|c s IH]; simpl; [reflexivity | now rewrite IH]. Qed.

Lemma drop_game_prefix_of (col : string) :
  drop_game_prefix ("game_" ++ col) = col.
Proof.
  unfold drop_game_prefix. simpl. rewrite Nat.sub_0_r. apply substring_full.
Qed.

Lemma dict_get_prefixed (d : dict cell) (c : string) :
  dict_get
    (map (fun cv => (("game_" ++ fst cv)%string, snd cv))
         (filter (fun cv => negb (String.eqb (fst cv) "game"
                                  || String.eqb (fst cv) "_norm")) d))
    ("game_" ++ c)
  = if String.eqb c "game" || String.eqb c "_norm" then None
    else dict_get d c.
Proof.
  induction d as [|[k v] d IH]; simpl.
  - now destruct (String.eqb c "game" || String.eqb c "_norm").
  - destruct (String.eqb_spec k c) as [->|Hne].
    + destruct (String.eqb c "game" || String.eqb c "_norm") eqn:S; simpl.
      * exact IH.
      * now rewrite String.eqb_refl.
    + destruct (String.eqb k "game" || String.eqb k "_norm"); simpl.
      * exact IH.
      * destruct (String.eqb_spec k c) as [E|_]; [congruence|]. exact IH.
Qed.

(** X18. The prefix [game_] that the builder puts before a property name
    is the one the predictor takes off: for every property column of a
    dataset row, the value [predict_winrate] reads for the feature of
    that name from the table row of the game is the value the dataset row
    stores, with NaN and the infinities read as 0. *)
Theorem prediction_reads_the_stored_property :
  forall (rec : game_record) (feature : string),
    In feature (keys (attach_props (props_dict rec))) ->
    exists col,
      feature = ("game_" ++ col)%string
      /\ drop_game_prefix feature = col
      /\ is_game_col feature = true
      /\ nan_to_num (prop_float rec (drop_game_prefix feature))
         = match dict_get (attach_props (props_dict rec)) feature with
           | Some (CNum q) => q
           | _ => 0
           end.
Proof.
  intros rec feature Hin.
  pose proof (attach_props_spec (props_dict rec)
                (dict_of_pairs_NoDup (g_cols rec))) as Hs.
  rewrite Hs in Hin. rewrite Hs. clear Hs.
  unfold keys in Hin. rewrite map_map in Hin.
  apply in_map_iff in Hin as ([c v] & <- & Hcv). cbn [fst snd].
  apply filter_In in Hcv as [_ Hkeep]. simpl in Hkeep.
  exists c. rewrite drop_game_prefix_of, dict_get_prefixed.
  repeat split.
  - unfold is_game_col, startswith. simpl. apply prefix_empty.
  - unfold prop_float.
    destruct (String.eqb c "game"); [discriminate|].
    destruct (String.eqb c "_norm"); [discriminate|]. cbn [orb].
    destruct (dict_get (props_dict rec) c) as [[q|b|]|]; reflexivity.
Qed.

Lemma prediction_reads_the_stored_property_witness :
  nan_to_num
    (prop_float (mkGame (NText "Hex") [("numPlayers", CNum 2); ("boardSize", CNaN)])
                (drop_game_prefix "game_numPlayers")) = 2
  /\ exists col, "game_boardSize" = ("game_" ++ col)%string.
Proof.
  split; [reflexivity|].
  destruct (prediction_reads_the_stored_property
              (mkGame (NText "Hex") [("numPlayers", CNum 2); ("boardSize", CNaN)])
              "game_boardSize") as (col & E & _).
  - simpl. right. left. reflexivity.
  - now exists col.
Defined.

(** ** The label patterns of the log parser *)

Lemma lower_length (s : string) : String.length (lower s) = String.length s.
Proof. induction s as [|c s IH]; simpl; [reflexivity | now rewrite IH]. Qed.

Lemma lit_match_label (L label rest : string) :
  lower label = lower L ->
  lit_match true L (label ++ rest) = Some rest.
Proof.
  revert label. induction L as [|a L IH]; intros label H.
  - destruct label; [reflexivity | discriminate].
  - destruct label as [|c label]; [discriminate|].
    simpl in H. injection H as Hc Hl. simpl. unfold char_eq.
    rewrite Hc, Ascii.eqb_refl. now apply IH.
Qed.

Lemma lit_match_inv (L s rest : string) :
  lit_match true L s = Some rest ->
  exists label, s = (label ++ rest)%string /\ lower label = lower L.
Proof.
  revert s. induction L as [|a L IH]; intros s; simpl.
  - intros H. injection H as ->. now exists "".
  - destruct s as [|c s]; [discriminate|]. unfold char_eq.
    destruct (Ascii.eqb_spec (lower_char a) (lower_char c)) as [E|_];
      [|discriminate].
    intros H. destruct (IH s H) as (label & -> & Hl).
    exists (String c label). simpl. now rewrite Hl, E.
Qed.

Lemma star_match_to_end {A : Type} (p : ascii -> bool) (s : string)
      (pos : nat) (k : nat -> string -> option A) (a : A) :
  all_chars p s = true ->
  k (pos + String.length s)%nat "" = Some a ->
  star_match p pos s k = Some a.
Proof.
  revert pos. induction s as [|c s IH]; intros pos Hall Hk; simpl in *.
  - now rewrite Nat.add_0_r in Hk.
  - apply andb_true_iff in Hall as [Hc Hs]. rewrite Hc.
    rewrite (IH (S pos) Hs); [reflexivity|].
    now rewrite Nat.add_succ_r in Hk.
Qed.

Lemma star_match_run {A : Type} (p : ascii -> bool) (run t : string)
      (pos : nat) (k : nat -> string -> option A) (a : A) :
  all_chars p run = true ->
  match t with EmptyString => True | String c _ => p c = false end ->
  k (pos + String.length run)%nat t = Some a ->
  star_match p pos (run ++ t) k = Some a.
Proof.
  revert pos. induction run as [|c run IH]; intros pos Hall Ht Hk; simpl in *.
  - rewrite Nat.add_0_r in Hk. destruct t as [|c t]; simpl; [exact Hk|].
    now rewrite Ht.
  - apply andb_true_iff in Hall as [Hc Hs]. rewrite Hc.
    rewrite (IH (S pos) Hs Ht); [reflexivity|].
    now rewrite Nat.add_succ_r in Hk.
Qed.

Lemma lstrip_run (s : string) :
  exists run, s = (run ++ lstrip s)%string /\ all_chars is_space run = true.
Proof.
  induction s as [|c s (run & E & Hr)]; simpl.
  - now exists "".
  - destruct (is_space c) eqn:Hc.
    + exists (String c run). simpl. now rewrite Hc, Hr, <- E.
    + now exists "".
Qed.

Lemma lstrip_head (s : string) :
  match lstrip s with EmptyString => True | String c _ => is_space c = false end.
Proof.
  induction s as [|c s IH]; simpl; [exact I|].
  destruct (is_space c) eqn:Hc; [exact IH | exact Hc].
Qed.

Lemma lstrip_idempotent (s : string) : lstrip (lstrip s) = lstrip s.
Proof.
  pose proof (lstrip_head s) as H. destruct (lstrip s) as [|c t]; simpl.
  - reflexivity.
  - now rewrite H.
Qed.

Lemma all_chars_app (p : ascii -> bool) (a b : string) :
  all_chars p (a ++ b) = all_chars p a && all_chars p b.
Proof.
  induction a as [|c a IH]; simpl; [reflexivity|].
  now rewrite IH, andb_assoc.
Qed.

(** The pattern [^<label>\s*(.+)$]. *)
Lemma label_pattern_match (L label rest : string) :
  lower label = lower L ->
  all_chars dot rest = true ->
  lstrip rest <> "" ->
  re_match true
    (seq [ Bol; Lit L; Star is_space; Grp 1 (Plus dot); Eol ])
    (label ++ rest)
  = Some [(1%nat, lstrip rest)].
Proof.
  intros Hl Hdot Hne. unfold re_match. cbn [seq rmatch Nat.eqb].
  rewrite (lit_match_label _ _ _ Hl).
  destruct (lstrip_run rest) as (run & E & Hrun).
  pose proof (lstrip_head rest) as Hhead.
  assert (Hdot' : all_chars dot (lstrip rest) = true).
  { rewrite E, all_chars_app in Hdot. now apply andb_true_iff in Hdot. }
  rewrite E at 1.
  apply star_match_run; [exact Hrun | exact Hhead |].
  destruct (lstrip rest) as [|c t] eqn:T; [congruence|].
  cbn [all_chars] in Hdot'. apply andb_true_iff in Hdot' as [Hc Ht].
  cbn [rmatch]. rewrite Hc.
  apply star_match_to_end; [exact Ht|].
  cbn [is_empty orb].
  replace (S (0 + String.length L + String.length run) + String.length t
           - (0 + String.length L + String.length run))%nat
    with (S (String.length t)) by lia.
  change (S (String.length t)) with (String.length (String c t)).
  now rewrite substring_full.
Qed.

Lemma label_pattern_alone (L label : string) :
  lower label = lower L ->
  re_match true
    (seq [ Bol; Lit L; Star is_space; Grp 1 (Plus dot); Eol ]) label
  = None.
Proof.
  intros Hl. unfold re_match. cbn [seq rmatch Nat.eqb].
  rewrite <- (append_empty_r label) at 1.
  rewrite (lit_match_label _ _ _ Hl). reflexivity.
Qed.

Lemma label_pattern_needs_label (L s : string) (cs : captures) :
  re_match true
    (seq [ Bol; Lit L; Star is_space; Grp 1 (Plus dot); Eol ]) s = Some cs ->
  exists label rest, s = (label ++ rest)%string /\ lower label = lower L.
Proof.
  unfold re_match. cbn [seq rmatch Nat.eqb].
  destruct (lit_match true L s) as [rest|] eqn:M; [|discriminate].
  intros _. destruct (lit_match_inv _ _ _ M) as (label & E & Hl).
  now exists label, rest.
Qed.

(** X19. A stripped line (of characters below code point 256) sets the
    game exactly as follows: it must start with [game:] in any letter
    case; the name is what follows the label, without surrounding
    whitespace; and the label with nothing after it sets no game.  The
    same holds for the variant with the label [variant:]: a line that
    sets the variant starts with that label, and a line that starts with
    it sets the variant to what follows. *)
Theorem label_lines_capture_the_rest :
  forall (label rest : string),
    all_chars dot rest = true ->
    strip (label ++ rest) = (label ++ rest)%string ->
    (lower label = "game:" ->
     (lstrip rest <> "" -> game_line (label ++ rest) = Some (strip rest))
     /\ game_line label = None)
    /\ (lower label = "variant:" ->
        (lstrip rest <> "" -> variant_line (label ++ rest) = Some (strip rest))
        /\ variant_line label = None)
    /\ (forall raw,
           game_line raw <> None ->
           exists label' rest',
             strip raw = (label' ++ rest')%string /\ lower label' = "game:")
    /\ (forall raw,
           variant_line raw <> None ->
           exists label' rest',
             strip raw = (label' ++ rest')%string
             /\ lower label' = "variant:").
Proof.
  intros label rest Hdot Hstrip.
  assert (Hs : forall s, strip (lstrip s) = strip s)
    by (intros s; unfold strip; now rewrite lstrip_idempotent).
  split; [|split; [|split]].
  - intros Hl. split.
    + intros Hne. unfold game_line.
      assert (Hemp : is_empty (label ++ rest) = false)
        by (destruct label; [discriminate Hl | reflexivity]).
      rewrite Hstrip, Hemp.
      change GAME_RE
        with (seq [ Bol; Lit "Game:"; Star is_space; Grp 1 (Plus dot); Eol ]).
      rewrite (label_pattern_match "Game:" label rest Hl Hdot Hne).
      simpl. now rewrite Hs.
    + unfold game_line.
      destruct (is_empty (strip label)); [reflexivity|].
      destruct (re_match true GAME_RE (strip label)) as [cs|] eqn:M;
        [|reflexivity].
      exfalso. revert M.
      change GAME_RE
        with (seq [ Bol; Lit "Game:"; Star is_space; Grp 1 (Plus dot); Eol ]).
      assert (E : strip label = label).
      { destruct label as [|c1 [|c2 [|c3 [|c4 [|c5 [|c6 l]]]]]];
          try discriminate Hl.
        simpl in Hl. injection Hl as H1 H2 H3 H4 H5.
        unfold strip, rstrip, str_rev. simpl.
        destruct c5 as [[] [] [] [] [] [] [] []]; try discriminate H5.
        destruct c1 as [[] [] [] [] [] [] [] []]; try discriminate H1;
          reflexivity. }
      rewrite E, (label_pattern_alone "Game:" label Hl). discriminate.
  - intros Hl.
    assert (Hg : re_match true GAME_RE (label ++ rest) = None
                 /\ re_match true GAME_RE label = None).
    { destruct label as [|c1 l]; [discriminate|].
      simpl in Hl. injection Hl as H1 _.
      unfold re_match. cbn [GAME_RE seq rmatch Nat.eqb]. simpl.
      unfold char_eq. rewrite H1. split; reflexivity. }
    destruct Hg as [Hg1 Hg2]. split.
    + intros Hne. unfold variant_line.
      assert (Hemp : is_empty (label ++ rest) = false)
        by (destruct label; [discriminate Hl | reflexivity]).
      rewrite Hstrip, Hemp, Hg1.
      change VARIANT_RE
        with (seq [ Bol; Lit "Variant:"; Star is_space; Grp 1 (Plus dot); Eol ]).
      rewrite (label_pattern_match "Variant:" label rest Hl Hdot Hne).
      simpl. now rewrite Hs.
    + unfold variant_line.
      destruct (is_empty (strip label)); [reflexivity|].
      destruct (re_match true GAME_RE (strip label)); [reflexivity|].
      destruct (re_match true VARIANT_RE (strip label)) as [cs|] eqn:M;
        [|reflexivity].
      exfalso. revert M.
      change VARIANT_RE
        with (seq [ Bol; Lit "Variant:"; Star is_space; Grp 1 (Plus dot); Eol ]).
      assert (E : strip label = label).
      { destruct label
          as [|c1 [|c2 [|c3 [|c4 [|c5 [|c6 [|c7 [|c8 [|c9 l]]]]]]]]];
          try discriminate Hl.
        simpl in Hl. injection Hl as H1 H2 H3 H4 H5 H6 H7 H8.
        unfold strip, rstrip, str_rev. simpl.
        destruct c8 as [[] [] [] [] [] [] [] []]; try discriminate H8.
        destruct c1 as [[] [] [] [] [] [] [] []]; try discriminate H1;
          reflexivity. }
      rewrite E, (label_pattern_alone "Variant:" label Hl). discriminate.
  - intros raw Hg. unfold game_line in Hg.
    destruct (is_empty (strip raw)); [congruence|].
    destruct (re_match true GAME_RE (strip raw)) as [cs|] eqn:M;
      [|now elim Hg].
    now apply (label_pattern_needs_label "Game:" _ cs).
  - intros raw Hv. unfold variant_line in Hv.
    destruct (is_empty (strip raw)); [congruence|].
    destruct (re_match true GAME_RE (strip raw)); [congruence|].
    destruct (re_match true VARIANT_RE (strip raw)) as [cs|] eqn:M;
      [|now elim Hv].
    now apply (label_pattern_needs_label "Variant:" _ cs).
Qed.

Lemma label_lines_capture_the_rest_witness :
  game_line "GAME:   Hex 11" = Some "Hex 11"
  /\ variant_line "variant:UCB1|Random" = Some "UCB1|Random"
  /\ game_line "Game:" = None.
Proof.
  pose proof (label_lines_capture_the_rest "GAME:" "   Hex 11"
                eq_refl eq_refl) as (Hg & _ & _ & _).
  pose proof (label_lines_capture_the_rest "variant:" "UCB1|Random"
                eq_refl eq_refl) as (_ & Hv & _ & _).
  pose proof (label_lines_capture_the_rest "Game:" "" eq_refl eq_refl)
    as (Hn & _ & _ & _).
  split; [|split].
  - apply (proj1 (Hg eq_refl)). discriminate.
  - apply (proj1 (Hv eq_refl)). discriminate.
  - apply (proj2 (Hn eq_refl)).
Defined.

(** ** What a query depends on *)

Lemma variant_by_comp_of_components (parts1 parts2 : list string) :
  map snd (variant_by_comp parts1) = map snd (variant_by_comp parts2) ->
  variant_by_comp parts1 = variant_by_comp parts2.
Proof.
  unfold variant_by_comp. simpl. intros H.
  injection H as H0 H1 H2 H3. now rewrite H0, H1, H2, H3.
Qed.

Lemma token_feature_of_components (parts1 parts2 : list string)
      (feature : string) :
  variant_by_comp parts1 = variant_by_comp parts2 ->
  split_once "="%char feature <> None ->
  token_feature parts1 feature = token_feature parts2 feature.
Proof.
  intros Hv Hs. unfold token_feature, comp_value.
  destruct (split_once "="%char feature) as [[comp val]|]; [|congruence].
  now rewrite Hv.
Qed.

(** X20. With a schema returned by [build_feature_matrix], the query
    vector depends on the game name only through its normalised form and
    on the variant string only through its four components: tokens after
    the fourth, and whitespace around tokens, have no influence on the
    prediction. *)
Theorem prediction_depends_on_key_and_components :
  forall (df : frame) (names : list string) (model : list Q -> Q)
         (games_df : table) (game1 game2 variant1 variant2 : string),
    build_feature_names df = Ok names ->
    normalize_name (NText game1) = normalize_name (NText game2) ->
    query_components variant1 = query_components variant2 ->
    predict_winrate (mkArtifacts (Some model) (Some names) (Some games_df))
                    game1 variant1
    = predict_winrate (mkArtifacts (Some model) (Some names) (Some games_df))
                      game2 variant2.
Proof.
  intros df names model games_df game1 game2 variant1 variant2 Hn Hg Hv.
  unfold predict_winrate. simpl.
  assert (Em : match_game_predict (norm_map_of games_df) game1
               = match_game_predict (norm_map_of games_df) game2)
    by (unfold match_game_predict; now rewrite Hg).
  rewrite Em.
  destruct (match_game_predict (norm_map_of games_df) game2) as [mapped|];
    [|reflexivity].
  destruct (first_row_named games_df mapped) as [props|]; [|reflexivity].
  assert (Eq : query_vector props names variant1
               = query_vector props names variant2);
    [|now rewrite Eq].
  unfold query_vector, token_part. do 2 f_equal.
  apply map_ext_in. intros f Hf.
  apply token_feature_of_components.
  - now apply variant_by_comp_of_components.
  - apply build_feature_names_ok in Hn. subst names.
    rewrite token_names_of_schema in Hf.
    apply in_flat_map in Hf as (comp & Hc & Hf).
    rewrite component_block_names in Hf.
    destruct (mem comp (columns df)); [|contradiction].
    apply in_map_iff in Hf as (t & <- & _).
    rewrite (split_once_component _ _ Hc). discriminate.
Qed.

Lemma prediction_depends_on_key_and_components_witness :
  let df : frame :=
    [ ("variant_select", [FText "UCB1"; FText "Greedy"]);
      ("winrate", [FNumber (1 # 2) "0.5"; FNumber (1 # 4) "0.25"]);
      ("game_n", [FNumber 2 "2"; FMissing]) ] in
  let disk :=
    mkArtifacts (Some (fun x => nth 1 x 0 / 2))
                (Some ["game_n"; "variant_select=Greedy"; "variant_select=UCB1"])
                (Some [mkGame (NText "Hex") [("n", CNum 2)]]) in
  predict_winrate disk "HEX!" " Greedy | a|b|c| UCB1"
  = predict_winrate disk "hex" "Greedy|a|b|c".
Proof.
  intros df disk.
  apply (prediction_depends_on_key_and_components df); reflexivity.
Defined.

(** ** The summary pattern *)

Lemma rmatch_cat {A : Type} (ic : bool) (r1 r2 : re) (pos : nat) (s : string)
      (cs : captures) (k : nat -> string -> captures -> option A) :
  rmatch ic (Cat r1 r2) pos s cs k
  = rmatch ic r1 pos s cs (fun pos' s' cs' => rmatch ic r2 pos' s' cs' k).
Proof. reflexivity. Qed.

Lemma lit_match_self (L rest : string) :
  lit_match false L (L ++ rest) = Some rest.
Proof.
  induction L as [|c L IH]; simpl; [reflexivity|].
  unfold char_eq. now rewrite Ascii.eqb_refl.
Qed.

Lemma rmatch_lit {A : Type} (L rest : string) (pos : nat) (cs : captures)
      (k : nat -> string -> captures -> option A) :
  rmatch false (Lit L) pos (L ++ rest) cs k
  = k (pos + String.length L)%nat rest cs.
Proof. cbn [rmatch]. now rewrite lit_match_self. Qed.

Lemma rmatch_star {A : Type} (p : ascii -> bool) (run rest : string)
      (pos : nat) (cs : captures)
      (k : nat -> string -> captures -> option A) (a : A) :
  all_chars p run = true ->
  match rest with EmptyString => True | String c _ => p c = false end ->
  k (pos + String.length run)%nat rest cs = Some a ->
  rmatch false (Star p) pos (run ++ rest) cs k = Some a.
Proof. intros H1 H2 H3. cbn [rmatch]. now apply star_match_run. Qed.

Lemma substring_prefix (d rest : string) :
  String.substring 0 (String.length d) (d ++ rest) = d.
Proof.
  induction d as [|c d IH]; simpl; [now destruct rest | now rewrite IH].
Qed.

Lemma rmatch_group {A : Type} (p : ascii -> bool) (n : nat) (d rest : string)
      (pos : nat) (cs : captures)
      (k : nat -> string -> captures -> option A) (a : A) :
  all_chars p d = true -> d <> "" ->
  match rest with EmptyString => True | String c _ => p c = false end ->
  k (pos + String.length d)%nat rest ((n, d) :: cs) = Some a ->
  rmatch false (Grp n (Plus p)) pos (d ++ rest) cs k = Some a.
Proof.
  intros Hall Hne Hrest Hk. destruct d as [|c d]; [congruence|].
  cbn [all_chars] in Hall. apply andb_true_iff in Hall as [Hc Hd].
  cbn [rmatch]. change (String c d ++ rest)%string with (String c (d ++ rest)).
  cbn iota. rewrite Hc.
  apply star_match_run; [exact Hd | exact Hrest |].
  replace (S pos + String.length d - pos)%nat with (String.length (String c d))
    by (cbn [String.length]; lia).
  change (String c (d ++ rest)) with (String c d ++ rest)%string.
  rewrite substring_prefix.
  now replace (S pos + String.length d)%nat
    with (pos + String.length (String c d))%nat by (cbn [String.length]; lia).
Qed.

Lemma summary_pattern_match
      (d1 d2 d3 d4 d5 d6 avg w1 w2 w3 w4 w5 tail : string) :
  digits d1 -> digits d2 -> digits d3 -> digits d4 -> digits d5 ->
  digits d6 ->
  all_chars digit_or_point avg = true -> avg <> "" ->
  spaces w1 -> spaces w2 -> spaces w3 -> spaces w4 -> spaces w5 ->
  match tail with
  | EmptyString => True
  | String c _ => digit_or_point c = false
  end ->
  re_search false COMPLETED_RE
            (summary_text d1 d2 d3 d4 d5 d6 avg w1 w2 w3 w4 w5 ++ tail)
  = Some [ (7%nat, avg); (6%nat, d6); (5%nat, d5); (4%nat, d4);
           (3%nat, d3); (2%nat, d2); (1%nat, d1) ].
Proof.
  intros [A1 N1] [A2 N2] [A3 N3] [A4 N4] [A5 N5] [A6 N6] Aavg Navg
         S1 S2 S3 S4 S5 Htail.
  unfold spaces in *.
  assert (M : rmatch false COMPLETED_RE 0
                (summary_text d1 d2 d3 d4 d5 d6 avg w1 w2 w3 w4 w5 ++ tail) []
                (fun _ _ cs => Some cs)
              = Some [ (7%nat, avg); (6%nat, d6); (5%nat, d5); (4%nat, d4);
                       (3%nat, d3); (2%nat, d2); (1%nat, d1) ]).
  { unfold COMPLETED_RE, summary_text. cbn [seq].
    rewrite !append_assoc.
    repeat (rewrite rmatch_cat;
            first [ rewrite rmatch_lit; cbv beta
                  | apply rmatch_group;
                    [assumption | assumption | exact eq_refl | cbv beta]
                  | apply rmatch_star;
                    [assumption | exact eq_refl | cbv beta] ]).
    apply rmatch_group; [assumption | assumption | exact Htail | reflexivity]. }
  unfold re_search.
  destruct (summary_text d1 d2 d3 d4 d5 d6 avg w1 w2 w3 w4 w5 ++ tail)%string
    eqn:E; simpl; simpl in M; now rewrite M.
Qed.

(** X21. A line whose stripped text starts with a summary
    [completed=a/b, wins=c, losses=.., draws=.., failures=.., avgMoves=m]
    converts [a], [b], [c] and [m], in this order.  When all four convert
    it sets [games] to the completed count [a] (not to the expected total
    [b]), [wins] to [c] and [avgMoves] to the value of [m], and keeps game
    and variant.  Otherwise it raises the [ValueError] of the first
    conversion that fails: of [int] for a count of more than 4300 digits,
    of [float] for an [m] that is no decimal literal. *)
Theorem summary_line_sets_counts :
  forall (data : parsed) (raw : string)
         (d1 d2 d3 d4 d5 d6 avg w1 w2 w3 w4 w5 tail : string),
    digits d1 -> digits d2 -> digits d3 -> digits d4 -> digits d5 ->
    digits d6 ->
    all_chars digit_or_point avg = true -> avg <> "" ->
    spaces w1 -> spaces w2 -> spaces w3 -> spaces w4 -> spaces w5 ->
    match tail with
    | EmptyString => True
    | String c _ => digit_or_point c = false
    end ->
    strip raw
    = (summary_text d1 d2 d3 d4 d5 d6 avg w1 w2 w3 w4 w5 ++ tail)%string ->
    parse_line data raw
    = (completed <- int_of_digits d1 ;;
       total_expected <- int_of_digits d2 ;;
       wins <- int_of_digits d3 ;;
       avg_moves <- float_of_decimal avg ;;
       Ok (mkParsed (p_game data) (p_variant data)
                    (Some wins) (Some completed) (Some avg_moves)))
    /\ (forall a,
           (N.of_nat (String.length d1) <= 4300)%N ->
           (N.of_nat (String.length d2) <= 4300)%N ->
           (N.of_nat (String.length d3) <= 4300)%N ->
           float_of_decimal avg = Ok a ->
           parse_line data raw
           = Ok (mkParsed (p_game data) (p_variant data)
                          (Some (digits_value d3)) (Some (digits_value d1))
                          (Some a))).
Proof.
  intros data raw d1 d2 d3 d4 d5 d6 avg w1 w2 w3 w4 w5 tail
         D1 D2 D3 D4 D5 D6 Aavg Navg S1 S2 S3 S4 S5 Htail Hraw.
  pose proof (summary_pattern_match d1 d2 d3 d4 d5 d6 avg w1 w2 w3 w4 w5 tail
                D1 D2 D3 D4 D5 D6 Aavg Navg S1 S2 S3 S4 S5 Htail) as M.
  assert (E : parse_line data raw
              = (completed <- int_of_digits d1 ;;
                 total_expected <- int_of_digits d2 ;;
                 wins <- int_of_digits d3 ;;
                 avg_moves <- float_of_decimal avg ;;
                 Ok (mkParsed (p_game data) (p_variant data)
                              (Some wins) (Some completed)
                              (Some avg_moves)))).
  { unfold parse_line. cbv zeta. rewrite Hraw, M.
    unfold summary_text. rewrite !append_assoc.
    reflexivity. }
  split; [exact E|].
  intros a L1 L2 L3 Ha. rewrite E. unfold int_of_digits, int_max_str_digits.
  apply N.leb_le in L1, L2, L3. rewrite L1, L2, L3. unfold bind.
  now rewrite Ha.
Qed.

Lemma summary_line_sets_counts_witness :
  parse_line (mkParsed (Some "Hex") None None None None)
             "  completed=7/10,wins=3,  losses=4, draws=0, failures=0, avgMoves=24.5 (partial) "
  = Ok (mkParsed (Some "Hex") None (Some 3%N) (Some 7%N) (Some (FNum (245 # 10)))).
Proof.
  apply (summary_line_sets_counts
           (mkParsed (Some "Hex") None None None None)
           "  completed=7/10,wins=3,  losses=4, draws=0, failures=0, avgMoves=24.5 (partial) "
           "7" "10" "3" "4" "0" "0" "24.5" "" "  " " " " " " " " (partial)");
    try reflexivity; try (split; [reflexivity | discriminate]);
    try discriminate; try (simpl; lia).
Defined.

(** ** The trainer's tokens *)

Lemma is_space_not_bar (c : ascii) :
  is_space c = true -> Ascii.eqb c "|"%char = false.
Proof.
  intros H. destruct (Ascii.eqb_spec c "|"%char) as [->|]; [|reflexivity].
  discriminate.
Qed.

Lemma star_match_fails {A : Type} (p : ascii -> bool) (run t : string)
      (pos : nat) (k : nat -> string -> option A) :
  all_chars p run = true ->
  match t with EmptyString => True | String c _ => p c = false end ->
  (forall pos' c s', p c = true -> k pos' (String c s') = None) ->
  (forall pos', k pos' t = None) ->
  star_match p pos (run ++ t) k = None.
Proof.
  intros Hall Ht Hk Hend. revert pos.
  induction run as [|c run IH]; intros pos; simpl in *.
  - destruct t as [|c t]; simpl; [apply Hend|]. rewrite Ht. apply Hend.
  - apply andb_true_iff in Hall as [Hc Hs]. rewrite Hc, (IH Hs).
    now apply Hk.
Qed.

(** No separator starts where a run of whitespace is followed by the
    end of the text or by a character other than the bar. *)
Lemma no_separator_before_word (run t : string) :
  all_chars is_space run = true ->
  match t with
  | EmptyString => True
  | String c _ => is_space c = false /\ Ascii.eqb c "|"%char = false
  end ->
  match_length BAR_RE (run ++ t) = None.
Proof.
  intros Hrun Ht. unfold match_length, BAR_RE. cbn [seq]. rewrite rmatch_cat.
  cbn [rmatch]. apply star_match_fails.
  - exact Hrun.
  - destruct t; [exact I | apply Ht].
  - intros pos' c s' Hc. cbn [lit_match]. unfold char_eq.
    rewrite Ascii.eqb_sym, (is_space_not_bar c Hc). reflexivity.
  - intros pos'. destruct t as [|c t]; [reflexivity|].
    cbn [lit_match]. unfold char_eq. destruct Ht as [_ Hb].
    rewrite Ascii.eqb_sym, Hb. reflexivity.
Qed.

Lemma lstrip_free (sep : ascii) (s : string) :
  free_of sep s -> free_of sep (lstrip s).
Proof.
  induction s as [|c s IH]; intros H; simpl; [exact H|].
  destruct (is_space c); [|exact H].
  apply free_of_cons in H as [_ Hs]. now apply IH.
Qed.

Lemma no_separator_in_piece (x rest : string) :
  free_of "|"%char x ->
  lstrip x <> "" \/ rest = "" ->
  match_length BAR_RE (x ++ rest) = None.
Proof.
  intros Hfree Hcase.
  destruct (lstrip_run x) as (run & E & Hrun).
  pose proof (lstrip_head x) as Hhead.
  pose proof (lstrip_free _ _ Hfree) as Hf.
  destruct (lstrip x) as [|c t] eqn:L.
  - destruct Hcase as [Hne| ->]; [congruence|].
    rewrite append_empty_r in E. subst x.
    now apply no_separator_before_word.
  - rewrite E, append_assoc.
    change (String c t ++ rest)%string with (String c (t ++ rest)).
    apply no_separator_before_word; [exact Hrun|].
    split; [exact Hhead|]. now apply free_of_cons in Hf as [Hc _].
Qed.

Lemma str_rev_cons (c : ascii) (s : string) :
  str_rev (String c s) = (str_rev s ++ String c "")%string.
Proof.
  change (String c s) with (String c "" ++ s)%string.
  now rewrite str_rev_app.
Qed.

(** A piece in which no separator starts is read character by
    character into the current piece. *)
Lemma scan_piece (x : string) :
  forall (cur rest : string),
    free_of "|"%char x ->
    rest = ""
    \/ (forall a b, x = (a ++ b)%string -> b <> "" -> lstrip b <> "") ->
    re_split_go BAR_RE 0 cur (x ++ rest)
    = re_split_go BAR_RE 0 (str_rev x ++ cur) rest.
Proof.
  induction x as [|c x IH]; intros cur rest Hfree Hcase; [reflexivity|].
  change (String c x ++ rest)%string with (String c (x ++ rest)).
  cbn [re_split_go].
  change (String c (x ++ rest)) with (String c x ++ rest)%string.
  rewrite no_separator_in_piece; [|exact Hfree|].
  - apply free_of_cons in Hfree as [_ Hx].
    rewrite IH; [|exact Hx|].
    + now rewrite str_rev_cons, append_assoc.
    + destruct Hcase as [->|Hs]; [now left|right].
      intros a b E. apply (Hs (String c a) b). now rewrite E.
  - destruct Hcase as [->|Hs]; [now right|left].
    apply (Hs "" (String c x)); [reflexivity | discriminate].
Qed.

Lemma skip_separator (r : re) (x : string) :
  forall (cur t : string),
    re_split_go r (String.length x) cur (x ++ t) = re_split_go r 0 cur t.
Proof.
  induction x as [|c x IH]; intros cur t; simpl; [|apply IH].
  now destruct t.
Qed.

Lemma separator_length (r l t : string) :
  all_chars is_space r = true ->
  all_chars is_space l = true ->
  match t with EmptyString => True | String c _ => is_space c = false end ->
  match_length BAR_RE (r ++ "|" ++ l ++ t)
  = Some (String.length r + S (String.length l))%nat.
Proof.
  intros Hr Hl Ht. unfold match_length, BAR_RE. cbn [seq].
  rewrite rmatch_cat. apply rmatch_star; [exact Hr | reflexivity |].
  cbv beta. rewrite rmatch_cat, (rmatch_lit "|"). cbv beta.
  apply rmatch_star; [exact Hl | exact Ht |].
  f_equal. simpl. lia.
Qed.

Lemma length_append (a b : string) :
  String.length (a ++ b) = (String.length a + String.length b)%nat.
Proof. induction a as [|c a IH]; simpl; [reflexivity | now rewrite IH]. Qed.

(** A separator with the whitespace on both sides ends the current
    piece; the scan resumes after the whitespace. *)
Lemma scan_separator (r l t cur : string) :
  all_chars is_space r = true ->
  all_chars is_space l = true ->
  match t with EmptyString => True | String c _ => is_space c = false end ->
  re_split_go BAR_RE 0 cur (r ++ "|" ++ l ++ t)
  = str_rev cur :: re_split_go BAR_RE 0 "" t.
Proof.
  intros Hr Hl Ht.
  pose proof (separator_length r l t Hr Hl Ht) as M.
  destruct r as [|a r].
  - change ("" ++ "|" ++ l ++ t)%string with (String "|" (l ++ t)) in *.
    cbn [re_split_go]. rewrite M. cbn [String.length Nat.add].
    now rewrite skip_separator.
  - change (String a r ++ "|" ++ l ++ t)%string
      with (String a (r ++ "|" ++ l ++ t)) in *.
    cbn [re_split_go]. rewrite M. cbn [String.length Nat.add].
    replace (r ++ "|" ++ l ++ t)%string with ((r ++ "|" ++ l) ++ t)%string
      by (now rewrite !append_assoc).
    replace (String.length r + S (String.length l))%nat
      with (String.length (r ++ "|" ++ l))
      by (rewrite length_append; simpl; reflexivity).
    now rewrite skip_separator.
Qed.

(** *** Whitespace at the ends of a piece *)

Lemma all_chars_rev (p : ascii -> bool) (s : string) :
  all_chars p (str_rev s) = all_chars p s.
Proof.
  induction s as [|c s IH]; [reflexivity|].
  rewrite str_rev_cons, all_chars_app, IH. simpl.
  rewrite andb_true_r. apply andb_comm.
Qed.

Lemma rstrip_split (x : string) :
  exists r, x = (rstrip x ++ r)%string /\ all_chars is_space r = true.
Proof.
  destruct (lstrip_run (str_rev x)) as (run & E & Hrun).
  exists (str_rev run). split; [|now rewrite all_chars_rev].
  transitivity (str_rev (run ++ lstrip (str_rev x))).
  - now rewrite <- E, str_rev_involutive.
  - now rewrite str_rev_app.
Qed.

Lemma str_rev_nonempty (b : string) : b <> "" -> str_rev b <> "".
Proof.
  intros H E. apply H. rewrite <- (str_rev_involutive b), E. reflexivity.
Qed.

Lemma lstrip_app_solid (w : string) (c : ascii) (t : string) :
  is_space c = false -> lstrip (w ++ String c t) <> "".
Proof.
  intros Hc. induction w as [|a w IH]; simpl.
  - rewrite Hc. discriminate.
  - destruct (is_space a); [exact IH | discriminate].
Qed.

Lemma lstrip_before_solid (p : string) (c : ascii) (t : string) :
  is_space c = false ->
  lstrip (p ++ String c t) = (lstrip p ++ String c t)%string.
Proof.
  intros Hc. induction p as [|a p IH]; simpl.
  - now rewrite Hc.
  - destruct (is_space a); [exact IH | reflexivity].
Qed.

(** Every non-empty suffix of a right-stripped text holds a character
    that is not whitespace. *)
Lemma rstrip_solid (x a b : string) :
  rstrip x = (a ++ b)%string -> b <> "" -> lstrip b <> "".
Proof.
  unfold rstrip. intros E Hb.
  pose proof (lstrip_head (str_rev x)) as Hh.
  assert (E' : lstrip (str_rev x) = (str_rev b ++ str_rev a)%string).
  { rewrite <- str_rev_app, <- E. now rewrite str_rev_involutive. }
  pose proof (str_rev_nonempty b Hb) as Hn.
  destruct (str_rev b) as [|c z] eqn:R; [congruence|].
  rewrite E' in Hh. simpl in Hh.
  rewrite <- (str_rev_involutive b), R, str_rev_cons.
  now apply lstrip_app_solid.
Qed.

Lemma count_char_app (c : ascii) (a b : string) :
  count_char c (a ++ b) = (count_char c a + count_char c b)%nat.
Proof.
  induction a as [|d a IH]; simpl; [reflexivity|]. rewrite IH. lia.
Qed.

Lemma rstrip_free (sep : ascii) (x : string) :
  free_of sep x -> free_of sep (rstrip x).
Proof.
  intros H. destruct (rstrip_split x) as (r & E & _).
  unfold free_of in *. rewrite E, count_char_app in H. lia.
Qed.

Lemma lstrip_length (s : string) :
  (String.length (lstrip s) <= String.length s)%nat.
Proof.
  induction s as [|c s IH]; simpl; [lia|].
  destruct (is_space c); simpl; lia.
Qed.

Lemma lstrip_fixed_head (s : string) :
  lstrip s = s ->
  match s with EmptyString => True | String c _ => is_space c = false end.
Proof.
  destruct s as [|c s]; [trivial|]. simpl.
  destruct (is_space c); [|reflexivity].
  intros H. pose proof (lstrip_length s) as L. rewrite H in L.
  simpl in L. lia.
Qed.

Lemma head_lstrip_fixed (s : string) :
  match s with EmptyString => True | String c _ => is_space c = false end ->
  lstrip s = s.
Proof.
  destruct s as [|c s]; simpl; [reflexivity|]. now intros ->.
Qed.

Lemma rstrip_fixed_suffix (a b : string) :
  rstrip (a ++ b) = (a ++ b)%string -> rstrip b = b.
Proof.
  unfold rstrip. intros H.
  assert (H' : lstrip (str_rev (a ++ b)) = str_rev (a ++ b)).
  { rewrite <- H at 2. now rewrite str_rev_involutive. }
  rewrite str_rev_app in H'. apply lstrip_fixed_head in H'.
  rewrite head_lstrip_fixed; [apply str_rev_involutive|].
  destruct (str_rev b); [exact I | exact H'].
Qed.

Lemma strip_fixed_parts (v : string) :
  strip v = v -> lstrip v = v /\ rstrip v = v.
Proof.
  intros H.
  assert (L : lstrip v = v).
  { apply head_lstrip_fixed. pose proof (lstrip_head v) as Hh.
    destruct (rstrip_split (lstrip v)) as (r & E & _).
    change (rstrip (lstrip v)) with (strip v) in E. rewrite H in E.
    rewrite E in Hh. destruct v; [exact I | exact Hh]. }
  split; [exact L|]. unfold strip in H. now rewrite L in H.
Qed.

Lemma strip_idempotent (s : string) : strip (strip s) = strip s.
Proof.
  unfold strip. remember (lstrip s) as x eqn:Ex.
  assert (L : lstrip (rstrip x) = rstrip x).
  { apply head_lstrip_fixed. pose proof (lstrip_head s) as Hh.
    rewrite <- Ex in Hh.
    destruct (rstrip_split x) as (r & E & _).
    rewrite E in Hh. destruct (rstrip x); [exact I | exact Hh]. }
  rewrite L. unfold rstrip.
  now rewrite str_rev_involutive, lstrip_idempotent.
Qed.

(** *** Pieces and tokens *)

Lemma split_nonempty (sep : ascii) (s : string) : split sep s <> [].
Proof.
  destruct s as [|c s]; simpl; [discriminate|].
  destruct (Ascii.eqb c sep); [discriminate|].
  destruct (split sep s); discriminate.
Qed.

Lemma split_pieces_free (sep : ascii) (s : string) :
  Forall (free_of sep) (split sep s).
Proof.
  induction s as [|c s IH]; simpl.
  - constructor; [reflexivity | constructor].
  - destruct (Ascii.eqb c sep) eqn:E.
    + constructor; [reflexivity | exact IH].
    + destruct (split sep s) as [|p ps].
      * constructor; [|constructor]. unfold free_of. simpl. now rewrite E.
      * inversion IH as [|? ? Hp Hps]; subst.
        constructor; [|exact Hps]. unfold free_of in *. simpl.
        now rewrite E.
Qed.

Lemma join_split (sep : ascii) (s : string) :
  join (String sep "") (split sep s) = s.
Proof.
  induction s as [|c s IH]; [reflexivity|].
  pose proof (split_nonempty sep s) as Hne. simpl.
  destruct (Ascii.eqb_spec c sep) as [->|Hc].
  - destruct (split sep s) as [|p ps]; [congruence|].
    change (join (String sep "") ("" :: p :: ps))
      with (String sep (join (String sep "") (p :: ps))).
    now rewrite IH.
  - destruct (split sep s) as [|p ps]; [congruence|].
    destruct ps as [|q ps].
    + simpl in *. now rewrite IH.
    + change (join (String sep "") (String c p :: q :: ps))
        with (String c (join (String sep "") (p :: q :: ps))).
      now rewrite IH.
Qed.

Lemma join_last (sep : string) (ps : list string) :
  ps <> [] -> exists pre, join sep ps = (pre ++ last ps "")%string.
Proof.
  induction ps as [|p ps IH]; [congruence|]. intros _.
  destruct ps as [|q ps].
  - now exists "".
  - destruct IH as [pre E]; [discriminate|].
    exists (p ++ sep ++ pre)%string.
    change (join sep (p :: q :: ps))
      with (p ++ sep ++ join sep (q :: ps))%string.
    change (last (p :: q :: ps) "") with (last (q :: ps) "").
    now rewrite E, !append_assoc.
Qed.

(** The scan of the pieces of a text joined by bars: each piece but the
    last comes out stripped; the last keeps its trailing whitespace. *)
Lemma scan_pieces (ps : list string) :
  ps <> [] -> Forall (free_of "|"%char) ps ->
  re_split_go BAR_RE 0 "" (lstrip (join "|" ps))
  = map strip (removelast ps) ++ [lstrip (last ps "")].
Proof.
  induction ps as [|p ps IH]; intros Hne Hall; [congruence|].
  inversion Hall as [|? ? Hp Hps]; subst.
  destruct ps as [|q ps].
  - cbn [join removelast last map app].
    rewrite <- (append_empty_r (lstrip p)) at 1.
    rewrite scan_piece; [|now apply lstrip_free | now left].
    cbn [re_split_go]. now rewrite append_empty_r, str_rev_involutive.
  - change (join "|" (p :: q :: ps))
      with (p ++ String "|" (join "|" (q :: ps)))%string.
    change (removelast (p :: q :: ps)) with (p :: removelast (q :: ps)).
    change (last (p :: q :: ps) "") with (last (q :: ps) "").
    cbn [map app]. rewrite <- IH; [|discriminate | exact Hps].
    rewrite lstrip_before_solid by reflexivity.
    remember (join "|" (q :: ps)) as J eqn:EJ. clear EJ IH.
    destruct (rstrip_split (lstrip p)) as (r & E & Hr).
    destruct (lstrip_run J) as (l & El & Hl).
    replace (lstrip p ++ String "|" J)%string
      with (rstrip (lstrip p) ++ (r ++ "|" ++ l ++ lstrip J))%string.
    + rewrite scan_piece.
      * rewrite append_empty_r, scan_separator;
          [|exact Hr | exact Hl | apply lstrip_head].
        now rewrite str_rev_involutive.
      * now apply rstrip_free, lstrip_free.
      * right. intros a b. apply rstrip_solid.
    + rewrite <- append_assoc, <- E.
      change ("|" ++ l ++ lstrip J)%string with (String "|" (l ++ lstrip J)).
      now rewrite <- El.
Qed.

Lemma bar_split_of_stripped (v : string) :
  strip v = v -> re_split BAR_RE v = map strip (split "|"%char v).
Proof.
  intros Hv. destruct (strip_fixed_parts v Hv) as [Hl Hr].
  pose proof (split_nonempty "|"%char v) as Hne.
  pose proof (split_pieces_free "|"%char v) as Hfree.
  pose proof (scan_pieces _ Hne Hfree) as M.
  pose proof (join_split "|"%char v) as J.
  change (String "|" "") with "|"%string in J.
  rewrite J, Hl in M. unfold re_split. rewrite M. clear M.
  destruct (join_last "|" _ Hne) as [pre E]. rewrite J in E.
  remember (split "|"%char v) as ps eqn:Eps. clear Eps J.
  transitivity (map strip (removelast ps ++ [last ps ""]));
    [|now rewrite <- app_removelast_last].
  rewrite map_app. cbn [map]. do 2 f_equal.
  destruct (lstrip_run (last ps "")) as (run & Ez & _).
  unfold strip. symmetry.
  apply (rstrip_fixed_suffix (pre ++ run)).
  now rewrite append_assoc, <- Ez, <- E.
Qed.

(** *** Whitespace at the ends of the whole text *)

Lemma split_app_free (sep : ascii) (a w : string) :
  free_of sep a ->
  split sep (a ++ w)
  = match split sep w with
    | p :: rest => (a ++ p)%string :: rest
    | [] => [a]
    end.
Proof.
  induction a as [|c a IH]; intros H.
  - pose proof (split_nonempty sep w) as Hne. simpl.
    destruct (split sep w); [congruence | reflexivity].
  - apply free_of_cons in H as [Hc Ha]. simpl. rewrite Hc, (IH Ha).
    pose proof (split_nonempty sep w) as Hne.
    destruct (split sep w); [congruence | reflexivity].
Qed.

Lemma split_app_free_r (sep : ascii) (w r : string) :
  free_of sep r ->
  split sep (w ++ r)
  = removelast (split sep w) ++ [(last (split sep w) "" ++ r)%string].
Proof.
  intros Hr. induction w as [|c w IH]; [now apply split_free|].
  pose proof (split_nonempty sep w) as Hne. simpl.
  rewrite IH. destruct (Ascii.eqb c sep).
  - destruct (split sep w) as [|p ps]; [congruence | reflexivity].
  - destruct (split sep w) as [|p ps]; [congruence|].
    destruct ps as [|q ps]; reflexivity.
Qed.

Lemma all_space_free (run : string) :
  all_chars is_space run = true -> free_of "|"%char run.
Proof.
  induction run as [|c run IH]; intros H; [reflexivity|].
  cbn [all_chars] in H. apply andb_true_iff in H as [Hc Hs].
  unfold free_of in *. simpl. now rewrite (is_space_not_bar c Hc), (IH Hs).
Qed.

Lemma lstrip_app_run (run p : string) :
  all_chars is_space run = true -> lstrip (run ++ p) = lstrip p.
Proof.
  induction run as [|c run IH]; intros H; [reflexivity|].
  cbn [all_chars] in H. apply andb_true_iff in H as [Hc Hs].
  simpl. now rewrite Hc, (IH Hs).
Qed.

Lemma rstrip_app_run (x r : string) :
  all_chars is_space r = true -> rstrip (x ++ r) = rstrip x.
Proof.
  intros H. unfold rstrip.
  now rewrite str_rev_app, lstrip_app_run by now rewrite all_chars_rev.
Qed.

Lemma strip_app_run (run p : string) :
  all_chars is_space run = true -> strip (run ++ p) = strip p.
Proof. intros H. unfold strip. now rewrite lstrip_app_run. Qed.

Lemma strip_app_run_r (z r : string) :
  all_chars is_space r = true -> strip (z ++ r) = strip z.
Proof.
  intros H. unfold strip.
  destruct (lstrip_run z) as (run & E & Hrun).
  pose proof (lstrip_head z) as Hh.
  rewrite E at 1. rewrite append_assoc, (lstrip_app_run run) by exact Hrun.
  destruct (lstrip z) as [|c t].
  - simpl. rewrite <- (append_empty_r r), (lstrip_app_run r "") by exact H.
    reflexivity.
  - change (String c t ++ r)%string with (String c (t ++ r)).
    cbn [lstrip]. rewrite Hh.
    change (String c (t ++ r)) with (String c t ++ r)%string.
    now apply rstrip_app_run.
Qed.

Lemma pieces_of_lstrip (v : string) :
  map strip (split "|"%char (lstrip v)) = map strip (split "|"%char v).
Proof.
  destruct (lstrip_run v) as (run & E & Hrun).
  rewrite E at 2. rewrite split_app_free by now apply all_space_free.
  pose proof (split_nonempty "|"%char (lstrip v)) as Hne.
  destruct (split "|"%char (lstrip v)) as [|p rest]; [congruence|].
  cbn [map]. now rewrite strip_app_run.
Qed.

Lemma pieces_of_rstrip (v : string) :
  map strip (split "|"%char (rstrip v)) = map strip (split "|"%char v).
Proof.
  destruct (rstrip_split v) as (r & E & Hr).
  rewrite E at 2. rewrite split_app_free_r by now apply all_space_free.
  pose proof (split_nonempty "|"%char (rstrip v)) as Hne.
  rewrite map_app. cbn [map]. rewrite strip_app_run_r by exact Hr.
  rewrite (app_removelast_last "" Hne) at 1.
  now rewrite map_app.
Qed.

(** X22. The regex split of [prepare_features], applied to a stripped
    variant string, yields the same tokens as the split at the bar
    followed by [strip] that [build_dataset] and [predict_winrate] apply
    to the raw string. *)
Theorem trainer_tokens_are_stripped_pieces :
  forall (v : string),
    re_split BAR_RE (strip v) = map strip (split "|"%char v).
Proof.
  intros v.
  rewrite (bar_split_of_stripped (strip v)) by apply strip_idempotent.
  unfold strip at 2. now rewrite pieces_of_rstrip, pieces_of_lstrip.
Qed.

(** *** The stored variant *)

Lemma variant_line_stripped (raw v : string) :
  variant_line raw = Some v -> strip v = v.
Proof.
  unfold variant_line. cbv zeta.
  destruct (is_empty (strip raw)); [discriminate|].
  destruct (re_match true GAME_RE (strip raw)); [discriminate|].
  destruct (re_match true VARIANT_RE (strip raw)) as [vm|]; [|discriminate].
  cbn [option_map]. intros H. injection H as <-. apply strip_idempotent.
Qed.

Lemma parse_lines_variant_stripped (ls : list string) :
  forall (d d' : parsed),
    (forall v, p_variant d = Some v -> strip v = v) ->
    parse_lines d ls = Ok d' ->
    forall v, p_variant d' = Some v -> strip v = v.
Proof.
  induction ls as [|x ls IH]; intros d d' Hd; simpl.
  - intros H. now injection H as <-.
  - unfold bind. destruct (parse_line d x) as [d1|] eqn:P; [|discriminate].
    apply IH. intros v Hv.
    destruct (parse_line_effect _ _ _ P) as (_ & E & _).
    rewrite E in Hv. destruct (variant_line x) as [w|] eqn:VL.
    + injection Hv as <-. now apply (variant_line_stripped x).
    + now apply Hd.
Qed.

Lemma parse_out_file_variant_stripped (text : string) (d : parsed)
      (v : string) :
  parse_out_file text = Ok d -> p_variant d = Some v -> strip v = v.
Proof.
  unfold parse_out_file. intros H.
  apply (parse_lines_variant_stripped _ _ _) with (2 := H).
  discriminate.
Qed.

Lemma process_job_variant_stripped (results_dir : directory)
      (games_df : table) (norm_to_game : dict name_cell) (base : string)
      (parts : dict string) (r : row) :
  process_job results_dir games_df norm_to_game base parts = Ok (Some r) ->
  strip (variant_text r) = variant_text r.
Proof.
  unfold process_job, bind. intros H.
  repeat break_match;
    injection H as <-; unfold variant_text; cbn [variant];
    match goal with
    | |- context [p_variant ?p] =>
        destruct (p_variant p) eqn:V;
        [eapply parse_out_file_variant_stripped; eassumption | reflexivity]
    end.
Qed.

(** X23. For every row of the dataset the variant is stored stripped, so
    the tokens [prepare_features] splits off the row's variant are its
    stripped pieces, and the first four of them (padded with empty
    strings) are the row's four component columns. *)
Theorem row_tokens_are_row_components :
  forall (results_dir : directory) (games_df : table) (rows : list row)
         (r : row),
    build_dataset results_dir games_df = Ok rows ->
    In r rows ->
    re_split BAR_RE (variant_text r)
    = map strip (split "|"%char (variant_text r))
    /\ firstn 4 (pad4 (re_split BAR_RE (variant_text r)))
       = [variant_select r; variant_simulation r; variant_backprop r;
          variant_finalmove r].
Proof.
  intros results_dir games_df rows r Hb Hr.
  destruct (build_dataset_In _ _ _ _ Hb Hr) as (parts & _ & P).
  pose proof (process_job_variant_stripped _ _ _ _ _ _ P) as Hs.
  destruct (process_job_variant _ _ _ _ _ _ P) as [E _].
  rewrite (bar_split_of_stripped _ Hs). split; [reflexivity|].
  rewrite E, variant_parts_build_query, query_components_firstn.
  reflexivity.
Qed.

Lemma row_tokens_are_row_components_witness :
  exists r,
    build_dataset dir_A_B hex_table = Ok [r]
    /\ re_split BAR_RE (variant_text r)
       = map strip (split "|"%char (variant_text r))
    /\ firstn 4 (pad4 (re_split BAR_RE (variant_text r)))
       = [variant_select r; variant_simulation r; variant_backprop r;
          variant_finalmove r].
Proof.
  eexists. split; [vm_compute; reflexivity|].
  eapply (row_tokens_are_row_components dir_A_B hex_table).
  - vm_compute. reflexivity.
  - left. reflexivity.
Defined.

(** ** The readers of float literals *)

Lemma drop_while_none (p : ascii -> bool) (s : string) :
  all_chars (fun c => negb (p c)) s = true -> drop_while p s = s.
Proof.
  destruct s as [|c s]; simpl; [reflexivity|].
  intros H. apply andb_true_iff in H as [Hc _].
  now destruct (p c).
Qed.

Lemma strip_with_none (p : ascii -> bool) (s : string) :
  all_chars (fun c => negb (p c)) s = true -> strip_with p s = s.
Proof.
  intros H. unfold strip_with.
  rewrite (drop_while_none p s H).
  rewrite drop_while_none by now rewrite all_chars_rev.
  apply str_rev_involutive.
Qed.

Lemma all_chars_weaken (p q : ascii -> bool) (s : string) :
  (forall c, p c = true -> q c = true) ->
  all_chars p s = true -> all_chars q s = true.
Proof.
  intros Hpq. induction s as [|c s IH]; simpl; [reflexivity|].
  intros H. apply andb_true_iff in H as [Hc Hs].
  now rewrite (Hpq c Hc), IH.
Qed.

(** What a digit or a point is not. *)
Lemma digit_or_point_plain (c : ascii) :
  digit_or_point c = true ->
  is_float_space c = false /\ is_underscore c = false
  /\ Ascii.eqb c "-"%char = false /\ Ascii.eqb c "+"%char = false
  /\ Ascii.eqb c "e"%char = false /\ Ascii.eqb c "E"%char = false
  /\ Ascii.eqb (lower_char c) "i"%char = false
  /\ Ascii.eqb (lower_char c) "n"%char = false.
Proof.
  destruct c as [[] [] [] [] [] [] [] []]; intros H;
    first [discriminate H | repeat split].
Qed.

Lemma underscores_ok_plain (prev : ascii) (s : string) :
  is_underscore prev = false ->
  all_chars (fun c => negb (is_underscore c)) s = true ->
  underscores_ok prev s = true.
Proof.
  revert prev. induction s as [|c s IH]; intros prev Hp; simpl.
  - intros _. unfold is_underscore in Hp. now rewrite Hp.
  - intros H. apply andb_true_iff in H as [Hc Hs].
    apply negb_true_iff in Hc. unfold is_underscore in Hc, Hp.
    rewrite Hc, Hp. simpl. apply IH; [exact Hc | exact Hs].
Qed.

Lemma split_exponent_none (s : string) :
  all_chars digit_or_point s = true -> split_exponent s = (s, None).
Proof.
  induction s as [|c s IH]; simpl; [reflexivity|].
  intros H. apply andb_true_iff in H as [Hc Hs].
  destruct (digit_or_point_plain c Hc) as (_ & _ & _ & _ & He & HE & _).
  now rewrite He, HE, (IH Hs).
Qed.

(** On a run of digits and points [float_of_text] is [float_of_decimal]. *)
Lemma float_of_text_decimal (s : string) :
  all_chars digit_or_point s = true ->
  float_of_text s = float_of_decimal s.
Proof.
  intros H. unfold float_of_text.
  rewrite strip_with_none
    by (apply (all_chars_weaken digit_or_point); [|exact H];
        intros c Hc; now destruct (digit_or_point_plain c Hc) as [-> _]).
  assert (Hu : all_chars (fun c => negb (is_underscore c)) s = true).
  { apply (all_chars_weaken digit_or_point); [|exact H].
    intros c Hc. now destruct (digit_or_point_plain c Hc) as (_ & -> & _). }
  rewrite (underscores_ok_plain Ascii.zero s eq_refl Hu).
  rewrite (filter_str_fixed _ s Hu).
  assert (Hsign : take_sign s = (false, s)).
  { destruct s as [|c s]; [reflexivity|]. simpl in H.
    apply andb_true_iff in H as [Hc _]. simpl.
    destruct (digit_or_point_plain c Hc) as (_ & _ & -> & -> & _).
    reflexivity. }
  rewrite Hsign.
  assert (Hword : (String.eqb (lower s) "inf" || String.eqb (lower s) "infinity"
                   = false)%bool /\ String.eqb (lower s) "nan" = false).
  { destruct s as [|c s]; [split; reflexivity|]. simpl in H.
    apply andb_true_iff in H as [Hc _]. simpl.
    destruct (digit_or_point_plain c Hc) as (_ & _ & _ & _ & _ & _ & -> & ->).
    split; reflexivity. }
  destruct Hword as [-> ->].
  rewrite (split_exponent_none s H), H. simpl.
  unfold float_of_decimal. now destruct (decimal_ok s).
Qed.

Lemma float_of_text_examples :
  float_of_text " 12 " = Ok (FNum 12)
  /\ float_of_text "-1.5e1" = Ok (FNum (-150 # 10))
  /\ float_of_text "1_000" = Ok (FNum 1000)
  /\ float_of_text "Infinity" = Ok (FInf false)
  /\ float_of_text "-inf" = Ok (FInf true)
  /\ float_of_text "NaN" = Ok FNaN
  /\ float_of_text "1e999" = Ok (FInf false)
  /\ float_of_text "Hex" = Raise ValueError_float
  /\ float_of_text "1_" = Raise ValueError_float
  /\ float_of_text "1e" = Raise ValueError_float
  /\ float_of_text "" = Raise ValueError_float.
Proof. repeat split; vm_compute; reflexivity. Qed.

(** A name that reads as a number is a number to the features
    [game_game] and [game__norm]; NaN and the infinities become 0. *)
Lemma numeric_name_examples :
  prop_float (mkGame (NText "1e2") []) "game" = FNum 100
  /\ prop_float (mkGame (NText "1e2") []) "_norm" = FNum 100
  /\ prop_float (mkGame (NText "Hex") []) "game" = FNum 0
  /\ prop_float (mkGame NMissing []) "game" = FNaN
  /\ prop_float (mkGame NMissing []) "_norm" = FNum 0
  /\ query_vector (mkGame (NText "Inf") [("n", CInf false)])
                  ["game_game"; "game_n"; "game__norm"; "game_x"] ""
     = [0; 0; 0; 0].
Proof. repeat split; vm_compute; reflexivity. Qed.
